(** * jarvis-native maintenance scripts: hitSlop injection and its repair passes

    A shallow embedding of the four scripts under [scripts/]:

    - [add_hitslop.py]          (the Injector),
    - [fix_all_imports.py]      (the Import Repairer),
    - [fix_imports.py]          (the Declaration Repairer),
    - [fix_arrow_functions.py]  (the Callback Repairer),

    together with the fragments of the Python runtime they rely on
    ([str] methods, [re.sub] with a replacement function, [os.path.relpath],
    reading and writing files).

    Python strings are sequences of Unicode code points; they are modelled
    as lists of code points ([N]).  A file's content is the [str] obtained
    by [f.read()], and what [f.write] stores is again such a [str]. *)

From Stdlib Require Import NArith String Ascii.
From stdpp Require Import gmap list pretty.

Local Open Scope N_scope.

Abbreviation text := (list N).

(** [u "..."] is the Python string literal with the same ASCII characters. *)
Definition u (s : string) : text :=
  map N_of_ascii (list_ascii_of_string s).

(** ** Python string methods *)

Module Py.

(** [str.isspace] on one code point, which is also the class [\s] of a
    [str] pattern and the set removed by [str.strip()]. *)
Definition isspace (c : N) : bool :=
  ((9 <=? c) && (c <=? 13)) || ((28 <=? c) && (c <=? 32))
  || (c =? 133) || (c =? 160) || (c =? 5760)
  || ((8192 <=? c) && (c <=? 8202))
  || (c =? 8232) || (c =? 8233) || (c =? 8239) || (c =? 8287)
  || (c =? 12288).

Definition ascii_alnum (c : N) : bool :=
  ((48 <=? c) && (c <=? 57)) || ((65 <=? c) && (c <=? 90))
  || ((97 <=? c) && (c <=? 122)).

(** [s.startswith(p)] *)
Fixpoint startswith (p s : text) : bool :=
  match p, s with
  | [], _ => true
  | _ :: _, [] => false
  | a :: p', b :: s' => (a =? b) && startswith p' s'
  end.

(** [needle in s] *)
Fixpoint contains (needle s : text) : bool :=
  startswith needle s ||
  match s with
  | [] => false
  | _ :: s' => contains needle s'
  end.

(** [s.split(sep)] for a one-character separator: never the empty list. *)
Fixpoint split (sep : N) (s : text) : list text :=
  match s with
  | [] => [[]]
  | c :: s' =>
      if c =? sep then [] :: split sep s'
      else match split sep s' with
           | l :: ls => (c :: l) :: ls
           | [] => [[c]]
           end
  end.

(** [sep.join(ls)] *)
Fixpoint join (sep : text) (ls : list text) : text :=
  match ls with
  | [] => []
  | [l] => l
  | l :: ls' => l ++ sep ++ join sep ls'
  end.

Fixpoint lstrip (s : text) : text :=
  match s with
  | [] => []
  | c :: s' => if isspace c then lstrip s' else s
  end.

Definition rstrip (s : text) : text := rev (lstrip (rev s)).

(** [s.strip()] *)
Definition strip (s : text) : text := rstrip (lstrip s).

(** [s.replace(old, new)] for a non-empty [old]: occurrences are replaced
    from the left and do not overlap.  [skip] counts the characters of an
    occurrence that are still to be dropped. *)
Fixpoint replace_from (skip : nat) (old new s : text) : text :=
  match s with
  | [] => []
  | c :: s' =>
      match skip with
      | S k => replace_from k old new s'
      | O =>
          if startswith old s
          then new ++ replace_from (length old - 1) old new s'
          else c :: replace_from 0 old new s'
      end
  end.

Definition replace (old new s : text) : text := replace_from 0 old new s.

(** [l.insert(i, x)] for [0 <= i]; past the end it appends. *)
Definition list_insert {A} (i : nat) (x : A) (l : list A) : list A :=
  take i l ++ x :: drop i l.

(** The loop [for i, line in enumerate(lines): if p(i, line): idx = i];
    [idx = -1] is [None] here. *)
Fixpoint last_index_from {A} (p : nat → A → bool) (i : nat) (l : list A)
    (idx : option nat) : option nat :=
  match l with
  | [] => idx
  | x :: l' => last_index_from p (S i) l' (if p i x then Some i else idx)
  end.

(** [l[i]] for an index the code has checked to be in range. *)
Definition nth_line (l : list text) (i : nat) : text := default [] (l !! i).

End Py.

(** ** The fragment of [re] the scripts use

    A backtracking matcher in continuation-passing style.  Quantifiers are
    only ever applied to one-character classes in the three patterns, which
    keeps the matcher structurally recursive. *)

Module Re.

Inductive cclass : Type :=
| Char (c : N)               (* an ordinary or escaped character *)
| Space                      (* \s *)
| Word                       (* \w *)
| NoneOf (cs : list N)       (* [^...] *)
| OneOf (cs : list N).       (* [...] *)

Inductive regex : Type :=
| Atom (c : cclass)
| Star (c : cclass)          (* c*  greedy *)
| Plus (c : cclass)          (* c+  greedy *)
| LazyStar (c : cclass)      (* c*? *)
| Opt (c : cclass)           (* c?  greedy *)
| Lit (t : text)             (* a run of ordinary characters *)
| Seq (r1 r2 : regex)
| Group (n : nat) (r : regex).

(** Captured groups; [None] for a group that has not taken part. *)
Definition captures := nat → option text.

Definition no_captures : captures := fun _ => None.

Definition set_group (n : nat) (t : text) (c : captures) : captures :=
  fun i => if Nat.eqb i n then Some t else c i.

Section Matcher.

(** [str.isalnum] above the ASCII range comes from the Unicode
    database; the matcher is parametric in it. *)
Variable uni_alnum : N → bool.

Definition isword (c : N) : bool :=
  if c <? 128 then Py.ascii_alnum c || (c =? 95) else uni_alnum c.

Definition in_class (cl : cclass) (c : N) : bool :=
  match cl with
  | Char d => c =? d
  | Space => Py.isspace c
  | Word => isword c
  | NoneOf cs => negb (existsb (N.eqb c) cs)
  | OneOf cs => existsb (N.eqb c) cs
  end.

Context {R : Type}.

(** Greedy repetition: the longest run first, giving characters back
    one at a time when the continuation fails. *)
Fixpoint star_greedy (p : N → bool) (s : text)
    (k : text → option R) : option R :=
  match s with
  | c :: s' =>
      if p c then
        match star_greedy p s' k with
        | Some r => Some r
        | None => k s
        end
      else k s
  | [] => k []
  end.

(** Lazy repetition: the shortest run first. *)
Fixpoint star_lazy (p : N → bool) (s : text)
    (k : text → option R) : option R :=
  match k s with
  | Some r => Some r
  | None =>
      match s with
      | c :: s' => if p c then star_lazy p s' k else None
      | [] => None
      end
  end.

Fixpoint lit (t s : text) : option text :=
  match t, s with
  | [], _ => Some s
  | _ :: _, [] => None
  | a :: t', b :: s' => if a =? b then lit t' s' else None
  end.

Fixpoint exec (r : regex) (s : text) (caps : captures)
    (k : text → captures → option R) : option R :=
  match r with
  | Atom cl =>
      match s with
      | c :: s' => if in_class cl c then k s' caps else None
      | [] => None
      end
  | Star cl => star_greedy (in_class cl) s (fun s' => k s' caps)
  | Plus cl =>
      match s with
      | c :: s' =>
          if in_class cl c
          then star_greedy (in_class cl) s' (fun s'' => k s'' caps)
          else None
      | [] => None
      end
  | LazyStar cl => star_lazy (in_class cl) s (fun s' => k s' caps)
  | Opt cl =>
      match s with
      | c :: s' =>
          if in_class cl c then
            match k s' caps with
            | Some r => Some r
            | None => k s caps
            end
          else k s caps
      | [] => k [] caps
      end
  | Lit t =>
      match lit t s with
      | Some s' => k s' caps
      | None => None
      end
  | Seq r1 r2 =>
      exec r1 s caps (fun s' caps' => exec r2 s' caps' k)
  | Group n r1 =>
      exec r1 s caps
        (fun s' caps' =>
           k s' (set_group n (take (length s - length s') s) caps'))
  end.

End Matcher.

(** A match object: the matched text, the groups, and where it ends. *)
Record match_obj : Type := MatchObj {
  group0 : text;
  groups : captures;
  rest : text;
}.

(** [m.group(n)] *)
Definition group (m : match_obj) (n : nat) : text :=
  match n with
  | O => group0 m
  | _ => default [] (groups m n)
  end.

Section Sub.

Variable uni_alnum : N → bool.

(** [pattern.match(s)]: a match anchored at the start of [s]. *)
Definition match_at (r : regex) (s : text) : option match_obj :=
  exec uni_alnum r s no_captures
    (fun s' caps =>
       Some (MatchObj (take (length s - length s') s) caps s')).

(** [re.sub(pattern, repl, s)] with a function [repl]: scan from the
    left; at each position not inside an earlier match, a match is
    replaced by [repl m], otherwise the character is copied.  [skip]
    counts the characters of the last match still to be passed over.
    An empty match is replaced and the character after it copied. *)
Fixpoint sub_from (skip : nat) (r : regex) (repl : match_obj → text)
    (s : text) : text :=
  match s with
  | [] =>
      match skip, match_at r [] with
      | O, Some m => repl m
      | _, _ => []
      end
  | c :: s' =>
      match skip with
      | S k => sub_from k r repl s'
      | O =>
          match match_at r s with
          | Some m =>
              match length (group0 m) with
              | O => repl m ++ c :: sub_from 0 r repl s'
              | S n => repl m ++ sub_from n r repl s'
              end
          | None => c :: sub_from 0 r repl s'
          end
      end
  end.

Definition sub (r : regex) (repl : match_obj → text) (s : text) : text :=
  sub_from 0 r repl s.

End Sub.

(** [seq [r1; r2; ...]] is the concatenation [r1 r2 ...]. *)
Fixpoint seq (rs : list regex) : regex :=
  match rs with
  | [] => Lit []
  | [r] => r
  | r :: rs' => Seq r (seq rs')
  end.

End Re.

(** ** Paths, files and the console *)

Module Os.

(** A [pathlib.Path] that is absolute and normalised: the list of its
    components below the root. *)
Abbreviation path := (list text).

(** [p.parent] *)
Definition parent (p : path) : path := removelast p.

Fixpoint is_prefix (base p : path) : bool :=
  match base, p with
  | [], _ => true
  | _ :: _, [] => false
  | a :: base', b :: p' => bool_decide (a = b) && is_prefix base' p'
  end.

(** [p.relative_to(base)]: the components of [p] below [base]; raises
    [ValueError] ([None]) when [p] is not below [base]. *)
Definition relative_to (p base : path) : option (list text) :=
  if is_prefix base p then Some (drop (length base) p) else None.

(** [str(rel)] of a relative path. *)
Definition str_rel (rel : list text) : text :=
  match rel with
  | [] => u "."
  | _ => Py.join (u "/") rel
  end.

(** [os.path.commonprefix] of two component lists. *)
Fixpoint commonprefix (a b : path) : path :=
  match a, b with
  | x :: a', y :: b' =>
      if bool_decide (x = y) then x :: commonprefix a' b' else []
  | _, _ => []
  end.

(** [os.path.relpath(p, start)] (posixpath). *)
Definition relpath (p start : path) : text :=
  let i := length (commonprefix start p) in
  let rel_list := replicate (length start - i) (u "..") ++ drop i p in
  match rel_list with
  | [] => u "."
  | _ => Py.join (u "/") rel_list
  end.

(** The state the scripts act on: the files (by path, holding their
    decoded content) and the lines printed so far. *)
Record world : Type := World {
  files : gmap (list text) text;
  stdout : list text;
}.

(** A computation that may raise; the state reached is kept either way. *)
Definition io (A : Type) : Type := world → option A * world.

Definition ret {A} (a : A) : io A := fun w => (Some a, w).

Definition bind {A B} (m : io A) (f : A → io B) : io B :=
  fun w =>
    match m w with
    | (Some a, w') => f a w'
    | (None, w') => (None, w')
    end.

Definition raise {A} : io A := fun w => (None, w).

Definition lift {A} (o : option A) : io A :=
  match o with
  | Some a => ret a
  | None => raise
  end.

(** [with open(p, 'r', encoding='utf-8') as f: f.read()] *)
Definition read_file (p : path) : io text :=
  fun w => (files w !! p, w).

(** [with open(p, 'w', encoding='utf-8') as f: f.write(content)] *)
Definition write_file (p : path) (content : text) : io unit :=
  fun w => (Some tt, World (<[p := content]> (files w)) (stdout w)).

(** [print(line)] *)
Definition print (line : text) : io unit :=
  fun w => (Some tt, World (files w) (stdout w ++ [line])).

(** [root.rglob("*" + suffix)]: the files below [root] whose name ends
    with [suffix], in the order the directory walk yields them. *)
Definition rglob (root : path) (suffix : text) (w : world) : list path :=
  filter
    (fun p =>
       is_prefix root p ∧ length root < length p
       ∧ Py.startswith (rev suffix) (rev (default [] (last p))) = true)%nat
    (map fst (map_to_list (files w))).

End Os.

Notation "'let*' x := m 'in' k" := (Os.bind m (fun x => k))
  (at level 10, x name, m at level 100, k at level 200, only parsing).
Notation "m ;;; k" := (Os.bind m (fun _ => k))
  (at level 100, right associativity, only parsing).

(** Constants shared by the four scripts. *)

Definition nl : text := [10].

Definition SRC_DIR : Os.path :=
  [u "mnt"; u "d"; u "claude dash"; u "jarvis-native"; u "src"].

(** The check mark of the status lines, U+2713. *)
Definition check_mark : text := [10003].

(** [for tsx_file in files: if fix_file(tsx_file): modified += 1] *)
Fixpoint count_fixed (fix_file : Os.path → Os.io bool)
    (tsx_files : list Os.path) (modified : nat) : Os.io nat :=
  match tsx_files with
  | [] => Os.ret modified
  | tsx_file :: tsx_files' =>
      let* b := fix_file tsx_file in
      count_fixed fix_file tsx_files' (if b then S modified else modified)
  end.

(** ** [add_hitslop.py]: the Injector *)

Module AddHitslop.

(** Files that already have HIT_SLOP (skip these). *)
Definition SKIP_FILES : list text :=
  [ u "src/components/ProjectCard.tsx";
    u "src/components/ui/SearchBar.tsx";
    u "src/screens/main/HabitsScreen.tsx";
    u "src/screens/main/TasksScreen.tsx";
    u "src/components/BudgetCard.tsx";
    u "src/components/BudgetFormModal.tsx" ].

(** Calculate relative import path for constants/ui. *)
Definition get_relative_import (file_path : Os.path) : text :=
  let rel_parts :=
    Os.relpath (SRC_DIR ++ [u "constants"; u "ui.ts"]) (Os.parent file_path) in
  let rel_parts := Py.replace (u "\") (u "/") (Py.replace (u ".ts") [] rel_parts) in
  if negb (Py.startswith (u ".") rel_parts) then u "./" ++ rel_parts
  else rel_parts.

(** [r'(<IconButton[^>]*?)(/?>)'] (compiled with [re.DOTALL], which only
    concerns [.], absent from the pattern). *)
Definition pattern : Re.regex :=
  Re.seq
    [ Re.Group 1 (Re.seq [Re.Lit (u "<IconButton"); Re.LazyStar (Re.NoneOf (u ">"))]);
      Re.Group 2 (Re.seq [Re.Opt (Re.Char 47); Re.Atom (Re.Char 62)]) ].

Definition add_hitslop (m : Re.match_obj) : text :=
  let tag := Re.group m 1 in
  let closing := Re.group m 2 in
  if Py.contains (u "hitSlop") tag then Re.group m 0
  else tag ++ nl ++ u "                hitSlop={HIT_SLOP}" ++ closing.

Definition is_import_line (_ : nat) (line : text) : bool :=
  Py.startswith (u "import ") (Py.strip line).

Section WithUnicode.

Variable uni_alnum : N → bool.

(** Add HIT_SLOP import and hitSlop props to IconButtons. *)
Definition process_file (file_path : Os.path) : Os.io bool :=
  let* content := Os.read_file file_path in
  if negb (Py.contains (u "IconButton") content)
     || negb (Py.contains (u "react-native-paper") content)
  then Os.ret false
  else if Py.contains (u "HIT_SLOP") content then
    let* rel := Os.lift (Os.relative_to file_path (Os.parent SRC_DIR)) in
    Os.print (u "SKIP (has HIT_SLOP): " ++ Os.str_rel rel) ;;;
    Os.ret false
  else
    let modified := false in
    let import_path := get_relative_import file_path in
    let import_statement :=
      u "import { HIT_SLOP } from '" ++ import_path ++ u "';" in
    let lines := Py.split 10 content in
    let last_import_idx := Py.last_index_from is_import_line 0 lines None in
    let '(content, modified) :=
      match last_import_idx with
      | Some idx =>
          (Py.join nl (Py.list_insert (idx + 1) import_statement lines), true)
      | None => (content, modified)
      end in
    let new_content := Re.sub uni_alnum pattern add_hitslop content in
    let '(content, modified) :=
      if bool_decide (new_content ≠ content) then (new_content, true)
      else (content, modified) in
    if modified then
      Os.write_file file_path content ;;;
      let* rel := Os.lift (Os.relative_to file_path (Os.parent SRC_DIR)) in
      Os.print (check_mark ++ u " Modified: " ++ Os.str_rel rel) ;;;
      Os.ret true
    else Os.ret false.

(** The body of the loop of [main]. *)
Fixpoint main_loop (tsx_files : list Os.path) (processed modified : nat)
    : Os.io (nat * nat) :=
  match tsx_files with
  | [] => Os.ret (processed, modified)
  | tsx_file :: tsx_files' =>
      let* rel := Os.lift (Os.relative_to tsx_file (Os.parent SRC_DIR)) in
      let rel_path := Os.str_rel rel in
      if bool_decide (rel_path ∈ SKIP_FILES)
      then main_loop tsx_files' processed modified
      else
        let processed := S processed in
        let* b := process_file tsx_file in
        main_loop tsx_files' processed (if b then S modified else modified)
  end.

(** Process all TypeScript files. *)
Definition main : Os.io unit :=
  Os.print (u "Adding hitSlop to IconButton components..." ++ nl) ;;;
  let* tsx_files := (fun w => (Some (Os.rglob SRC_DIR (u ".tsx") w), w)) in
  let* counts := main_loop tsx_files 0 0 in
  let '(processed, modified) := counts in
  Os.print (nl ++ u "Processed: " ++ u (pretty processed) ++ u " files") ;;;
  Os.print (u "Modified: " ++ u (pretty modified) ++ u " files").

End WithUnicode.

End AddHitslop.

(** ** [fix_all_imports.py]: the Import Repairer *)

Module FixAllImports.

Definition quote : Re.cclass := Re.OneOf (u "'" ++ [34]).
Definition not_quote : Re.cclass := Re.NoneOf (u "'" ++ [34]).

(** [r"(import\s+\{)\s*\nimport\s+\{\s*HIT_SLOP\s*\}\s+from\s+['\"]([^'\"]+)['\"];\s*\n(\s+[^}]+\n\}\s+from\s+['\"][^'\"]+['\"];)"] *)
Definition pattern : Re.regex :=
  Re.seq
    [ Re.Group 1 (Re.seq [Re.Lit (u "import"); Re.Plus Re.Space; Re.Lit (u "{")]);
      Re.Star Re.Space; Re.Lit (nl ++ u "import"); Re.Plus Re.Space;
      Re.Lit (u "{"); Re.Star Re.Space; Re.Lit (u "HIT_SLOP");
      Re.Star Re.Space; Re.Lit (u "}"); Re.Plus Re.Space; Re.Lit (u "from");
      Re.Plus Re.Space; Re.Atom quote;
      Re.Group 2 (Re.Plus not_quote);
      Re.Atom quote; Re.Lit (u ";"); Re.Star Re.Space; Re.Lit nl;
      Re.Group 3
        (Re.seq
           [ Re.Plus Re.Space; Re.Plus (Re.NoneOf (u "}")); Re.Lit (nl ++ u "}");
             Re.Plus Re.Space; Re.Lit (u "from"); Re.Plus Re.Space;
             Re.Atom quote; Re.Plus not_quote; Re.Atom quote; Re.Lit (u ";") ]) ].

Definition fix_import (m : Re.match_obj) : text :=
  let import_start := Re.group m 1 in
  let hit_slop_path := Re.group m 2 in
  let rest_of_import := Re.group m 3 in
  import_start ++ nl ++ rest_of_import ++ nl
    ++ u "import { HIT_SLOP } from '" ++ hit_slop_path ++ u "';".

Section WithUnicode.

Variable uni_alnum : N → bool.

(** Fix broken import statements. *)
Definition fix_file (file_path : Os.path) : Os.io bool :=
  let* content := Os.read_file file_path in
  let original := content in
  let content := Re.sub uni_alnum pattern fix_import content in
  if bool_decide (content ≠ original) then
    Os.write_file file_path content ;;;
    let* rel := Os.lift (Os.relative_to file_path (Os.parent SRC_DIR)) in
    Os.print (check_mark ++ u " Fixed: " ++ Os.str_rel rel) ;;;
    Os.ret true
  else Os.ret false.

(** Process all TypeScript files. *)
Definition main : Os.io unit :=
  Os.print (u "Fixing broken import statements..." ++ nl) ;;;
  let* tsx_files := (fun w => (Some (Os.rglob SRC_DIR (u ".tsx") w), w)) in
  let* modified := count_fixed fix_file tsx_files 0 in
  Os.print (nl ++ u "Fixed: " ++ u (pretty modified) ++ u " files").

End WithUnicode.

End FixAllImports.

(** ** [fix_arrow_functions.py]: the Callback Repairer *)

Module FixArrowFunctions.

(** [r'(\w+)=\{\(\)\s*=\s*\n\s+hitSlop=\{HIT_SLOP\}>\s*([^}]+)\}'] *)
Definition pattern : Re.regex :=
  Re.seq
    [ Re.Group 1 (Re.Plus Re.Word); Re.Lit (u "={()"); Re.Star Re.Space;
      Re.Lit (u "="); Re.Star Re.Space; Re.Lit nl; Re.Plus Re.Space;
      Re.Lit (u "hitSlop={HIT_SLOP}>"); Re.Star Re.Space;
      Re.Group 2 (Re.Plus (Re.NoneOf (u "}"))); Re.Lit (u "}") ].

Definition fix_arrow (m : Re.match_obj) : text :=
  let prop_name := Re.group m 1 in
  let body := Py.strip (Re.group m 2) in
  prop_name ++ u "={() => " ++ body ++ u "}" ++ nl
    ++ u "                hitSlop={HIT_SLOP}".

Section WithUnicode.

Variable uni_alnum : N → bool.

(** Fix broken arrow functions. *)
Definition fix_file (file_path : Os.path) : Os.io bool :=
  let* content := Os.read_file file_path in
  let original := content in
  let content := Re.sub uni_alnum pattern fix_arrow content in
  if bool_decide (content ≠ original) then
    Os.write_file file_path content ;;;
    let* rel := Os.lift (Os.relative_to file_path (Os.parent SRC_DIR)) in
    Os.print (check_mark ++ u " Fixed: " ++ Os.str_rel rel) ;;;
    Os.ret true
  else Os.ret false.

(** Process all TypeScript files. *)
Definition main : Os.io unit :=
  Os.print (u "Fixing broken arrow functions..." ++ nl) ;;;
  let* tsx_files := (fun w => (Some (Os.rglob SRC_DIR (u ".tsx") w), w)) in
  let* modified := count_fixed fix_file tsx_files 0 in
  Os.print (nl ++ u "Fixed: " ++ u (pretty modified) ++ u " files").

End WithUnicode.

End FixArrowFunctions.

(** ** [fix_imports.py]: the Declaration Repairer *)

Module FixImports.

Definition marker : text := u "import { HIT_SLOP }".

(** The two nested tests of the first loop, on line [i] of [lines]: the
    line holds the HIT_SLOP import, is not the last line, and follows a
    line that starts with 'import' or is a bare opening brace. *)
Definition misplaced (lines : list text) (i : nat) (line : text) : bool :=
  Py.contains marker line && (i <? length lines - 1)%nat
  && ((0 <? i)%nat
      && (Py.startswith (u "import") (Py.strip (Py.nth_line lines (i - 1)))
          || bool_decide (Py.strip (Py.nth_line lines (i - 1)) = u "{"))).

(** The first loop of [fix_file]: [todo] are the lines from index [i] on;
    [lines] is the whole list, which the test on the previous line reads. *)
Fixpoint scan (lines : list text) (i : nat) (todo : list text)
    (new_lines : list text) (hit_slop_import : option text)
    : list text * option text :=
  match todo with
  | [] => (new_lines, hit_slop_import)
  | line :: todo' =>
      if misplaced lines i line
      then scan lines (S i) todo' new_lines (Some line)
      else scan lines (S i) todo' (new_lines ++ [line]) hit_slop_import
  end.

(** The test of the second loop, on line [i] of [new_lines]. *)
Definition ends_import (new_lines : list text) (i : nat) (line : text) : bool :=
  let stripped := Py.strip line in
  Py.startswith (u "import ") stripped
  || ((0 <? i)%nat
      && Py.startswith (u "import") (Py.strip (Py.nth_line new_lines (i - 1)))
      && Py.startswith (u "}") stripped).

(** The text [fix_file] computes from the content it has read, once the
    marker is known to occur in it. *)
Definition fix_lines (content : text) : text :=
  let lines := Py.split 10 content in
  let '(new_lines, hit_slop_import) := scan lines 0 lines [] None in
  let new_lines :=
    match hit_slop_import with
    | Some ((_ :: _) as line) =>
        match Py.last_index_from (ends_import new_lines) 0 new_lines None with
        | Some last_import_idx =>
            Py.list_insert (last_import_idx + 1) line new_lines
        | None => new_lines
        end
    | _ => new_lines
    end in
  Py.join nl new_lines.

(** Fix incorrectly inserted import statements. *)
Definition fix_file (file_path : Os.path) : Os.io bool :=
  let* content := Os.read_file file_path in
  if negb (Py.contains marker content) then Os.ret false
  else
    let new_content := fix_lines content in
    if bool_decide (new_content ≠ content) then
      Os.write_file file_path new_content ;;;
      let* rel := Os.lift (Os.relative_to file_path (Os.parent SRC_DIR)) in
      Os.print (check_mark ++ u " Fixed: " ++ Os.str_rel rel) ;;;
      Os.ret true
    else Os.ret false.

(** Process all TypeScript files. *)
Definition main : Os.io unit :=
  Os.print (u "Fixing import statements..." ++ nl) ;;;
  let* tsx_files := (fun w => (Some (Os.rglob SRC_DIR (u ".tsx") w), w)) in
  let* modified := count_fixed fix_file tsx_files 0 in
  Os.print (nl ++ u "Fixed: " ++ u (pretty modified) ++ u " files").

End FixImports.

(** ** The text each pass computes, and the inputs of the examples *)

(** The eligibility test of the Injector. *)
Definition eligible (content : text) : bool :=
  Py.contains (u "IconButton") content
  && Py.contains (u "react-native-paper") content.

(** The line the Injector prints for an already patched file. *)
Definition skip_line (rel : list text) : text :=
  u "SKIP (has HIT_SLOP): " ++ Os.str_rel rel.

(** The content a pass leaves in [file_path], and what it printed. *)
Definition content_after {A} (pass : Os.io A) (file_path : Os.path)
    (w : Os.world) : option text :=
  Os.files (snd (pass w)) !! file_path.

Definition printed_by {A} (pass : Os.io A) (w : Os.world) : list text :=
  drop (length (Os.stdout w)) (Os.stdout (snd (pass w))).

(** A world with a single file and an empty console. *)
Definition one_file (file_path : Os.path) (content : text) : Os.world :=
  Os.World {[ file_path := content ]} [].

(** No code point above ASCII counts as alphanumeric: enough for ASCII
    examples. *)
Definition ascii_only (c : N) : bool := false.

Definition screen_path : Os.path := SRC_DIR ++ [u "screens"; u "Home.tsx"].
Definition nested_path : Os.path :=
  SRC_DIR ++ [u "screens"; u "main"; u "Home.tsx"].

(** The import line the Injector adds to [file_path]. *)
Definition import_statement (file_path : Os.path) : text :=
  u "import { HIT_SLOP } from '" ++ AddHitslop.get_relative_import file_path
    ++ u "';".

Definition last_import (content : text) : option nat :=
  Py.last_index_from AddHitslop.is_import_line 0 (Py.split 10 content) None.

(** The content after the import step of the Injector. *)
Definition with_import (file_path : Os.path) (content : text) : text :=
  match last_import content with
  | Some idx =>
      Py.join nl
        (Py.list_insert (idx + 1) (import_statement file_path)
           (Py.split 10 content))
  | None => content
  end.

(** The tag rewriting of the Injector. *)
Definition rewrite_tags uni_alnum (content : text) : text :=
  Re.sub uni_alnum AddHitslop.pattern AddHitslop.add_hitslop content.

(** What the Injector makes of a file's content. *)
Definition injector uni_alnum (file_path : Os.path) (content : text) : text :=
  if negb (eligible content) || Py.contains (u "HIT_SLOP") content
  then content
  else rewrite_tags uni_alnum (with_import file_path content).

Definition import_repairer uni_alnum (content : text) : text :=
  Re.sub uni_alnum FixAllImports.pattern FixAllImports.fix_import content.

Definition callback_repairer uni_alnum (content : text) : text :=
  Re.sub uni_alnum FixArrowFunctions.pattern FixArrowFunctions.fix_arrow content.

Definition declaration_repairer (content : text) : text :=
  if negb (Py.contains FixImports.marker content) then content
  else FixImports.fix_lines content.

(** A pass run on [file_path] touches no other file. *)
Definition only_touches {A} (pass : Os.io A) (file_path : Os.path) : Prop :=
  ∀ w q, q ≠ file_path → Os.files (snd (pass w)) !! q = Os.files w !! q.

Definition paper_screen : text :=
  u "import { IconButton } from 'react-native-paper';" ++ nl
  ++ u "export const Home = () => <IconButton icon='menu' />;".

Definition project_card : Os.path :=
  SRC_DIR ++ [u "components"; u "ProjectCard.tsx"].

Definition no_gt (s : text) : Prop := Forall (fun c => c ≠ 62) s.

Definition import_line (line : text) : bool :=
  Py.startswith (u "import ") (Py.strip line).

Definition require_screen : text :=
  u "const { IconButton } = require('react-native-paper');" ++ nl
  ++ u "export const Home = () => <IconButton icon='menu' />;".

Definition arrow_screen : text :=
  u "import { IconButton } from 'react-native-paper';" ++ nl
  ++ u "<IconButton icon='menu' onPress={() => go()} />".

(** The lines of [content] that hold the HIT_SLOP import. *)
Definition marker_lines (content : text) : list text :=
  filter (fun line => Py.contains FixImports.marker line = true)
    (Py.split 10 content).

(** The lines of [content] the first loop of the Declaration Repairer
    takes out. *)
Definition misplaced_lines (content : text) : list text :=
  let lines := Py.split 10 content in
  map snd
    (filter (fun bl : bool * text => fst bl = true)
       (imap (fun i line => (FixImports.misplaced lines i line, line)) lines)).

Definition twice_misplaced : text :=
  u "import React from 'react';" ++ nl
  ++ u "import { HIT_SLOP } from './constants/ui';" ++ nl
  ++ u "import {" ++ nl
  ++ u "import { HIT_SLOP } from '../constants/ui';" ++ nl
  ++ u "  View," ++ nl
  ++ u "} from 'react-native';" ++ nl
  ++ u "export default View;".

Definition not_brace (c : N) : bool := negb (c =? 125).

Definition split_import : text :=
  u "import {" ++ nl
  ++ u "import { HIT_SLOP } from '../constants/ui';" ++ nl
  ++ u "  View," ++ nl
  ++ u "  Text," ++ nl
  ++ u "} from 'react-native';" ++ nl
  ++ u "export default View;".

Definition whole_import : text :=
  u "import {" ++ nl
  ++ u "  View," ++ nl
  ++ u "  Text," ++ nl
  ++ u "} from 'react-native';" ++ nl
  ++ u "import { HIT_SLOP } from '../constants/ui';" ++ nl
  ++ u "export default View;".

Definition brace_free (s : text) : Prop :=
  Forall (fun c => not_brace c = true) s.

(** The line the Callback Repairer puts below the attribute, up to its
    closing brace. *)
Definition marker_line : text := nl ++ u "                hitSlop={HIT_SLOP".

Definition nested_imports : text :=
  u "import {" ++ nl
  ++ u "import { HIT_SLOP } from './a';" ++ nl
  ++ u "  import {" ++ nl
  ++ u "import { HIT_SLOP } from './b';" ++ nl
  ++ u "  View," ++ nl
  ++ u "} from 'react-native';".

Definition two_marker_lines : text :=
  u "import React from 'react';" ++ nl
  ++ u "const a = 1; import { HIT_SLOP } from './a';" ++ nl
  ++ u "const b = 2; import { HIT_SLOP } from './b';" ++ nl
  ++ u "import { View } from 'react-native';" ++ nl
  ++ u "export default View;".

(** ** What a pattern matches

    The declarative reading of a pattern: [matches r s c c'] holds when
    the text [s] is in the language of [r], the groups of [r] turning the
    captures [c] into [c'].  The matcher [Re.exec] is proved sound and
    complete for it below. *)

Section Matches.

Variable uni_alnum : N → bool.

Definition all_in (cl : Re.cclass) (s : text) : Prop :=
  Forall (fun c => Re.in_class uni_alnum cl c = true) s.

Inductive matches : Re.regex → text → Re.captures → Re.captures → Prop :=
| M_Atom cl c caps :
    Re.in_class uni_alnum cl c = true → matches (Re.Atom cl) [c] caps caps
| M_Star cl s caps :
    all_in cl s → matches (Re.Star cl) s caps caps
| M_Plus cl s caps :
    s ≠ [] → all_in cl s → matches (Re.Plus cl) s caps caps
| M_LazyStar cl s caps :
    all_in cl s → matches (Re.LazyStar cl) s caps caps
| M_Opt_one cl c caps :
    Re.in_class uni_alnum cl c = true → matches (Re.Opt cl) [c] caps caps
| M_Opt_none cl caps :
    matches (Re.Opt cl) [] caps caps
| M_Lit t caps :
    matches (Re.Lit t) t caps caps
| M_Seq r1 r2 s1 s2 c0 c1 c2 :
    matches r1 s1 c0 c1 → matches r2 s2 c1 c2 →
    matches (Re.Seq r1 r2) (s1 ++ s2) c0 c2
| M_Group n r s c0 c1 :
    matches r s c0 c1 →
    matches (Re.Group n r) s c0 (Re.set_group n s c1).

(** [m] is a match of [r]: its text is in the language of [r] and its
    groups are the ones that reading records. *)
Definition is_match (r : Re.regex) (m : Re.match_obj) : Prop :=
  matches r (Re.group0 m) Re.no_captures (Re.groups m).

(** Some prefix of [s] is in the language of [r]. *)
Definition matches_prefix (r : Re.regex) (s : text) : Prop :=
  ∃ s1 s2 caps, s = s1 ++ s2 ∧ matches r s1 Re.no_captures caps.

(** [r] matches somewhere in [s]. *)
Definition occurs (r : Re.regex) (s : text) : Prop :=
  ∃ pre s', s = pre ++ s' ∧ matches_prefix r s'.

End Matches.

(** ** The shapes the repair patterns stand for *)

Section Shapes.

Variable uni_alnum : N → bool.

Definition spaces (s : text) : Prop :=
  Forall (fun c => Py.isspace c = true) s.

Definition word_chars (s : text) : Prop :=
  Forall (fun c => Re.isword uni_alnum c = true) s.

(** No character of [s] is among [ds]. *)
Definition free_of (ds : list N) (s : text) : Prop :=
  Forall (fun c => c ∉ ds) s.

(** A truncated callback attribute: [name={() =], a line break followed by
    indentation, [hitSlop={HIT_SLOP}>], and the orphaned [region] up to the
    next closing brace. *)
Definition truncated_callback (name region t : text) : Prop :=
  ∃ w1 w2 w3,
    name ≠ [] ∧ word_chars name ∧ spaces w1 ∧ spaces w2
    ∧ spaces w3 ∧ w3 ≠ [] ∧ region ≠ [] ∧ free_of (u "}") region
    ∧ t = name ++ u "={()" ++ w1 ++ u "=" ++ w2 ++ nl ++ w3
          ++ u "hitSlop={HIT_SLOP}>" ++ region ++ u "}".

(** The attribute restored, with the marker attribute on the line below. *)
Definition restored_callback (name region : text) : text :=
  name ++ u "={() => " ++ Py.strip region ++ u "}" ++ nl
    ++ u "                hitSlop={HIT_SLOP}".

(** A truncated callback starts [s]. *)
Definition callback_at_head (s : text) : Prop :=
  ∃ name region t tail, s = t ++ tail ∧ truncated_callback name region t.

(** A truncated callback occurs in [s]. *)
Definition callback_occurs (s : text) : Prop :=
  ∃ pre s', s = pre ++ s' ∧ callback_at_head s'.

End Shapes.

(** The pattern [r] matches at no position of [s] (decided by running the
    matcher at every position). *)
Fixpoint matches_nowhere (uni_alnum : N → bool) (r : Re.regex) (s : text)
    : bool :=
  match Re.match_at uni_alnum r s with
  | Some _ => false
  | None =>
      match s with
      | [] => true
      | _ :: s' => matches_nowhere uni_alnum r s'
      end
  end.

(** ** The corrupted import the Import Repairer looks for *)

Definition quotes : list N := u "'" ++ [34].

Definition is_quote (c : N) : Prop := c ∈ quotes.

(** [import {]: the opening of a multi-line import. *)
Definition import_open (start : text) : Prop :=
  ∃ v, spaces v ∧ v ≠ [] ∧ start = u "import" ++ v ++ u "{".

(** A one-line import of HIT_SLOP from the module [path]. *)
Definition marker_import (path line : text) : Prop :=
  ∃ w1 w2 w3 w4 w5 q1 q2,
    spaces w1 ∧ w1 ≠ [] ∧ spaces w2 ∧ spaces w3 ∧ spaces w4 ∧ w4 ≠ []
    ∧ spaces w5 ∧ w5 ≠ [] ∧ is_quote q1 ∧ is_quote q2
    ∧ path ≠ [] ∧ free_of quotes path
    ∧ line = u "import" ++ w1 ++ u "{" ++ w2 ++ u "HIT_SLOP" ++ w3 ++ u "}"
             ++ w4 ++ u "from" ++ w5 ++ [q1] ++ path ++ [q2] ++ u ";".

(** The member list and the closing-from clause of a multi-line import. *)
Definition import_close (rest_of_import : text) : Prop :=
  ∃ x1 members x2 x3 q3 module q4,
    spaces x1 ∧ x1 ≠ [] ∧ members ≠ [] ∧ free_of (u "}") members
    ∧ spaces x2 ∧ x2 ≠ [] ∧ spaces x3 ∧ x3 ≠ []
    ∧ is_quote q3 ∧ is_quote q4 ∧ module ≠ [] ∧ free_of quotes module
    ∧ rest_of_import = x1 ++ members ++ nl ++ u "}" ++ x2 ++ u "from" ++ x3
                       ++ [q3] ++ module ++ [q4] ++ u ";".

(** The corrupted shape: the opening brace, then on the next line the
    HIT_SLOP import, then on the line after it the rest of the import. *)
Definition corrupted_import (start path rest_of_import t : text) : Prop :=
  ∃ w0 line w6,
    import_open start ∧ marker_import path line
    ∧ import_close rest_of_import ∧ spaces w0 ∧ spaces w6
    ∧ t = start ++ w0 ++ nl ++ line ++ w6 ++ nl ++ rest_of_import.

(** The import put together again, followed by the HIT_SLOP import as a
    statement of its own. *)
Definition repaired_import (start path rest_of_import : text) : text :=
  start ++ nl ++ rest_of_import ++ nl
    ++ u "import { HIT_SLOP } from '" ++ path ++ u "';".

Definition import_at_head (s : text) : Prop :=
  ∃ start path rest_of_import t tail,
    s = t ++ tail ∧ corrupted_import start path rest_of_import t.

Definition import_occurs (s : text) : Prop :=
  ∃ pre s', s = pre ++ s' ∧ import_at_head s'.

(** ** Running a pass more than once *)

(** The files after running [pass] once, and after running it again. *)
Definition once {A} (pass : Os.io A) (w : Os.world) : gmap (list text) text :=
  Os.files (snd (pass w)).

Definition twice {A} (pass : Os.io A) (w : Os.world) : gmap (list text) text :=
  Os.files (snd (pass (snd (pass w)))).

(** [pass] leaves [f content] in a file that held [content]. *)
Definition computes {A} (pass : Os.path → Os.io A) (f : text → text) : Prop :=
  ∀ file_path w content,
    Os.files w !! file_path = Some content →
    content_after (pass file_path) file_path w = Some (f content).

(** The number of positions of [s] at which [needle] starts. *)
Fixpoint count_occurrences (needle s : text) : nat :=
  (if Py.startswith needle s then 1 else 0)
  + match s with
    | [] => 0
    | _ :: s' => count_occurrences needle s'
    end.

(** No character of [s] occurs in [x]: an occurrence of [x] cannot
    overlap [s]. *)
Definition separators (x s : text) : Prop := Forall (fun c => c ∉ x) s.

Definition no_newline (l : text) : Prop := Forall (fun c => c ≠ 10) l.

Definition clean_line (line : text) : Prop :=
  Py.contains FixImports.marker line = false.

Definition hit_slop : text := u "HIT_SLOP".

Definition not_quote_char (c : N) : bool := negb (existsb (N.eqb c) quotes).

Definition split_import_head : text :=
  u "import {" ++ nl
  ++ u "import { HIT_SLOP } from '../constants/ui';" ++ nl
  ++ u "  View," ++ nl
  ++ u "  Text," ++ nl
  ++ u "} from 'react-native';".

(** The [.tsx] files below the source root, in the order [main] visits
    them. *)
Definition tsx_files (w : Os.world) : list Os.path :=
  Os.rglob SRC_DIR (u ".tsx") w.

(** The text transformation [f] changes the content [p] has in [w]. *)
Definition changes (f : text → text) (w : Os.world) (p : Os.path) : bool :=
  bool_decide (f <$> Os.files w !! p ≠ Os.files w !! p).

(** The status line for a file [p] below the project root. *)
Definition status_line (label : text) (p : Os.path) : text :=
  check_mark ++ label ++ Os.str_rel (drop (length (Os.parent SRC_DIR)) p).

(** The files the loop of the Injector's [main] hands to [process_file]. *)
Definition not_skipped (p : Os.path) : bool :=
  bool_decide
    (Os.str_rel (drop (length (Os.parent SRC_DIR)) p) ∉ AddHitslop.SKIP_FILES).

(** What a repair script prints for [p]: the status line if it changed
    the file. *)
Definition fixed_report (f : text → text) (w : Os.world) (p : Os.path)
    : list text :=
  if changes f w p then [status_line (u " Fixed: ") p] else [].

(** What the Injector prints for [p]: the status line if it changed the
    file, the skip line for an eligible file that holds 'HIT_SLOP'. *)
Definition modified_report uni_alnum (w : Os.world) (p : Os.path)
    : list text :=
  if changes (injector uni_alnum p) w p then [status_line (u " Modified: ") p]
  else
    match Os.files w !! p with
    | Some content =>
        if eligible content && Py.contains (u "HIT_SLOP") content
        then [skip_line (drop (length (Os.parent SRC_DIR)) p)]
        else []
    | None => []
    end.

(** The files the Injector script hands to [process_file]. *)
Definition injected_files (w : Os.world) : list Os.path :=
  filter (fun p => not_skipped p = true) (tsx_files w).

(** * Properties *)

(** ** Running a pass on one file *)

(** Unfolds the primitives of [Os.io] in the goal. *)
Ltac io_unfold :=
  unfold Os.bind, Os.read_file, Os.write_file, Os.print, Os.lift, Os.ret,
    Os.raise;
  cbn [fst snd Os.files Os.stdout].

(** ** Already patched files (C5) *)

(** C5, as stated, fails: a file that contains 'HIT_SLOP' but not
    'IconButton' is returned before the skip is reported; nothing is
    printed for it. *)
Lemma C5_skip_not_reported :
  let content := u "const HIT_SLOP = 8;" in
  let w := one_file screen_path content in
  Os.files w !! screen_path = Some content
  ∧ Py.contains (u "HIT_SLOP") content = true
  ∧ AddHitslop.process_file ascii_only screen_path w = (Some false, w)
  ∧ printed_by (AddHitslop.process_file ascii_only screen_path) w = [].
Proof. vm_compute. repeat split; reflexivity. Qed.

(** C5 (amended): for every file whose content contains 'HIT_SLOP', the
    Injector leaves the files untouched and does not return "modified";
    the skip line is printed exactly when the content also contains
    'IconButton' and 'react-native-paper'. *)
Theorem C5_already_patched uni_alnum (file_path : Os.path) (w : Os.world)
    (content : text) (rel : list text) :
  Os.files w !! file_path = Some content →
  Py.contains (u "HIT_SLOP") content = true →
  Os.relative_to file_path (Os.parent SRC_DIR) = Some rel →
  let r := AddHitslop.process_file uni_alnum file_path w in
  fst r = Some false
  ∧ Os.files (snd r) = Os.files w
  ∧ content_after (AddHitslop.process_file uni_alnum file_path) file_path w
    = Some content
  ∧ printed_by (AddHitslop.process_file uni_alnum file_path) w
    = if eligible content then [skip_line rel] else [].
Proof.
  intros Hread Hmark Hrel.
  unfold content_after, printed_by, AddHitslop.process_file, eligible.
  io_unfold. rewrite Hread, Hmark, Hrel.
  destruct (Py.contains (u "IconButton") content);
    destruct (Py.contains (u "react-native-paper") content);
    cbn [negb orb andb fst snd Os.files Os.stdout];
    rewrite ?drop_app_length, ?drop_all; auto.
Qed.

Lemma C5_already_patched_witness :
  let content :=
    u "import { IconButton } from 'react-native-paper'; HIT_SLOP" in
  let w := one_file screen_path content in
  printed_by (AddHitslop.process_file ascii_only screen_path) w
  = [u "SKIP (has HIT_SLOP): src/screens/Home.tsx"].
Proof.
  intros content w.
  pose proof (C5_already_patched ascii_only screen_path w content
                [u "src"; u "screens"; u "Home.tsx"]) as H.
  destruct H as (_ & _ & _ & H); [reflexivity | reflexivity | reflexivity |].
  exact H.
Defined.

(** ** The text each pass computes *)

Lemma negb_eligible content :
  negb (Py.contains (u "IconButton") content)
  || negb (Py.contains (u "react-native-paper") content)
  = negb (eligible content).
Proof. unfold eligible. now rewrite negb_andb. Qed.

Lemma bool_decide_ne_refl (t : text) : bool_decide (t ≠ t) = false.
Proof. apply bool_decide_eq_false. intros H. now apply H. Qed.

(** The Injector leaves [injector file_path content] in the file. *)
Lemma process_file_content uni_alnum file_path w content :
  Os.files w !! file_path = Some content →
  content_after (AddHitslop.process_file uni_alnum file_path) file_path w
  = Some (injector uni_alnum file_path content).
Proof.
  intros Hread.
  unfold content_after, AddHitslop.process_file, injector, rewrite_tags,
    with_import, last_import.
  io_unfold. rewrite Hread, negb_eligible.
  destruct (negb (eligible content)); cbn [orb fst snd]; [exact Hread|].
  destruct (Py.contains (u "HIT_SLOP") content).
  { destruct (Os.relative_to _ _); cbn [fst snd Os.files]; exact Hread. }
  destruct (Py.last_index_from _ _ _ _) as [idx|].
  - set (c1 := Py.join _ _).
    set (c2 := Re.sub _ _ _ c1).
    assert (Hw : (if bool_decide (c2 ≠ c1) then (c2, true) else (c1, true))
                 = (c2, true)).
    { destruct (decide (c2 = c1)) as [->|Hne].
      - now rewrite bool_decide_ne_refl.
      - now rewrite bool_decide_eq_true_2. }
    rewrite Hw.
    destruct (Os.relative_to _ _); cbn [fst snd Os.files];
      apply lookup_insert_eq.
  - set (c2 := Re.sub _ _ _ content).
    destruct (decide (c2 = content)) as [Heq|Hne].
    + rewrite Heq, bool_decide_ne_refl. cbn [fst snd]. exact Hread.
    + rewrite bool_decide_eq_true_2 by exact Hne.
      destruct (Os.relative_to _ _); cbn [fst snd Os.files];
        apply lookup_insert_eq.
Qed.

Lemma process_file_frame uni_alnum file_path :
  only_touches (AddHitslop.process_file uni_alnum file_path) file_path.
Proof.
  intros w q Hq. unfold AddHitslop.process_file. io_unfold.
  destruct (Os.files w !! file_path) as [content|]; [|reflexivity].
  destruct (_ || _); [reflexivity|].
  destruct (Py.contains _ _).
  { destruct (Os.relative_to _ _); reflexivity. }
  destruct (Py.last_index_from _ _ _ _);
    destruct (bool_decide _); cbn [fst snd];
    try destruct (Os.relative_to _ _); cbn [fst snd Os.files];
    try reflexivity; now apply lookup_insert_ne.
Qed.

Lemma write_if_changed_content (file_path : Os.path) (w : Os.world)
    (content new_content : text) (k : Os.io bool) :
  Os.files w !! file_path = Some content →
  (∀ w', Os.files (snd (k w')) = Os.files w') →
  Os.files
    (snd ((if bool_decide (new_content ≠ content)
           then Os.write_file file_path new_content ;;; k
           else Os.ret false) w)) !! file_path
  = Some new_content.
Proof.
  intros Hread Hk. io_unfold.
  destruct (decide (new_content = content)) as [->|Hne].
  - now rewrite bool_decide_ne_refl.
  - rewrite bool_decide_eq_true_2 by exact Hne.
    rewrite Hk. cbn [Os.files]. apply lookup_insert_eq.
Qed.

Lemma write_if_changed_frame (file_path q : Os.path) (w : Os.world)
    (content new_content : text) (k : Os.io bool) :
  q ≠ file_path →
  (∀ w', Os.files (snd (k w')) = Os.files w') →
  Os.files
    (snd ((if bool_decide (new_content ≠ content)
           then Os.write_file file_path new_content ;;; k
           else Os.ret false) w)) !! q
  = Os.files w !! q.
Proof.
  intros Hq Hk. io_unfold.
  destruct (bool_decide _); cbn [snd]; [|reflexivity].
  rewrite Hk. cbn [Os.files]. now apply lookup_insert_ne.
Qed.

Lemma report_keeps_files (file_path : Os.path) (label : text) (w : Os.world) :
  Os.files
    (snd ((let* rel := Os.lift (Os.relative_to file_path (Os.parent SRC_DIR)) in
           Os.print (check_mark ++ label ++ Os.str_rel rel) ;;; Os.ret true) w))
  = Os.files w.
Proof. io_unfold. destruct (Os.relative_to _ _); reflexivity. Qed.

Lemma import_fix_file_content uni_alnum file_path w content :
  Os.files w !! file_path = Some content →
  content_after (FixAllImports.fix_file uni_alnum file_path) file_path w
  = Some (import_repairer uni_alnum content).
Proof.
  intros Hread. unfold content_after, FixAllImports.fix_file, import_repairer.
  unfold Os.bind at 1, Os.read_file. rewrite Hread.
  apply write_if_changed_content; [exact Hread|].
  intros w'. apply report_keeps_files.
Qed.

Lemma import_fix_file_frame uni_alnum file_path :
  only_touches (FixAllImports.fix_file uni_alnum file_path) file_path.
Proof.
  intros w q Hq. unfold FixAllImports.fix_file.
  unfold Os.bind at 1, Os.read_file.
  destruct (Os.files w !! file_path) as [content|]; [|reflexivity].
  apply write_if_changed_frame; [exact Hq|].
  intros w'. apply report_keeps_files.
Qed.

Lemma callback_fix_file_content uni_alnum file_path w content :
  Os.files w !! file_path = Some content →
  content_after (FixArrowFunctions.fix_file uni_alnum file_path) file_path w
  = Some (callback_repairer uni_alnum content).
Proof.
  intros Hread.
  unfold content_after, FixArrowFunctions.fix_file, callback_repairer.
  unfold Os.bind at 1, Os.read_file. rewrite Hread.
  apply write_if_changed_content; [exact Hread|].
  intros w'. apply report_keeps_files.
Qed.

Lemma callback_fix_file_frame uni_alnum file_path :
  only_touches (FixArrowFunctions.fix_file uni_alnum file_path) file_path.
Proof.
  intros w q Hq. unfold FixArrowFunctions.fix_file.
  unfold Os.bind at 1, Os.read_file.
  destruct (Os.files w !! file_path) as [content|]; [|reflexivity].
  apply write_if_changed_frame; [exact Hq|].
  intros w'. apply report_keeps_files.
Qed.

Lemma declaration_fix_file_content file_path w content :
  Os.files w !! file_path = Some content →
  content_after (FixImports.fix_file file_path) file_path w
  = Some (declaration_repairer content).
Proof.
  intros Hread.
  unfold content_after, FixImports.fix_file, declaration_repairer.
  unfold Os.bind at 1, Os.read_file. rewrite Hread.
  destruct (negb (Py.contains FixImports.marker content)); [exact Hread|].
  apply write_if_changed_content; [exact Hread|].
  intros w'. apply report_keeps_files.
Qed.

Lemma declaration_fix_file_frame file_path :
  only_touches (FixImports.fix_file file_path) file_path.
Proof.
  intros w q Hq. unfold FixImports.fix_file.
  unfold Os.bind at 1, Os.read_file.
  destruct (Os.files w !! file_path) as [content|]; [|reflexivity].
  destruct (negb _); [reflexivity|].
  apply write_if_changed_frame; [exact Hq|].
  intros w'. apply report_keeps_files.
Qed.

(** ** Dependence on the path (C4) *)

(** C4, as stated, fails for the Injector: the same text in two
    directories of different depth receives two different import lines. *)
Lemma C4_injector_depends_on_directory :
  let w := Os.World {[ screen_path := paper_screen;
                       nested_path := paper_screen ]} [] in
  Os.files w !! screen_path = Os.files w !! nested_path
  ∧ content_after (AddHitslop.process_file ascii_only screen_path) screen_path w
    ≠ content_after (AddHitslop.process_file ascii_only nested_path) nested_path w.
Proof. vm_compute. split; [reflexivity | discriminate]. Qed.

Lemma injector_same_directory uni_alnum p1 p2 content :
  Os.parent p1 = Os.parent p2 →
  injector uni_alnum p1 content = injector uni_alnum p2 content.
Proof.
  intros Hdir.
  unfold injector, with_import, import_statement, AddHitslop.get_relative_import.
  now rewrite Hdir.
Qed.

(** C4 (amended): the content a repair pass leaves in a file is
    determined by the content it read, whatever the path and the other
    files; the content the Injector leaves is determined by the content it
    read and the directory of the file. *)
Theorem C4_output_determined_by_content uni_alnum (p1 p2 : Os.path)
    (w1 w2 : Os.world) (content : text) :
  Os.files w1 !! p1 = Some content →
  Os.files w2 !! p2 = Some content →
  content_after (FixAllImports.fix_file uni_alnum p1) p1 w1
  = content_after (FixAllImports.fix_file uni_alnum p2) p2 w2
  ∧ content_after (FixImports.fix_file p1) p1 w1
    = content_after (FixImports.fix_file p2) p2 w2
  ∧ content_after (FixArrowFunctions.fix_file uni_alnum p1) p1 w1
    = content_after (FixArrowFunctions.fix_file uni_alnum p2) p2 w2
  ∧ (Os.parent p1 = Os.parent p2 →
     content_after (AddHitslop.process_file uni_alnum p1) p1 w1
     = content_after (AddHitslop.process_file uni_alnum p2) p2 w2).
Proof.
  intros H1 H2. repeat split.
  - now rewrite !(import_fix_file_content _ _ _ content).
  - now rewrite !(declaration_fix_file_content _ _ content).
  - now rewrite !(callback_fix_file_content _ _ _ content).
  - intros Hdir. rewrite !(process_file_content _ _ _ content) by assumption.
    f_equal. now apply injector_same_directory.
Qed.

Lemma C4_output_determined_by_content_witness :
  let p1 := SRC_DIR ++ [u "screens"; u "A.tsx"] in
  let p2 := SRC_DIR ++ [u "screens"; u "B.tsx"] in
  let w1 := one_file p1 paper_screen in
  let w2 := Os.World {[ p2 := paper_screen; p1 := u "other" ]} [u "log"] in
  content_after (AddHitslop.process_file ascii_only p1) p1 w1
  = content_after (AddHitslop.process_file ascii_only p2) p2 w2.
Proof.
  intros p1 p2 w1 w2.
  refine (proj2 (proj2 (proj2
    (C4_output_determined_by_content ascii_only p1 p2 w1 w2 paper_screen
       _ _))) _); reflexivity.
Defined.

(** ** The skip list (C8) *)

Lemma main_loop_skips uni_alnum (p : Os.path) (rel : list text)
    (tsx_files : list Os.path) :
  Os.relative_to p (Os.parent SRC_DIR) = Some rel →
  Os.str_rel rel ∈ AddHitslop.SKIP_FILES →
  ∀ processed modified w,
    Os.files (snd (AddHitslop.main_loop uni_alnum tsx_files processed modified w))
      !! p = Os.files w !! p.
Proof.
  intros Hrel Hskip.
  induction tsx_files as [|q tsx_files IH]; intros processed modified w;
    cbn [AddHitslop.main_loop]; [reflexivity|].
  unfold Os.bind at 1.
  destruct (Os.relative_to q (Os.parent SRC_DIR)) as [rel'|] eqn:Hq;
    cbn [Os.lift]; [unfold Os.ret at 1 | reflexivity].
  destruct (decide (Os.str_rel rel' ∈ AddHitslop.SKIP_FILES)) as [Hin|Hout].
  - rewrite bool_decide_eq_true_2 by exact Hin. apply IH.
  - rewrite bool_decide_eq_false_2 by exact Hout.
    assert (Hne : p ≠ q).
    { intros ->. rewrite Hq in Hrel. now inversion Hrel; subst. }
    unfold Os.bind at 1.
    pose proof (process_file_frame uni_alnum q w p Hne) as Hframe.
    destruct (AddHitslop.process_file uni_alnum q w) as [[b|] w'];
      cbn [snd] in Hframe; [|exact Hframe].
    now rewrite IH.
Qed.

(** C8: a file whose path relative to the project is in the skip list has
    the same content after a run of the Injector's [main] as before it,
    whatever that content is. *)
Theorem C8_skip_list_untouched uni_alnum (p : Os.path) (rel : list text)
    (w : Os.world) :
  Os.relative_to p (Os.parent SRC_DIR) = Some rel →
  Os.str_rel rel ∈ AddHitslop.SKIP_FILES →
  Os.files (snd (AddHitslop.main uni_alnum w)) !! p = Os.files w !! p.
Proof.
  intros Hrel Hskip. unfold AddHitslop.main.
  unfold Os.bind at 1. unfold Os.print at 1.
  unfold Os.bind at 1. unfold Os.bind at 1.
  set (w0 := Os.World _ _).
  pose proof (main_loop_skips uni_alnum p rel (Os.rglob SRC_DIR (u ".tsx") w0)
                Hrel Hskip 0%nat 0%nat w0) as Hloop.
  destruct (AddHitslop.main_loop _ _ _ _ _) as [[[processed modified]|] w'];
    cbn [snd] in Hloop |- *; [|exact Hloop].
  io_unfold. exact Hloop.
Qed.

Lemma C8_skip_list_untouched_witness :
  let w := Os.World {[ project_card := paper_screen;
                       screen_path := paper_screen ]} [] in
  eligible paper_screen = true
  ∧ Py.contains (u "HIT_SLOP") paper_screen = false
  ∧ Os.files (snd (AddHitslop.main ascii_only w)) !! project_card
    = Some paper_screen.
Proof.
  intros w. split; [reflexivity|]. split; [reflexivity|].
  rewrite (C8_skip_list_untouched ascii_only project_card
             [u "src"; u "components"; u "ProjectCard.tsx"] w).
  - reflexivity.
  - reflexivity.
  - vm_compute. apply list_elem_of_here.
Defined.

(** ** The matcher against the declarative reading of patterns *)

Section MatcherTheory.

Variable uni_alnum : N → bool.
Context {R : Type}.

Lemma lit_spec (t s s' : text) : Re.lit t s = Some s' ↔ s = t ++ s'.
Proof.
  revert s. induction t as [|a t IH]; intros s; cbn.
  - split; [now intros [= ->] | now intros ->].
  - destruct s as [|b s]; [split; discriminate|].
    destruct (N.eqb_spec a b) as [->|Hne].
    + rewrite IH. split; [now intros -> | now intros [= ->]].
    + split; [discriminate | intros [= -> _]; contradiction].
Qed.

Lemma lit_app (t s : text) : Re.lit t (t ++ s) = Some s.
Proof. now apply lit_spec. Qed.

Lemma star_greedy_sound (p : N → bool) (s : text) (k : text → option R) a :
  Re.star_greedy p s k = Some a →
  ∃ s1 s2, s = s1 ++ s2 ∧ Forall (fun c => p c = true) s1 ∧ k s2 = Some a.
Proof.
  induction s as [|c s IH]; cbn.
  - intros H. now exists [], [].
  - destruct (p c) eqn:Hc.
    + destruct (Re.star_greedy p s k) as [r|] eqn:Hrec.
      * intros [= ->]. destruct (IH eq_refl) as (s1 & s2 & -> & Hall & Hk).
        exists (c :: s1), s2. repeat split; [|exact Hk]. now constructor.
      * intros H. now exists [], (c :: s).
    + intros H. now exists [], (c :: s).
Qed.

Lemma star_greedy_here (p : N → bool) (s : text) (k : text → option R) :
  is_Some (k s) → is_Some (Re.star_greedy p s k).
Proof.
  intros Hk. destruct s as [|c s]; cbn; [exact Hk|].
  destruct (p c); [|exact Hk].
  destruct (Re.star_greedy p s k); [eauto | exact Hk].
Qed.

Lemma star_greedy_complete (p : N → bool) (s1 s2 : text) (k : text → option R) :
  Forall (fun c => p c = true) s1 → is_Some (k s2) →
  is_Some (Re.star_greedy p (s1 ++ s2) k).
Proof.
  intros Hall Hk. induction Hall as [|c s1 Hc _ IH]; cbn.
  - now apply star_greedy_here.
  - rewrite Hc. destruct IH as [a ->]. eauto.
Qed.

Lemma star_lazy_sound (p : N → bool) (s : text) (k : text → option R) a :
  Re.star_lazy p s k = Some a →
  ∃ s1 s2, s = s1 ++ s2 ∧ Forall (fun c => p c = true) s1 ∧ k s2 = Some a.
Proof.
  induction s as [|c s IH]; cbn.
  - destruct (k []) eqn:Hk; [|discriminate].
    intros [= ->]. now exists [], [].
  - destruct (k (c :: s)) eqn:Hk.
    + intros [= ->]. now exists [], (c :: s).
    + destruct (p c) eqn:Hc; [|discriminate].
      intros H. destruct (IH H) as (s1 & s2 & -> & Hall & Hk2).
      exists (c :: s1), s2. repeat split; [|exact Hk2]. now constructor.
Qed.

Lemma star_lazy_complete (p : N → bool) (s1 s2 : text) (k : text → option R) :
  Forall (fun c => p c = true) s1 → is_Some (k s2) →
  is_Some (Re.star_lazy p (s1 ++ s2) k).
Proof.
  intros Hall Hk. induction Hall as [|c s1 Hc _ IH]; cbn.
  - destruct s2; cbn; destruct Hk as [a ->]; eauto.
  - destruct (k (c :: s1 ++ s2)); [eauto|]. now rewrite Hc.
Qed.

Lemma take_app_suffix (s1 s2 : text) :
  take (length (s1 ++ s2) - length s2) (s1 ++ s2) = s1.
Proof.
  rewrite length_app, Nat.add_sub. apply take_app_length.
Qed.

Theorem exec_sound (r : Re.regex) :
  ∀ (s : text) caps (k : text → Re.captures → option R) a,
    Re.exec uni_alnum r s caps k = Some a →
    ∃ s1 s2 caps',
      s = s1 ++ s2 ∧ matches uni_alnum r s1 caps caps' ∧ k s2 caps' = Some a.
Proof.
  induction r as [cl|cl|cl|cl|cl|t|r1 IH1 r2 IH2|n r IH];
    intros s caps k a; cbn [Re.exec].
  - destruct s as [|c s]; [discriminate|].
    destruct (Re.in_class uni_alnum cl c) eqn:Hc; [|discriminate].
    intros Hk. exists [c], s, caps. repeat split; [|exact Hk]. now constructor.
  - intros H. apply star_greedy_sound in H as (s1 & s2 & -> & Hall & Hk).
    exists s1, s2, caps. repeat split; [|exact Hk]. now constructor.
  - destruct s as [|c s]; [discriminate|].
    destruct (Re.in_class uni_alnum cl c) eqn:Hc; [|discriminate].
    intros H. apply star_greedy_sound in H as (s1 & s2 & -> & Hall & Hk).
    exists (c :: s1), s2, caps. repeat split; [|exact Hk].
    constructor; [discriminate | now constructor].
  - intros H. apply star_lazy_sound in H as (s1 & s2 & -> & Hall & Hk).
    exists s1, s2, caps. repeat split; [|exact Hk]. now constructor.
  - destruct s as [|c s].
    { intros Hk. exists [], [], caps. repeat split; [|exact Hk]. constructor. }
    destruct (Re.in_class uni_alnum cl c) eqn:Hc.
    + destruct (k s caps) eqn:Hk.
      * intros [= ->]. exists [c], s, caps.
        repeat split; [|exact Hk]. now constructor.
      * intros Hk'. exists [], (c :: s), caps.
        repeat split; [|exact Hk']. constructor.
    + intros Hk. exists [], (c :: s), caps.
      repeat split; [|exact Hk]. constructor.
  - destruct (Re.lit t s) as [s'|] eqn:Hl; [|discriminate].
    apply lit_spec in Hl as ->. intros Hk.
    exists t, s', caps. repeat split; [|exact Hk]. constructor.
  - intros H. apply IH1 in H as (s1 & s' & c1 & -> & Hm1 & H).
    apply IH2 in H as (s2 & s3 & c2 & -> & Hm2 & Hk).
    exists (s1 ++ s2), s3, c2. rewrite <- app_assoc.
    repeat split; [|exact Hk]. eapply M_Seq; eassumption.
  - intros H. apply IH in H as (s1 & s2 & c1 & -> & Hm & Hk).
    rewrite take_app_suffix in Hk.
    exists s1, s2, (Re.set_group n s1 c1).
    repeat split; [|exact Hk]. now constructor.
Qed.

Theorem exec_complete (r : Re.regex) :
  ∀ (s1 s2 : text) caps caps' (k : text → Re.captures → option R),
    matches uni_alnum r s1 caps caps' →
    is_Some (k s2 caps') →
    is_Some (Re.exec uni_alnum r (s1 ++ s2) caps k).
Proof.
  induction r as [cl|cl|cl|cl|cl|t|r1 IH1 r2 IH2|n r IH];
    intros s1 s2 caps caps' k Hm Hk; inversion Hm; subst; cbn [Re.exec].
  - cbn. now rewrite H0.
  - now apply star_greedy_complete.
  - destruct s1 as [|c s1]; [contradiction|].
    inversion H1; subst. cbn. rewrite H3.
    now apply star_greedy_complete.
  - now apply star_lazy_complete.
  - cbn. rewrite H0. destruct (k s2 caps'); [eauto | destruct Hk; discriminate].
  - cbn. destruct s2 as [|c s2]; [exact Hk|].
    destruct (Re.in_class uni_alnum cl c); [|exact Hk].
    destruct (k s2 caps'); [eauto | exact Hk].
  - now rewrite lit_app.
  - rewrite <- app_assoc. eapply IH1; [eassumption|].
    eapply IH2; eassumption.
  - eapply IH; [eassumption|]. now rewrite take_app_suffix.
Qed.

End MatcherTheory.

(** ** [re.sub] step by step *)

Section SubTheory.

Variable uni_alnum : N → bool.
Variable r : Re.regex.
Variable repl : Re.match_obj → text.

Lemma match_at_sound (s : text) (m : Re.match_obj) :
  Re.match_at uni_alnum r s = Some m →
  s = Re.group0 m ++ Re.rest m ∧ is_match uni_alnum r m.
Proof.
  unfold Re.match_at. intros H.
  apply exec_sound in H as (s1 & s2 & caps & -> & Hm & [= <-]).
  cbn. rewrite take_app_suffix. now split.
Qed.

Lemma match_at_complete (s1 s2 : text) caps :
  matches uni_alnum r s1 Re.no_captures caps →
  is_Some (Re.match_at uni_alnum r (s1 ++ s2)).
Proof.
  intros Hm. unfold Re.match_at.
  eapply exec_complete; [exact Hm | eauto].
Qed.

Lemma match_at_none (s : text) :
  Re.match_at uni_alnum r s = None ↔ ¬ matches_prefix uni_alnum r s.
Proof.
  split.
  - intros Hnone (s1 & s2 & caps & -> & Hm).
    destruct (match_at_complete s1 s2 caps Hm) as [m Hsome]. congruence.
  - intros Hno. destruct (Re.match_at uni_alnum r s) as [m|] eqn:Hm; [|reflexivity].
    exfalso. apply Hno. apply match_at_sound in Hm as [Hs Hm].
    now exists (Re.group0 m), (Re.rest m), (Re.groups m).
Qed.

Lemma sub_from_drop (n : nat) (s : text) :
  (n ≤ length s)%nat →
  Re.sub_from uni_alnum n r repl s = Re.sub uni_alnum r repl (drop n s).
Proof.
  revert n. induction s as [|c s IH]; intros n Hn.
  - cbn in Hn. now replace n with 0%nat by lia.
  - destruct n as [|n]; [reflexivity|].
    cbn [Re.sub_from drop]. apply IH. cbn in Hn. lia.
Qed.

Lemma sub_nil :
  Re.match_at uni_alnum r [] = None → Re.sub uni_alnum r repl [] = [].
Proof. unfold Re.sub. cbn. now intros ->. Qed.

Lemma sub_cons_none (c : N) (s : text) :
  Re.match_at uni_alnum r (c :: s) = None →
  Re.sub uni_alnum r repl (c :: s) = c :: Re.sub uni_alnum r repl s.
Proof. unfold Re.sub. cbn [Re.sub_from]. now intros ->. Qed.

Lemma sub_match (s : text) (m : Re.match_obj) :
  Re.match_at uni_alnum r s = Some m →
  Re.group0 m ≠ [] →
  Re.sub uni_alnum r repl s = repl m ++ Re.sub uni_alnum r repl (Re.rest m).
Proof.
  intros Hm Hne. pose proof (match_at_sound s m Hm) as [Hs _].
  destruct s as [|c s].
  { symmetry in Hs. apply app_eq_nil in Hs as [? _]. contradiction. }
  unfold Re.sub at 1. cbn [Re.sub_from]. rewrite Hm.
  destruct (Re.group0 m) as [|c' g] eqn:Hg; [contradiction|].
  cbn [length]. cbn in Hs. injection Hs as -> ->.
  rewrite sub_from_drop by (rewrite length_app; lia).
  now rewrite drop_app_length.
Qed.

(** Where the pattern occurs nowhere, [re.sub] returns its argument. *)
Lemma sub_no_occurrence (s : text) :
  ¬ occurs uni_alnum r s → Re.sub uni_alnum r repl s = s.
Proof.
  induction s as [|c s IH]; intros Hno.
  - apply sub_nil. apply match_at_none. intros Hp. apply Hno.
    now exists [], [].
  - rewrite sub_cons_none.
    + f_equal. apply IH. intros (pre & s' & -> & Hp). apply Hno.
      now exists (c :: pre), s'.
    + apply match_at_none. intros Hp. apply Hno. now exists [], (c :: s).
Qed.

End SubTheory.

(** ** Facts on the string methods *)

Lemma startswith_spec (p s : text) :
  Py.startswith p s = true ↔ ∃ b, s = p ++ b.
Proof.
  revert s. induction p as [|a p IH]; intros s; cbn.
  - split; [intros _; now exists s | reflexivity].
  - destruct s as [|b s]; [split; [discriminate | intros [? [=]]]|].
    rewrite andb_true_iff, IH, N.eqb_eq. split.
    + intros [-> [t ->]]. now exists t.
    + intros [t [= -> ->]]. split; [reflexivity | now exists t].
Qed.

Lemma contains_spec (x s : text) :
  Py.contains x s = true ↔ ∃ a b, s = a ++ x ++ b.
Proof.
  induction s as [|c s IH]; cbn [Py.contains]; rewrite orb_true_iff.
  - rewrite startswith_spec. split.
    + intros [[b Hb]|[=]]. now exists [], b.
    + intros (a & b & Hs). left. destruct a as [|? a]; [now exists b|].
      discriminate.
  - rewrite startswith_spec, IH. split.
    + intros [[b Hb]|(a & b & ->)]; [now exists [], b | now exists (c :: a), b].
    + intros (a & b & Hs). destruct a as [|c' a].
      * left. now exists b.
      * right. injection Hs as -> ->. now exists a, b.
Qed.

Lemma contains_app_l (x a b : text) :
  Py.contains x a = true → Py.contains x (a ++ b) = true.
Proof.
  rewrite !contains_spec. intros (a1 & a2 & ->).
  exists a1, (a2 ++ b). now rewrite <- !app_assoc.
Qed.

Lemma contains_app_r (x a b : text) :
  Py.contains x b = true → Py.contains x (a ++ b) = true.
Proof.
  rewrite !contains_spec. intros (b1 & b2 & ->).
  exists (a ++ b1), b2. now rewrite <- !app_assoc.
Qed.

(** ** The tag pattern of the Injector *)

(** Inverts a hypothesis [matches _ r _ _ _] along the structure of [r]. *)
Ltac invert_matches :=
  repeat match goal with
  | H : matches _ (Re.Seq _ _) _ _ _ |- _ => inversion H; subst; clear H
  | H : matches _ (Re.Group _ _) _ _ _ |- _ => inversion H; subst; clear H
  | H : matches _ (Re.Lit _) _ _ _ |- _ => inversion H; subst; clear H
  | H : matches _ (Re.Atom _) _ _ _ |- _ => inversion H; subst; clear H
  | H : matches _ (Re.Star _) _ _ _ |- _ => inversion H; subst; clear H
  | H : matches _ (Re.Plus _) _ _ _ |- _ => inversion H; subst; clear H
  | H : matches _ (Re.LazyStar _) _ _ _ |- _ => inversion H; subst; clear H
  end.

Lemma all_in_none_of uni_alnum (d : N) (s : text) :
  all_in uni_alnum (Re.NoneOf [d]) s ↔ Forall (fun c => c ≠ d) s.
Proof.
  unfold all_in. apply Forall_iff. intros c. cbn.
  rewrite orb_false_r, negb_true_iff. apply N.eqb_neq.
Qed.

(** A match of the tag pattern is the text '<IconButton', a run of
    characters other than '>', and '>' or '/>'. *)
Lemma tag_match_inv uni_alnum (m : Re.match_obj) :
  is_match uni_alnum AddHitslop.pattern m →
  ∃ attrs closing,
    Re.group0 m = u "<IconButton" ++ attrs ++ closing
    ∧ no_gt attrs
    ∧ (closing = u ">" ∨ closing = u "/>")
    ∧ Re.group m 1 = u "<IconButton" ++ attrs
    ∧ Re.group m 2 = closing.
Proof.
  unfold is_match, AddHitslop.pattern. cbn [Re.seq]. intros H.
  destruct m as [g0 caps rest]. cbn [Re.group0 Re.groups] in H.
  invert_matches.
  match goal with H : all_in _ _ ?s |- _ =>
    apply (all_in_none_of uni_alnum 62) in H; rename s into attrs end.
  match goal with H : matches _ (Re.Opt _) ?s _ _ |- _ =>
    inversion H; subst; clear H end.
  - exists attrs, (u "/>").
    match goal with H : Re.in_class _ (Re.Char 47) _ = true |- _ =>
      cbn in H; apply N.eqb_eq in H; subst end.
    match goal with H : Re.in_class _ (Re.Char 62) _ = true |- _ =>
      cbn in H; apply N.eqb_eq in H; subst end.
    cbn [Re.group0 Re.group Re.groups]. rewrite <- app_assoc.
    repeat split; auto.
  - exists attrs, (u ">").
    match goal with H : Re.in_class _ (Re.Char 62) _ = true |- _ =>
      cbn in H; apply N.eqb_eq in H; subst end.
    cbn [Re.group0 Re.group Re.groups]. rewrite <- app_assoc.
    repeat split; auto.
Qed.

Lemma tag_match_nonempty uni_alnum (m : Re.match_obj) :
  is_match uni_alnum AddHitslop.pattern m → Re.group0 m ≠ [].
Proof.
  intros H. apply tag_match_inv in H as (attrs & closing & -> & _).
  discriminate.
Qed.

Lemma add_hitslop_cases (m : Re.match_obj) :
  AddHitslop.add_hitslop m = Re.group0 m
  ∨ Py.contains (u "HIT_SLOP") (AddHitslop.add_hitslop m) = true.
Proof.
  unfold AddHitslop.add_hitslop.
  destruct (Py.contains (u "hitSlop") (Re.group m 1)); [now left|right].
  apply contains_app_r, contains_app_r, contains_app_l. reflexivity.
Qed.

(** The tag rewriting either changes nothing or leaves 'HIT_SLOP' in its
    result. *)
Lemma rewrite_tags_cases uni_alnum (s : text) :
  rewrite_tags uni_alnum s = s
  ∨ Py.contains (u "HIT_SLOP") (rewrite_tags uni_alnum s) = true.
Proof.
  unfold rewrite_tags.
  remember (length s) as n eqn:Hn. revert s Hn.
  induction n as [n IH] using lt_wf_ind; intros s ->.
  destruct (Re.match_at uni_alnum AddHitslop.pattern s) as [m|] eqn:Hm.
  - pose proof (match_at_sound _ _ _ _ Hm) as [Hs Him].
    pose proof (tag_match_nonempty _ _ Him) as Hne.
    rewrite (sub_match _ _ _ _ _ Hm Hne).
    assert (Hlen : (length (Re.rest m) < length s)%nat).
    { rewrite Hs, length_app.
      destruct (Re.group0 m); [contradiction | cbn; lia]. }
    destruct (IH _ Hlen (Re.rest m) eq_refl) as [Hrest|Hrest];
      [|right; now apply contains_app_r].
    rewrite Hrest.
    destruct (add_hitslop_cases m) as [Hrepl|Hrepl];
      [left; now rewrite Hrepl | right; now apply contains_app_l].
  - destruct s as [|c s]; [left; now apply sub_nil|].
    rewrite sub_cons_none by exact Hm.
    destruct (IH (length s) (Nat.lt_succ_diag_r _) s eq_refl) as [->|Hc];
      [now left | right].
    now apply (contains_app_r _ [c]).
Qed.

Lemma contains_join (x sep e : text) (ls : list text) :
  e ∈ ls → Py.contains x e = true → Py.contains x (Py.join sep ls) = true.
Proof.
  intros Hin Hx. induction ls as [|l ls IH]; [now apply elem_of_nil in Hin|].
  apply elem_of_cons in Hin as [->|Hin].
  - destruct ls; cbn; [exact Hx | now apply contains_app_l].
  - destruct ls as [|l' ls]; [now apply elem_of_nil in Hin|].
    cbn [Py.join]. apply contains_app_r, contains_app_r. now apply IH.
Qed.

Lemma with_import_marked file_path content idx :
  last_import content = Some idx →
  Py.contains (u "HIT_SLOP") (with_import file_path content) = true.
Proof.
  intros Hidx. unfold with_import. rewrite Hidx.
  apply (contains_join _ _ (import_statement file_path)).
  - unfold Py.list_insert. apply elem_of_app. right. apply elem_of_cons. now left.
  - unfold import_statement. now apply contains_app_l.
Qed.

(** The content the Injector produces is left as it is by the Injector. *)
Lemma injector_idempotent uni_alnum file_path content :
  injector uni_alnum file_path (injector uni_alnum file_path content)
  = injector uni_alnum file_path content.
Proof.
  destruct (negb (eligible content) || Py.contains (u "HIT_SLOP") content)
    eqn:Hskip.
  { unfold injector. now rewrite Hskip, Hskip. }
  assert (Hinj : injector uni_alnum file_path content
                 = rewrite_tags uni_alnum (with_import file_path content)).
  { unfold injector. now rewrite Hskip. }
  assert (Hfix : ∀ t, Py.contains (u "HIT_SLOP") t = true →
                      injector uni_alnum file_path t = t).
  { intros t Ht. unfold injector. rewrite Ht. now rewrite orb_true_r. }
  rewrite Hinj.
  destruct (last_import content) as [idx|] eqn:Hidx.
  - apply Hfix.
    destruct (rewrite_tags_cases uni_alnum (with_import file_path content))
      as [->|H]; [|exact H].
    now apply (with_import_marked _ _ idx).
  - unfold with_import. rewrite Hidx.
    destruct (rewrite_tags_cases uni_alnum content) as [Heq|H];
      [|now apply Hfix].
    rewrite Heq, Hinj. unfold with_import. now rewrite Hidx.
Qed.

(** ** The anchor of the inserted import (C3, C10) *)

Lemma last_index_none (l : list text) (i : nat) (idx : option nat) :
  Forall (fun line => import_line line = false) l →
  Py.last_index_from AddHitslop.is_import_line i l idx = idx.
Proof.
  intros Hall. revert i idx.
  induction Hall as [|x l Hx _ IH]; intros i idx;
    cbn [Py.last_index_from]; [reflexivity|].
  change (AddHitslop.is_import_line i x) with (import_line x).
  now rewrite Hx, IH.
Qed.

(** The index the first loop of the Injector ends with is that of the last
    line that starts with 'import ' (after stripping). *)
Lemma last_index_some (l : list text) :
  ∀ i idx,
    Exists (fun line => import_line line = true) l →
    ∃ k line,
      Py.last_index_from AddHitslop.is_import_line i l idx = Some (i + k)%nat
      ∧ l !! k = Some line ∧ import_line line = true
      ∧ ∀ j later, (k < j)%nat → l !! j = Some later →
                   import_line later = false.
Proof.
  induction l as [|x l IH]; intros i idx Hex; [now apply Exists_nil in Hex|].
  cbn [Py.last_index_from].
  change (AddHitslop.is_import_line i x) with (import_line x).
  destruct (decide (Exists (fun line => import_line line = true) l)) as [Hl|Hl].
  - destruct (IH (S i) (if import_line x then Some i else idx) Hl)
      as (k & line & Hidx & Hk & Himp & Hlast).
    exists (S k), line. rewrite Hidx.
    split; [f_equal; lia|]. split; [exact Hk|]. split; [exact Himp|].
    intros [|j] later Hj Hlater; [lia|]. cbn in Hlater.
    apply (Hlast j); [lia | exact Hlater].
  - apply Exists_cons in Hex as [Hx|Hex]; [|contradiction].
    assert (Hall : Forall (fun line => import_line line = false) l).
    { apply Forall_forall. intros y Hy.
      destruct (import_line y) eqn:Hy'; [|reflexivity].
      exfalso. apply Hl. apply Exists_exists. now exists y. }
    rewrite Hx, last_index_none by exact Hall.
    exists 0%nat, x. rewrite Nat.add_0_r.
    split; [reflexivity|]. split; [reflexivity|]. split; [exact Hx|].
    intros [|j] later Hj Hlater; [lia|]. cbn in Hlater.
    apply list_elem_of_lookup_2 in Hlater.
    rewrite Forall_forall in Hall. now apply Hall.
Qed.




Lemma occurs_tag_contains uni_alnum (s : text) :
  occurs uni_alnum AddHitslop.pattern s →
  Py.contains (u "<IconButton") s = true.
Proof.
  intros (pre & s' & -> & s1 & s2 & caps & -> & Hm).
  destruct (tag_match_inv uni_alnum (Re.MatchObj s1 caps s2) Hm)
    as (attrs & closing & Hg & _).
  cbn [Re.group0] in Hg. subst s1. apply contains_spec.
  exists pre, ((attrs ++ closing) ++ s2). now rewrite <- !app_assoc.
Qed.

(** Without the text '<IconButton' the tag rewriting changes nothing. *)
Lemma rewrite_tags_no_tag uni_alnum (s : text) :
  Py.contains (u "<IconButton") s = false → rewrite_tags uni_alnum s = s.
Proof.
  intros Hno. apply sub_no_occurrence. intros Hocc.
  apply occurs_tag_contains in Hocc. congruence.
Qed.

(** C10: eligibility is substring containment.  A file whose content
    contains 'IconButton' and 'react-native-paper', lacks 'HIT_SLOP' and has
    a line starting with 'import ' (after stripping) is overwritten: the
    import is inserted after the last such line, also when the content has
    no '<IconButton' at all and so no tag is rewritten. *)
Theorem C10_substring_eligibility uni_alnum (file_path : Os.path)
    (w : Os.world) (content : text) :
  Os.files w !! file_path = Some content →
  Py.contains (u "IconButton") content = true →
  Py.contains (u "react-native-paper") content = true →
  Py.contains (u "HIT_SLOP") content = false →
  Exists (fun line => import_line line = true) (Py.split 10 content) →
  ∃ idx line,
    Py.split 10 content !! idx = Some line
    ∧ import_line line = true
    ∧ (∀ j later, (idx < j)%nat → Py.split 10 content !! j = Some later →
                  import_line later = false)
    ∧ let patched :=
        Py.join nl (take (idx + 1) (Py.split 10 content)
                    ++ import_statement file_path
                    :: drop (idx + 1) (Py.split 10 content)) in
      content_after (AddHitslop.process_file uni_alnum file_path) file_path w
      = Some (rewrite_tags uni_alnum patched)
      ∧ rewrite_tags uni_alnum patched ≠ content
      ∧ (Py.contains (u "<IconButton") patched = false →
         content_after (AddHitslop.process_file uni_alnum file_path) file_path w
         = Some patched).
Proof.
  intros Hread Hicon Hpaper Hmark Hex.
  destruct (last_index_some _ 0%nat None Hex)
    as (idx & line & Hidx & Hline & Himp & Hlast).
  exists idx, line. split; [exact Hline|]. split; [exact Himp|].
  split; [exact Hlast|]. cbn zeta.
  assert (Hcontent :
    content_after (AddHitslop.process_file uni_alnum file_path) file_path w
    = Some (rewrite_tags uni_alnum
              (Py.join nl (take (idx + 1) (Py.split 10 content)
                           ++ import_statement file_path
                           :: drop (idx + 1) (Py.split 10 content))))).
  { rewrite (process_file_content _ _ _ content Hread).
    unfold injector, eligible. rewrite Hicon, Hpaper, Hmark. cbn [andb negb orb].
    unfold with_import, last_import. now rewrite Hidx. }
  split; [exact Hcontent|]. split.
  - intros Heq.
    assert (Hhas : Py.contains (u "HIT_SLOP") content = true); [|congruence].
    rewrite <- Heq.
    pose proof (with_import_marked file_path content idx Hidx) as Hw.
    unfold with_import in Hw. unfold last_import in Hw at 1.
    rewrite Hidx in Hw. unfold Py.list_insert in Hw.
    destruct (rewrite_tags_cases uni_alnum
                (Py.join nl (take (idx + 1) (Py.split 10 content)
                             ++ import_statement file_path
                             :: drop (idx + 1) (Py.split 10 content))))
      as [->|H]; assumption.
  - intros Hno. rewrite Hcontent. f_equal. now apply rewrite_tags_no_tag.
Qed.

Lemma C10_substring_eligibility_witness :
  let content :=
    u "import React from 'react';" ++ nl
    ++ u "// TODO: use IconButton of react-native-paper" in
  let w := one_file screen_path content in
  content_after (AddHitslop.process_file ascii_only screen_path) screen_path w
  = Some (u "import React from 'react';" ++ nl
          ++ u "import { HIT_SLOP } from '../constants/ui';" ++ nl
          ++ u "// TODO: use IconButton of react-native-paper").
Proof.
  intros content w.
  destruct (C10_substring_eligibility ascii_only screen_path w content)
    as (idx & line & Hline & Himp & Hlast & _ & _ & Hplain).
  - reflexivity.
  - reflexivity.
  - reflexivity.
  - reflexivity.
  - apply Exists_cons_hd. reflexivity.
  - destruct idx as [|[|idx]].
    + apply Hplain. reflexivity.
    + injection Hline as <-. discriminate Himp.
    + discriminate Hline.
Defined.

(** ** What the tag pattern takes for a tag (C2) *)

(** C2 fails on the code: the lazy run [[^>]*?] ends at the first '>',
    also when that '>' belongs to an attribute value, so the attribute is
    put inside the arrow function; and '<IconButton' followed by further
    letters is taken for the tag as well. *)
Theorem C2_marker_inside_attribute :
  content_after (AddHitslop.process_file ascii_only screen_path) screen_path
    (one_file screen_path arrow_screen)
  = Some (u "import { IconButton } from 'react-native-paper';" ++ nl
          ++ u "import { HIT_SLOP } from '../constants/ui';" ++ nl
          ++ u "<IconButton icon='menu' onPress={() =" ++ nl
          ++ u "                hitSlop={HIT_SLOP}> go()} />")
  ∧ rewrite_tags ascii_only (u "<IconButtonGroup row>")
    = u "<IconButtonGroup row" ++ nl ++ u "                hitSlop={HIT_SLOP}>"
  ∧ rewrite_tags ascii_only (u "<Tip text='<IconButton' />")
    = u "<Tip text='<IconButton' " ++ nl
      ++ u "                hitSlop={HIT_SLOP}/>".
Proof. vm_compute. repeat split; reflexivity. Qed.

(** ** Several misplaced imports (C9) *)

(** C9: there is an input with two misplaced HIT_SLOP imports of which the
    Declaration Repairer keeps only the one captured last; its output has
    fewer HIT_SLOP import lines than its input. *)
Theorem C9_earlier_capture_lost :
  ∃ content,
    (2 ≤ length (misplaced_lines content))%nat
    ∧ (length (marker_lines (declaration_repairer content))
       < length (marker_lines content))%nat
    ∧ marker_lines (declaration_repairer content)
      = drop 1 (misplaced_lines content)
    ∧ content_after (FixImports.fix_file screen_path) screen_path
        (one_file screen_path content)
      = Some (declaration_repairer content).
Proof.
  exists twice_misplaced. vm_compute.
  split; [lia|]. split; [lia|]. split; reflexivity.
Qed.

(** ** The shape the Callback Repairer looks for (C7) *)

Section CallbackShape.

Variable uni_alnum : N → bool.

Lemma all_in_space (s : text) : all_in uni_alnum Re.Space s ↔ spaces s.
Proof. reflexivity. Qed.

Lemma all_in_word (s : text) :
  all_in uni_alnum Re.Word s ↔ word_chars uni_alnum s.
Proof. reflexivity. Qed.

Lemma all_in_free_of (ds : list N) (s : text) :
  all_in uni_alnum (Re.NoneOf ds) s ↔ free_of ds s.
Proof.
  unfold all_in, free_of. apply Forall_iff. intros c. cbn.
  rewrite negb_true_iff. split.
  - intros Hex Hin. apply not_true_iff_false in Hex. apply Hex.
    apply existsb_exists. exists c. split; [now apply list_elem_of_In|].
    apply N.eqb_refl.
  - intros Hout. apply not_true_iff_false. intros Hex.
    apply existsb_exists in Hex as (d & Hd & Heq).
    apply N.eqb_eq in Heq as ->. apply Hout. now apply list_elem_of_In.
Qed.

Lemma spaces_free_of (ds : list N) (s : text) :
  forallb (fun d => negb (Py.isspace d)) ds = true →
  spaces s → free_of ds s.
Proof.
  intros Hds Hs. eapply Forall_impl; [exact Hs|]. intros c Hc Hin.
  rewrite forallb_forall in Hds. apply list_elem_of_In, Hds in Hin.
  now rewrite Hc in Hin.
Qed.

Lemma free_of_app (ds : list N) (a b : text) :
  free_of ds (a ++ b) ↔ free_of ds a ∧ free_of ds b.
Proof. apply Forall_app. Qed.

Lemma callback_match_shape (t : text) caps :
  matches uni_alnum FixArrowFunctions.pattern t Re.no_captures caps →
  ∃ name w4 body,
    truncated_callback uni_alnum name (w4 ++ body) t
    ∧ spaces w4 ∧ body ≠ []
    ∧ caps 1%nat = Some name ∧ caps 2%nat = Some body.
Proof.
  unfold FixArrowFunctions.pattern. cbn [Re.seq]. intros H.
  invert_matches.
  repeat match goal with
  | H : all_in _ Re.Space _ |- _ => apply (proj1 (all_in_space _)) in H
  | H : all_in _ Re.Word _ |- _ => apply (proj1 (all_in_word _)) in H
  | H : all_in _ (Re.NoneOf _) _ |- _ =>
      apply (proj1 (all_in_free_of _ _)) in H
  end.
  match goal with
  | |- context [?name ++ _ ++ ?w1 ++ _ ++ ?w2 ++ _ ++ ?w3 ++ _ ++ ?w4 ++ ?body ++ _] =>
      exists name, w4, body; split; [exists w1, w2, w3|]
  end.
  - repeat split; auto.
    + intros Happ. apply app_eq_nil in Happ as [_ ?]. contradiction.
    + apply free_of_app. split; [|assumption].
      now apply spaces_free_of.
    + now rewrite <- app_assoc.
  - repeat split; auto.
Qed.

Lemma matches_seq (r1 r2 : Re.regex) (s s1 s2 : text) c0 c1 c2 :
  s = s1 ++ s2 →
  matches uni_alnum r1 s1 c0 c1 → matches uni_alnum r2 s2 c1 c2 →
  matches uni_alnum (Re.Seq r1 r2) s c0 c2.
Proof. intros ->. apply M_Seq. Qed.

Lemma callback_shape_match (name region t : text) :
  truncated_callback uni_alnum name region t →
  matches uni_alnum FixArrowFunctions.pattern t Re.no_captures
    (Re.set_group 2 region (Re.set_group 1 name Re.no_captures)).
Proof.
  intros (w1 & w2 & w3 & Hname & Hword & Hw1 & Hw2 & Hw3 & Hw3' & Hreg
          & Hfree & ->).
  unfold FixArrowFunctions.pattern. cbn [Re.seq].
  change (region ++ u "}") with ([] ++ region ++ u "}").
  repeat (eapply matches_seq; [reflexivity| |]);
    try apply M_Lit; try apply M_Group;
    try (apply M_Plus; [assumption|]); try apply M_Star;
    try apply all_in_space; try apply all_in_word; try apply all_in_free_of;
    try assumption.
  constructor.
Qed.

End CallbackShape.

(** ** Splitting a text at the first character outside a class *)

(** Brings concatenations to their right-nested form. *)
Ltac text_norm := repeat (progress (rewrite <- ?app_assoc; cbn [app])).

Lemma split_first (p : N → bool) (a a' b b' : text) (c c' : N) :
  Forall (fun x => p x = true) a → Forall (fun x => p x = true) a' →
  p c = false → p c' = false →
  a ++ c :: b = a' ++ c' :: b' →
  a = a' ∧ c = c' ∧ b = b'.
Proof.
  intros Ha. revert a'.
  induction Ha as [|x a Hx _ IH]; intros a' Ha' Hc Hc' Heq.
  - destruct Ha' as [|x' a' Hx' _]; cbn in Heq.
    + now injection Heq as -> ->.
    + injection Heq as -> _. congruence.
  - destruct Ha' as [|x' a' Hx' Ha']; cbn in Heq.
    + injection Heq as -> _. congruence.
    + injection Heq as -> Heq.
      destruct (IH a' Ha' Hc Hc' Heq) as (-> & -> & ->). auto.
Qed.

Lemma free_of_brace (s : text) :
  free_of (u "}") s ↔ Forall (fun c => not_brace c = true) s.
Proof.
  apply Forall_iff. intros c. unfold not_brace.
  rewrite negb_true_iff, N.eqb_neq. cbn.
  rewrite list_elem_of_singleton. reflexivity.
Qed.

Lemma spaces_not_brace (s : text) :
  spaces s → Forall (fun c => not_brace c = true) s.
Proof.
  intros Hs. apply free_of_brace. now apply spaces_free_of.
Qed.

Lemma isword_not_brace uni_alnum (c : N) :
  Re.isword uni_alnum c = true → not_brace c = true.
Proof.
  unfold not_brace. destruct (N.eqb_spec c 125) as [->|]; [|reflexivity].
  discriminate.
Qed.

Lemma word_not_brace uni_alnum (s : text) :
  word_chars uni_alnum s → Forall (fun c => not_brace c = true) s.
Proof.
  intros Hs. eapply Forall_impl; [exact Hs|].
  intros c. apply isword_not_brace.
Qed.

Lemma literal_forall (p : N → bool) (s : text) :
  forallb p s = true → Forall (fun c => p c = true) s.
Proof.
  intros H. apply Forall_forall. intros c Hc.
  rewrite forallb_forall in H. now apply H, list_elem_of_In.
Qed.

Lemma lstrip_spaces (w s : text) : spaces w → Py.lstrip (w ++ s) = Py.lstrip s.
Proof.
  intros Hw. induction Hw as [|c w Hc _ IH]; [reflexivity|].
  cbn. now rewrite Hc.
Qed.

Lemma strip_spaces (w s : text) : spaces w → Py.strip (w ++ s) = Py.strip s.
Proof. intros Hw. unfold Py.strip. now rewrite lstrip_spaces. Qed.

(** The two braces of a truncated callback are the first two of the text
    it starts. *)
Lemma truncated_callback_braces uni_alnum (name region t : text) :
  truncated_callback uni_alnum name region t →
  ∃ before,
    t = (name ++ 61 :: before) ++ 125 :: (62 :: region) ++ [125]
    ∧ Forall (fun c => not_brace c = true) (name ++ 61 :: before)
    ∧ Forall (fun c => not_brace c = true) (62 :: region)
    ∧ word_chars uni_alnum name.
Proof.
  intros (w1 & w2 & w3 & Hname & Hword & Hw1 & Hw2 & Hw3 & Hw3' & Hreg
          & Hfree & ->).
  exists (u "{()" ++ w1 ++ u "=" ++ w2 ++ nl ++ w3 ++ u "hitSlop={HIT_SLOP").
  split; [|split; [|split; [|exact Hword]]].
  - change (u "={()") with (61 :: u "{()").
    change (u "hitSlop={HIT_SLOP}>") with (u "hitSlop={HIT_SLOP" ++ 125 :: [62]).
    text_norm. reflexivity.
  - rewrite Forall_app, Forall_cons, !Forall_app.
    repeat split;
      try (now apply spaces_not_brace);
      try (now apply (word_not_brace uni_alnum));
      try (apply literal_forall; reflexivity).
  - constructor; [reflexivity|]. now apply free_of_brace.
Qed.

Section CallbackRepair.

Variable uni_alnum : N → bool.

(** What the pattern matches at the head of a text that starts with a
    truncated callback: that callback, with the groups [name] and a
    [body] that is the region without some leading white space. *)
Lemma callback_match_at (name region t tail : text) :
  truncated_callback uni_alnum name region t →
  ∃ m w4 body,
    Re.match_at uni_alnum FixArrowFunctions.pattern (t ++ tail) = Some m
    ∧ Re.group0 m = t ∧ Re.rest m = tail
    ∧ Re.group m 1 = name ∧ Re.group m 2 = body
    ∧ region = w4 ++ body ∧ spaces w4.
Proof.
  intros Hshape.
  destruct (match_at_complete uni_alnum _ t tail _
              (callback_shape_match uni_alnum _ _ _ Hshape)) as [m Hm].
  pose proof (match_at_sound _ _ _ _ Hm) as [Hs Him].
  apply callback_match_shape in Him
    as (name' & w4 & body & Hshape' & Hw4 & Hbody & Hg1 & Hg2).
  exists m, w4, body.
  apply truncated_callback_braces in Hshape
    as (before & Ht & Hbefore & Hregion & Hname).
  apply truncated_callback_braces in Hshape'
    as (before' & Ht' & Hbefore' & Hregion' & Hname').
  assert (Heq : (name ++ 61 :: before) ++ 125 :: (62 :: region) ++ 125 :: tail
                = (name' ++ 61 :: before') ++ 125 :: (62 :: w4 ++ body)
                  ++ 125 :: Re.rest m).
  { transitivity (t ++ tail); [rewrite Ht | rewrite Hs, Ht'];
      text_norm; reflexivity. }
  apply (split_first not_brace) in Heq as (Hhead & _ & Heq);
    [|assumption..|reflexivity|reflexivity].
  apply (split_first not_brace) in Heq as (Hreg & _ & Htail);
    [|assumption..|reflexivity|reflexivity].
  injection Hreg as Hreg.
  apply (split_first (Re.isword uni_alnum)) in Hhead as (<- & _ & <-);
    [|assumption..|reflexivity|reflexivity].
  assert (Hg0 : Re.group0 m = t) by now rewrite Ht', Ht, Hreg.
  unfold Re.group. rewrite Hg1, Hg2. cbn [default].
  repeat split; auto.
Qed.

(** The Callback Repairer on a text that starts with a truncated
    callback. *)
Lemma callback_repairer_head (name region t tail : text) :
  truncated_callback uni_alnum name region t →
  callback_repairer uni_alnum (t ++ tail)
  = restored_callback name region ++ callback_repairer uni_alnum tail.
Proof.
  intros Hshape.
  destruct (callback_match_at name region t tail Hshape)
    as (m & w4 & body & Hm & Hg0 & Hrest & Hg1 & Hg2 & Hreg & Hw4).
  unfold callback_repairer. rewrite (sub_match _ _ _ _ m Hm).
  - rewrite Hrest. f_equal.
    unfold FixArrowFunctions.fix_arrow, restored_callback.
    now rewrite Hg1, Hg2, Hreg, strip_spaces.
  - rewrite Hg0. destruct Hshape as (? & ? & ? & Hname & _ & _ & _ & _ & _ & _ & _ & ->).
    destruct name; [contradiction | discriminate].
Qed.

(** Where no truncated callback starts, the character is copied. *)
Lemma callback_repairer_copy (c : N) (s : text) :
  ¬ callback_at_head uni_alnum (c :: s) →
  callback_repairer uni_alnum (c :: s) = c :: callback_repairer uni_alnum s.
Proof.
  intros Hno. unfold callback_repairer. apply sub_cons_none.
  apply match_at_none. intros (s1 & s2 & caps & Hs & Hm). apply Hno.
  apply callback_match_shape in Hm as (name & w4 & body & Hshape & _).
  now exists name, (w4 ++ body), s1, s2.
Qed.

Lemma callback_occurs_iff (s : text) :
  occurs uni_alnum FixArrowFunctions.pattern s ↔ callback_occurs uni_alnum s.
Proof.
  split.
  - intros (pre & s' & -> & s1 & s2 & caps & -> & Hm).
    apply callback_match_shape in Hm as (name & w4 & body & Hshape & _).
    exists pre, (s1 ++ s2). split; [reflexivity|].
    now exists name, (w4 ++ body), s1, s2.
  - intros (pre & s' & -> & name & region & t & tail & -> & Hshape).
    exists pre, (t ++ tail). split; [reflexivity|].
    exists t, tail. eexists. split; [reflexivity|].
    apply (callback_shape_match _ _ _ _ Hshape).
Qed.

(** Without a truncated callback the text is returned as it is. *)
Lemma callback_repairer_unchanged (s : text) :
  ¬ callback_occurs uni_alnum s → callback_repairer uni_alnum s = s.
Proof.
  intros Hno. apply sub_no_occurrence. now rewrite callback_occurs_iff.
Qed.

End CallbackRepair.

Lemma matches_nowhere_spec uni_alnum (r : Re.regex) (s : text) :
  matches_nowhere uni_alnum r s = true ↔ ¬ occurs uni_alnum r s.
Proof.
  induction s as [|c s IH]; cbn [matches_nowhere].
  - destruct (Re.match_at uni_alnum r []) as [m|] eqn:Hm.
    + split; [discriminate|]. intros Hno. exfalso. apply Hno.
      exists [], []. split; [reflexivity|].
      apply match_at_sound in Hm as [Hs Hm].
      now exists (Re.group0 m), (Re.rest m), (Re.groups m).
    + split; [|reflexivity]. intros _ (pre & s' & Hs & Hp).
      symmetry in Hs. apply app_eq_nil in Hs as [-> ->].
      now apply match_at_none in Hm.
  - destruct (Re.match_at uni_alnum r (c :: s)) as [m|] eqn:Hm.
    + split; [discriminate|]. intros Hno. exfalso. apply Hno.
      exists [], (c :: s). split; [reflexivity|].
      apply match_at_sound in Hm as [Hs Hm].
      now exists (Re.group0 m), (Re.rest m), (Re.groups m).
    + rewrite IH. split.
      * intros Hno ([|c' pre] & s' & Hs & Hp).
        -- cbn in Hs. subst s'. now apply match_at_none in Hm.
        -- injection Hs as -> ->. apply Hno. now exists pre, s'.
      * intros Hno (pre & s' & -> & Hp). apply Hno. now exists (c :: pre), s'.
Qed.



(** ** The shape the Import Repairer looks for (C6) *)

Section ImportShape.

Variable uni_alnum : N → bool.

Lemma in_class_quote (c : N) :
  Re.in_class uni_alnum FixAllImports.quote c = true ↔ is_quote c.
Proof.
  unfold is_quote, quotes, FixAllImports.quote. cbn.
  rewrite orb_false_r, orb_true_iff, !N.eqb_eq.
  rewrite elem_of_cons, list_elem_of_singleton. reflexivity.
Qed.

Lemma import_match_shape (t : text) caps :
  matches uni_alnum FixAllImports.pattern t Re.no_captures caps →
  ∃ start path rest_of_import,
    corrupted_import start path rest_of_import t
    ∧ caps 1%nat = Some start ∧ caps 2%nat = Some path
    ∧ caps 3%nat = Some rest_of_import.
Proof.
  unfold FixAllImports.pattern, FixAllImports.not_quote. cbn [Re.seq].
  intros H. invert_matches.
  repeat match goal with
  | H : all_in _ Re.Space _ |- _ => apply (proj1 (all_in_space _ _)) in H
  | H : all_in _ (Re.NoneOf _) _ |- _ =>
      apply (proj1 (all_in_free_of _ _ _)) in H
  | H : Re.in_class _ FixAllImports.quote _ = true |- _ =>
      apply in_class_quote in H
  end.
  match goal with
  | |- context [ (u "import" ++ ?v ++ u "{") ++ ?w0 ++ (10 :: u "import")
                 ++ ?w1 ++ u "{" ++ ?w2 ++ u "HIT_SLOP" ++ ?w3 ++ u "}"
                 ++ ?w4 ++ u "from" ++ ?w5 ++ [?q1] ++ ?path ++ [?q2]
                 ++ u ";" ++ ?w6 ++ nl ++ ?x1 ++ ?members ++ (10 :: u "}")
                 ++ ?x2 ++ u "from" ++ ?x3 ++ [?q3] ++ ?module ++ [?q4]
                 ++ u ";" ] =>
      exists (u "import" ++ v ++ u "{"), path,
        (x1 ++ members ++ nl ++ u "}" ++ x2 ++ u "from" ++ x3 ++ [q3]
         ++ module ++ [q4] ++ u ";");
      split;
      [ exists w0,
          (u "import" ++ w1 ++ u "{" ++ w2 ++ u "HIT_SLOP" ++ w3 ++ u "}"
           ++ w4 ++ u "from" ++ w5 ++ [q1] ++ path ++ [q2] ++ u ";"), w6;
        split; [exists v | split; [exists w1, w2, w3, w4, w5, q1, q2
                                  | split; [exists x1, members, x2, x3, q3,
                                              module, q4|]]]
      | ]
  end; repeat split; auto; text_norm; reflexivity.
Qed.

Lemma matches_text (r : Re.regex) (s s' : text) c0 c1 :
  s = s' → matches uni_alnum r s' c0 c1 → matches uni_alnum r s c0 c1.
Proof. now intros ->. Qed.

Lemma import_shape_match (start path rest_of_import t : text) :
  corrupted_import start path rest_of_import t →
  matches uni_alnum FixAllImports.pattern t Re.no_captures
    (Re.set_group 3 rest_of_import
       (Re.set_group 2 path (Re.set_group 1 start Re.no_captures))).
Proof.
  intros (w0 & line & w6 & (v & Hv & Hv' & ->)
          & (w1 & w2 & w3 & w4 & w5 & q1 & q2 & Hw1 & Hw1' & Hw2 & Hw3 & Hw4
             & Hw4' & Hw5 & Hw5' & Hq1 & Hq2 & Hpath & Hpath' & ->)
          & (x1 & members & x2 & x3 & q3 & module & q4 & Hx1 & Hx1' & Hmem
             & Hmem' & Hx2 & Hx2' & Hx3 & Hx3' & Hq3 & Hq4 & Hmod & Hmod'
             & ->)
          & Hw0 & Hw6 & ->).
  unfold FixAllImports.pattern, FixAllImports.not_quote. cbn [Re.seq].
  apply in_class_quote in Hq1, Hq2, Hq3, Hq4.
  apply (matches_text _ _
    ((u "import" ++ v ++ u "{") ++ w0 ++ (nl ++ u "import") ++ w1 ++ u "{"
     ++ w2 ++ u "HIT_SLOP" ++ w3 ++ u "}" ++ w4 ++ u "from" ++ w5 ++ [q1]
     ++ path ++ [q2] ++ u ";" ++ w6 ++ nl
     ++ (x1 ++ members ++ nl ++ u "}" ++ x2 ++ u "from" ++ x3 ++ [q3]
         ++ module ++ [q4] ++ u ";")));
    [text_norm; reflexivity|].
  repeat (eapply matches_seq; [reflexivity | first
    [ apply M_Lit | now apply M_Plus | now apply M_Star | now apply M_Atom
    | apply M_Group; apply M_Plus; [assumption|]; now apply all_in_free_of
    | apply M_Group;
      repeat (eapply matches_seq; [reflexivity| |]);
      try apply M_Lit; now apply M_Plus ]
    |]).
  apply M_Group.
  apply (matches_text _ _
    (x1 ++ members ++ (nl ++ u "}") ++ x2 ++ u "from" ++ x3 ++ [q3]
     ++ module ++ [q4] ++ u ";")); [text_norm; reflexivity|].
  repeat (eapply matches_seq; [reflexivity | first
    [ apply M_Lit | now apply M_Plus | now apply M_Atom
    | apply M_Plus; [assumption|]; now apply all_in_free_of ]
    |]).
  apply M_Lit.
Qed.

End ImportShape.

Section ImportRepair.

Variable uni_alnum : N → bool.

Lemma corrupted_import_nonempty (start path rest_of_import t : text) :
  corrupted_import start path rest_of_import t → t ≠ [].
Proof.
  intros (w0 & line & w6 & (v & _ & _ & ->) & _ & _ & _ & _ & ->).
  discriminate.
Qed.

(** The Import Repairer on a text that starts with the corrupted shape:
    a prefix of that shape is replaced by the import put together again
    and the HIT_SLOP import after it, and the repair goes on behind it. *)
Lemma import_repairer_head (s : text) :
  import_at_head s →
  ∃ start path rest_of_import t tail,
    s = t ++ tail
    ∧ corrupted_import start path rest_of_import t
    ∧ import_repairer uni_alnum s
      = repaired_import start path rest_of_import
        ++ import_repairer uni_alnum tail.
Proof.
  intros (start & path & rest_of_import & t & tail & -> & Hshape).
  destruct (match_at_complete uni_alnum _ t tail _
              (import_shape_match uni_alnum _ _ _ _ Hshape)) as [m Hm].
  pose proof (match_at_sound _ _ _ _ Hm) as [Hs Him].
  apply import_match_shape in Him
    as (start' & path' & rest' & Hshape' & Hg1 & Hg2 & Hg3).
  exists start', path', rest', (Re.group0 m), (Re.rest m).
  split; [exact Hs|]. split; [exact Hshape'|].
  unfold import_repairer. rewrite (sub_match _ _ _ _ m Hm).
  - f_equal. unfold FixAllImports.fix_import, repaired_import, Re.group.
    now rewrite Hg1, Hg2, Hg3.
  - now apply corrupted_import_nonempty in Hshape'.
Qed.

Lemma import_repairer_copy (c : N) (s : text) :
  ¬ import_at_head (c :: s) →
  import_repairer uni_alnum (c :: s) = c :: import_repairer uni_alnum s.
Proof.
  intros Hno. unfold import_repairer. apply sub_cons_none.
  apply match_at_none. intros (s1 & s2 & caps & Hs & Hm). apply Hno.
  apply import_match_shape in Hm as (start & path & rest & Hshape & _).
  now exists start, path, rest, s1, s2.
Qed.

Lemma import_occurs_iff (s : text) :
  occurs uni_alnum FixAllImports.pattern s ↔ import_occurs s.
Proof.
  split.
  - intros (pre & s' & -> & s1 & s2 & caps & -> & Hm).
    apply import_match_shape in Hm as (start & path & rest & Hshape & _).
    exists pre, (s1 ++ s2). split; [reflexivity|].
    now exists start, path, rest, s1, s2.
  - intros (pre & s' & -> & start & path & rest & t & tail & -> & Hshape).
    exists pre, (t ++ tail). split; [reflexivity|].
    exists t, tail. eexists. split; [reflexivity|].
    apply (import_shape_match _ _ _ _ _ Hshape).
Qed.

Lemma import_repairer_unchanged (s : text) :
  ¬ import_occurs s → import_repairer uni_alnum s = s.
Proof.
  intros Hno. apply sub_no_occurrence. now rewrite import_occurs_iff.
Qed.

End ImportRepair.

(** ** The Callback Repairer does not trigger on its own output *)

Lemma first_brace (p : text) :
  brace_free p ∨ ∃ p1 p2, p = p1 ++ 125 :: p2 ∧ brace_free p1.
Proof.
  induction p as [|c p IH]; [left; constructor|].
  destruct (not_brace c) eqn:Hc.
  - destruct IH as [Hp|(p1 & p2 & -> & Hp1)].
    + left. now constructor.
    + right. exists (c :: p1), p2. split; [reflexivity | now constructor].
  - right. exists [], p. split; [|constructor].
    unfold not_brace in Hc. apply negb_false_iff, N.eqb_eq in Hc. now subst.
Qed.

Lemma lstrip_forall (P : N → Prop) (s : text) :
  Forall P s → Forall P (Py.lstrip s).
Proof.
  intros Hs. induction Hs as [|c s Hc Hs IH]; cbn; [constructor|].
  destruct (Py.isspace c); [exact IH | now constructor].
Qed.

Lemma strip_forall (P : N → Prop) (s : text) :
  Forall P s → Forall P (Py.strip s).
Proof.
  intros Hs. unfold Py.strip, Py.rstrip.
  apply Forall_rev, lstrip_forall, Forall_rev, lstrip_forall, Hs.
Qed.

Section CallbackFixpoint.

Variable uni_alnum : N → bool.

(** A truncated callback is a brace-free head that starts with a word
    character, a closing brace, '>' and the region, and a closing brace;
    the region may be exchanged for any other. *)
Lemma truncated_callback_split (name region t : text) :
  truncated_callback uni_alnum name region t →
  ∃ c head,
    t = (c :: head) ++ 125 :: (62 :: region) ++ [125]
    ∧ Re.isword uni_alnum c = true
    ∧ brace_free (c :: head) ∧ brace_free (62 :: region)
    ∧ ∀ region', region' ≠ [] → brace_free region' →
        truncated_callback uni_alnum name region'
          ((c :: head) ++ 125 :: (62 :: region') ++ [125]).
Proof.
  intros Hshape.
  pose proof (truncated_callback_braces _ _ _ _ Hshape)
    as (before & Ht & Hhead & Hregion & Hword).
  destruct Hshape as (w1 & w2 & w3 & Hname & _ & Hw1 & Hw2 & Hw3 & Hw3' & Hreg
                      & Hfree & Ht2).
  destruct name as [|c name]; [contradiction|].
  exists c, (name ++ 61 :: before).
  split; [exact Ht|]. split; [now inversion Hword|].
  split; [exact Hhead|]. split; [exact Hregion|].
  intros region' Hne Hfree'. exists w1, w2, w3.
  repeat split; auto; [now apply free_of_brace|].
  rewrite Ht2 in Ht. clear Ht2.
  assert (Hb : (c :: name) ++ 61 :: before
               = (c :: name) ++ u "={()" ++ w1 ++ u "=" ++ w2 ++ nl ++ w3
                 ++ u "hitSlop={HIT_SLOP").
  { apply (split_first not_brace _ _ ((62 :: region) ++ [125])
             ((62 :: region) ++ [125]) 125 125);
      [assumption| |reflexivity|reflexivity|].
    - rewrite Forall_app, !Forall_app.
      apply Forall_app in Hhead as [Hn _].
      repeat split; try assumption;
        try (now apply spaces_not_brace);
        try (apply literal_forall; reflexivity).
    - rewrite <- Ht. text_norm. reflexivity. }
  cbn [app] in Hb. injection Hb as Hb. cbn [app]. rewrite Hb.
  change (u "hitSlop={HIT_SLOP}>") with (u "hitSlop={HIT_SLOP" ++ [125; 62]).
  text_norm. reflexivity.
Qed.

Lemma restored_callback_split (name region t : text) :
  truncated_callback uni_alnum name region t →
  ∃ c body,
    restored_callback name region
    = (c :: body) ++ 125 :: marker_line ++ [125]
    ∧ Re.isword uni_alnum c = true ∧ brace_free (c :: body).
Proof.
  intros (w1 & w2 & w3 & Hname & Hword & _ & _ & _ & _ & _ & Hfree & _).
  destruct name as [|c name]; [contradiction|].
  exists c, (name ++ u "={() => " ++ Py.strip region).
  split; [|split].
  - unfold restored_callback, marker_line. text_norm. reflexivity.
  - now inversion Hword.
  - change (brace_free ((c :: name) ++ u "={() => " ++ Py.strip region)).
    unfold brace_free. rewrite !Forall_app. repeat split.
    + now apply (word_not_brace uni_alnum).
    + apply literal_forall. reflexivity.
    + apply strip_forall. now apply free_of_brace.
Qed.

(** The first two closing braces of a text that starts with a truncated
    callback delimit its head and, after '>', its region. *)
Lemma callback_at_head_inv (a b y : text) :
  callback_at_head uni_alnum (a ++ 125 :: b ++ 125 :: y) →
  brace_free a → brace_free b →
  ∃ name region,
    b = 62 :: region
    ∧ truncated_callback uni_alnum name region (a ++ 125 :: b ++ [125])
    ∧ ∃ c a', a = c :: a' ∧ Re.isword uni_alnum c = true.
Proof.
  intros (name & region & t & tail & Heq & Hshape) Ha Hb.
  pose proof (truncated_callback_split _ _ _ Hshape)
    as (c & head & Ht & Hc & Hhead & Hregion & _).
  rewrite Ht in Heq.
  assert (Heq' : a ++ 125 :: b ++ 125 :: y
                 = (c :: head) ++ 125 :: (62 :: region) ++ 125 :: tail).
  { rewrite Heq. text_norm. reflexivity. }
  apply (split_first not_brace) in Heq' as (-> & _ & Heq');
    [|assumption..|reflexivity|reflexivity].
  apply (split_first not_brace) in Heq' as (-> & _ & _);
    [|assumption..|reflexivity|reflexivity].
  exists name, region. split; [reflexivity|]. split.
  - now rewrite Ht in Hshape.
  - now exists c, head.
Qed.

End CallbackFixpoint.

Section CallbackIdempotence.

Variable uni_alnum : N → bool.

Lemma marker_line_not_region (region : text) : marker_line ≠ 62 :: region.
Proof. discriminate. Qed.

(** A match found in a text where a callback has been restored was there
    before the callback was restored. *)
Lemma head_before_restoring (name region t p y : text) :
  truncated_callback uni_alnum name region t →
  callback_at_head uni_alnum (p ++ restored_callback name region ++ y) →
  callback_at_head uni_alnum (p ++ t ++ y).
Proof.
  intros Hshape Hhead.
  pose proof (restored_callback_split _ _ _ _ Hshape)
    as (c & body & HR & Hc & Hbody).
  pose proof (truncated_callback_split _ _ _ _ Hshape)
    as (c' & head & Ht & _ & Hhead' & _ & _).
  rewrite HR in Hhead.
  destruct (first_brace p) as [Hp|(p1 & p2 & -> & Hp1)].
  - exfalso.
    assert (Heq : p ++ ((c :: body) ++ 125 :: marker_line ++ [125]) ++ y
                  = (p ++ c :: body) ++ 125 :: marker_line ++ 125 :: y)
      by (text_norm; reflexivity).
    rewrite Heq in Hhead.
    apply callback_at_head_inv in Hhead as (? & region' & Hb & _).
    + now apply marker_line_not_region in Hb.
    + now apply Forall_app.
    + apply literal_forall. reflexivity.
  - destruct (first_brace p2) as [Hp2|(p3 & p4 & -> & Hp3)].
    + assert (Heq : (p1 ++ 125 :: p2)
                      ++ ((c :: body) ++ 125 :: marker_line ++ [125]) ++ y
                    = p1 ++ 125 :: (p2 ++ c :: body)
                      ++ 125 :: (marker_line ++ 125 :: y))
        by (text_norm; reflexivity).
      rewrite Heq in Hhead.
      apply callback_at_head_inv in Hhead
        as (name0 & region0 & Hb & Hshape0 & _);
        [|assumption|now apply Forall_app].
      destruct p2 as [|d p2].
      { cbn in Hb. injection Hb as -> _. discriminate Hc. }
      cbn in Hb. injection Hb as -> Hb.
      apply truncated_callback_split in Hshape0
        as (c0 & head0 & Ht0 & _ & Hhead0 & _ & Hrebuild).
      apply (split_first not_brace) in Ht0 as (-> & _ & _);
        [|assumption..|reflexivity|reflexivity].
      exists name0, (p2 ++ c' :: head),
        ((c0 :: head0) ++ 125 :: (62 :: p2 ++ c' :: head) ++ [125]),
        ((62 :: region) ++ 125 :: y).
      split.
      * rewrite Ht. text_norm. reflexivity.
      * apply Hrebuild.
        -- destruct p2; discriminate.
        -- apply Forall_app. split; [now inversion Hp2 | exact Hhead'].
    + assert (Heq : (p1 ++ 125 :: p3 ++ 125 :: p4)
                      ++ ((c :: body) ++ 125 :: marker_line ++ [125]) ++ y
                    = p1 ++ 125 :: p3
                      ++ 125 :: (p4 ++ (c :: body) ++ 125 :: marker_line
                                 ++ 125 :: y))
        by (text_norm; reflexivity).
      rewrite Heq in Hhead.
      apply callback_at_head_inv in Hhead
        as (name0 & region0 & Hb & Hshape0 & _); [|assumption..].
      exists name0, region0, (p1 ++ 125 :: p3 ++ [125]), (p4 ++ t ++ y).
      split; [text_norm; reflexivity | exact Hshape0].
Qed.

(** No match starts inside a restored callback: the matcher fails at each
    position of its last line and closing braces. *)
Lemma no_match_in_marker_line (k r y : text) :
  k ++ r = 125 :: marker_line ++ [125] → r ≠ [] →
  Re.match_at uni_alnum FixArrowFunctions.pattern (r ++ y) = None.
Proof.
  intros Hk Hr. vm_compute in Hk.
  repeat (destruct k as [|? k];
          [ cbn [app] in Hk; subst r; vm_compute; reflexivity
          | cbn [app] in Hk; injection Hk as _ Hk ]).
  destruct k; [|discriminate Hk]. cbn in Hk. now subst r.
Qed.

Lemma no_head_in_restored (name region t q r y : text) :
  truncated_callback uni_alnum name region t →
  q ++ r = restored_callback name region → r ≠ [] →
  ¬ callback_at_head uni_alnum (r ++ y).
Proof.
  intros Hshape Hq Hr Hhead.
  pose proof (restored_callback_split _ _ _ _ Hshape)
    as (c & body & HR & Hc & Hbody).
  rewrite HR in Hq.
  apply app_eq_inv in Hq as [(k & -> & Hk)|(k & Hk & ->)].
  - assert (Hnone : Re.match_at uni_alnum FixArrowFunctions.pattern (r ++ y)
                    = None)
      by (eapply no_match_in_marker_line; [symmetry; exact Hk | exact Hr]).
    apply match_at_none in Hnone. apply Hnone.
    destruct Hhead as (name' & region' & t' & tail' & -> & Hshape').
    exists t', tail'. eexists. split; [reflexivity|].
    apply (callback_shape_match _ _ _ _ Hshape').
  - assert (Heq : (k ++ 125 :: marker_line ++ [125]) ++ y
                  = k ++ 125 :: marker_line ++ 125 :: y)
      by (text_norm; reflexivity).
    rewrite Heq in Hhead.
    apply callback_at_head_inv in Hhead as (? & region' & Hb & _).
    + now apply marker_line_not_region in Hb.
    + rewrite Hk in Hbody. now apply Forall_app in Hbody as [_ ?].
    + apply literal_forall. reflexivity.
Qed.

End CallbackIdempotence.

Section CallbackScan.

Variable uni_alnum : N → bool.

(** One step of the scan of the Callback Repairer where the pattern
    matches. *)
Lemma callback_repairer_step (s : text) (m : Re.match_obj) :
  Re.match_at uni_alnum FixArrowFunctions.pattern s = Some m →
  ∃ name region t tail,
    s = t ++ tail ∧ t ≠ []
    ∧ truncated_callback uni_alnum name region t
    ∧ callback_repairer uni_alnum s
      = restored_callback name region ++ callback_repairer uni_alnum tail.
Proof.
  intros Hm. apply match_at_sound in Hm as [Hs Hm].
  apply callback_match_shape in Hm as (name & w4 & body & Hshape & _).
  exists name, (w4 ++ body), (Re.group0 m), (Re.rest m).
  split; [exact Hs|]. split.
  - apply truncated_callback_split in Hshape as (c & head & -> & _).
    discriminate.
  - split; [exact Hshape|]. rewrite Hs.
    now apply callback_repairer_head.
Qed.

Lemma callback_repairer_nil : callback_repairer uni_alnum [] = [].
Proof. reflexivity. Qed.

(** A match at the head of a text whose tail has been repaired was a
    match before the repair. *)
Lemma head_before_repair (s : text) :
  ∀ p, callback_at_head uni_alnum (p ++ callback_repairer uni_alnum s) →
       callback_at_head uni_alnum (p ++ s).
Proof.
  remember (length s) as n eqn:Hn. revert s Hn.
  induction n as [n IH] using lt_wf_ind; intros s -> p Hhead.
  destruct (Re.match_at uni_alnum FixArrowFunctions.pattern s) as [m|] eqn:Hm.
  - apply callback_repairer_step in Hm
      as (name & region & t & tail & -> & Hne & Hshape & Hout).
    rewrite Hout in Hhead.
    assert (Hlen : (length tail < length (t ++ tail))%nat).
    { rewrite length_app. destruct t; [contradiction | cbn; lia]. }
    rewrite (app_assoc p) in Hhead.
    apply (IH _ Hlen tail eq_refl) in Hhead.
    rewrite <- app_assoc in Hhead.
    now apply (head_before_restoring _ name region).
  - destruct s as [|c s]; [exact Hhead|].
    unfold callback_repairer in Hhead.
    rewrite sub_cons_none in Hhead by exact Hm.
    fold (callback_repairer uni_alnum s) in Hhead.
    change (p ++ c :: callback_repairer uni_alnum s)
      with (p ++ [c] ++ callback_repairer uni_alnum s) in Hhead.
    rewrite app_assoc in Hhead.
    apply (IH (length s) (Nat.lt_succ_diag_r _) s eq_refl) in Hhead.
    now rewrite <- app_assoc in Hhead.
Qed.

(** The output of the Callback Repairer holds no truncated callback. *)
Lemma callback_repairer_clean (s : text) :
  ¬ callback_occurs uni_alnum (callback_repairer uni_alnum s).
Proof.
  remember (length s) as n eqn:Hn. revert s Hn.
  induction n as [n IH] using lt_wf_ind; intros s -> (q & x & Hq & Hhead).
  destruct (Re.match_at uni_alnum FixArrowFunctions.pattern s) as [m|] eqn:Hm.
  - apply callback_repairer_step in Hm
      as (name & region & t & tail & -> & Hne & Hshape & Hout).
    assert (Hlen : (length tail < length (t ++ tail))%nat).
    { rewrite length_app. destruct t; [contradiction | cbn; lia]. }
    rewrite Hout in Hq.
    apply app_eq_inv in Hq as [(k & Hk & Hx)|(k & Hk & Hx)].
    + subst x. destruct k as [|d k].
      * apply (IH _ Hlen tail eq_refl).
        now exists [], (callback_repairer uni_alnum tail).
      * apply head_before_repair in Hhead.
        revert Hhead.
        apply (no_head_in_restored _ name region t q);
          [assumption | now rewrite Hk | discriminate].
    + apply (IH _ Hlen tail eq_refl). now exists k, x.
  - destruct s as [|c s].
    { rewrite callback_repairer_nil in Hq. symmetry in Hq.
      apply app_eq_nil in Hq as [_ ->].
      destruct Hhead as (? & ? & t & ? & Ht & Hshape).
      symmetry in Ht. apply app_eq_nil in Ht as [-> _].
      apply truncated_callback_split in Hshape as (? & ? & Ht & _).
      discriminate Ht. }
    unfold callback_repairer in Hq.
    rewrite sub_cons_none in Hq by exact Hm.
    fold (callback_repairer uni_alnum s) in Hq.
    destruct q as [|d q].
    + cbn in Hq. subst x.
      apply (head_before_repair s [c]) in Hhead.
      apply match_at_none in Hm. apply Hm.
      destruct Hhead as (name' & region' & t' & tail' & Heq & Hshape').
      exists t', tail'. eexists. split; [exact Heq|].
      apply (callback_shape_match _ _ _ _ Hshape').
    + injection Hq as _ Hq.
      apply (IH (length s) (Nat.lt_succ_diag_r _) s eq_refl).
      now exists q, x.
Qed.

(** The Callback Repairer leaves its own output as it is. *)
Theorem callback_repairer_idempotent (s : text) :
  callback_repairer uni_alnum (callback_repairer uni_alnum s)
  = callback_repairer uni_alnum s.
Proof.
  apply callback_repairer_unchanged, callback_repairer_clean.
Qed.

End CallbackScan.

(** ** Running a pass twice (C1) *)

Lemma once_lookup {A} (pass : Os.path → Os.io A) f file_path w content :
  computes pass f → Os.files w !! file_path = Some content →
  once (pass file_path) w !! file_path = Some (f content).
Proof. intros Hpass Hread. now apply Hpass. Qed.

Lemma twice_lookup {A} (pass : Os.path → Os.io A) f file_path w content :
  computes pass f → Os.files w !! file_path = Some content →
  twice (pass file_path) w !! file_path = Some (f (f content)).
Proof.
  intros Hpass Hread. unfold twice. apply Hpass. now apply Hpass.
Qed.

Lemma one_file_lookup file_path content :
  Os.files (one_file file_path content) !! file_path = Some content.
Proof. apply lookup_singleton_eq. Qed.

Lemma differ_on_file {A} (pass : Os.path → Os.io A) f file_path content :
  computes pass f → f (f content) ≠ f content →
  twice (pass file_path) (one_file file_path content)
  ≠ once (pass file_path) (one_file file_path content).
Proof.
  intros Hpass Hne Heq. apply Hne.
  pose proof (twice_lookup pass f file_path _ content Hpass
                (one_file_lookup file_path content)) as H2.
  pose proof (once_lookup pass f file_path _ content Hpass
                (one_file_lookup file_path content)) as H1.
  rewrite Heq, H1 in H2. now injection H2.
Qed.

Lemma import_repairer_computes uni_alnum :
  computes (FixAllImports.fix_file uni_alnum) (import_repairer uni_alnum).
Proof. intros p w c. apply import_fix_file_content. Qed.

Lemma declaration_repairer_computes :
  computes FixImports.fix_file declaration_repairer.
Proof. intros p w c. apply declaration_fix_file_content. Qed.


(** ** Lines *)

Lemma split_nonempty (s : text) : Py.split 10 s ≠ [].
Proof.
  induction s as [|c s IH]; cbn; [discriminate|].
  destruct (c =? 10); [discriminate|].
  destruct (Py.split 10 s); [contradiction | discriminate].
Qed.

Lemma join_cons (sep l : text) (ls : list text) :
  ls ≠ [] → Py.join sep (l :: ls) = l ++ sep ++ Py.join sep ls.
Proof. destruct ls; [contradiction | reflexivity]. Qed.

Lemma join_split (s : text) : Py.join nl (Py.split 10 s) = s.
Proof.
  induction s as [|c s IH]; [reflexivity|]. cbn [Py.split].
  destruct (N.eqb_spec c 10) as [->|Hc].
  - rewrite join_cons by apply split_nonempty. now rewrite IH.
  - pose proof (split_nonempty s) as Hne.
    destruct (Py.split 10 s) as [|l ls]; [contradiction|].
    destruct ls as [|l' ls].
    + cbn in IH |- *. now rewrite IH.
    + rewrite join_cons in IH |- * by discriminate.
      cbn [app]. now rewrite IH.
Qed.

Lemma split_no_newline (s : text) : Forall no_newline (Py.split 10 s).
Proof.
  induction s as [|c s IH]; cbn [Py.split]; [repeat constructor|].
  destruct (N.eqb_spec c 10) as [->|Hc]; [constructor; [constructor|exact IH]|].
  destruct (Py.split 10 s) as [|l ls]; [repeat constructor; exact Hc|].
  inversion IH; subst. constructor; [now constructor | assumption].
Qed.

Lemma split_line (l : text) : no_newline l → Py.split 10 l = [l].
Proof.
  intros Hl. induction Hl as [|c l Hc _ IH]; [reflexivity|].
  cbn [Py.split]. apply N.eqb_neq in Hc. now rewrite Hc, IH.
Qed.

Lemma split_line_app (l s : text) :
  no_newline l → Py.split 10 (l ++ 10 :: s) = l :: Py.split 10 s.
Proof.
  intros Hl. induction Hl as [|c l Hc _ IH]; [reflexivity|].
  cbn [Py.split app]. apply N.eqb_neq in Hc. now rewrite Hc, IH.
Qed.

Lemma split_join (ls : list text) :
  ls ≠ [] → Forall no_newline ls → Py.split 10 (Py.join nl ls) = ls.
Proof.
  intros Hne Hall. induction Hall as [|l ls Hl Hls IH]; [contradiction|].
  destruct ls as [|l' ls]; [now apply split_line|].
  rewrite join_cons by discriminate.
  change (l ++ nl ++ Py.join nl (l' :: ls))
    with (l ++ 10 :: Py.join nl (l' :: ls)).
  rewrite split_line_app by exact Hl. f_equal. now apply IH.
Qed.

(** An occurrence of [x] in a text does not reach across a character
    that [x] does not have. *)
Lemma contains_separated (x a b : text) (c : N) :
  c ∉ x → Py.contains x (a ++ c :: b) = true →
  Py.contains x a = true ∨ Py.contains x b = true.
Proof.
  intros Hc. rewrite !contains_spec. intros (a1 & b1 & Heq).
  apply app_eq_inv in Heq as [(k & -> & Heq)|(k & -> & Heq)].
  - left. apply app_eq_inv in Heq as [(k2 & -> & Heq)|(k2 & -> & Heq)].
    + destruct k2 as [|d k2].
      * exists a1, []. now rewrite !app_nil_r.
      * injection Heq as <- _. exfalso. apply Hc.
        apply elem_of_app. right. now left.
    + exists a1, k2. now rewrite <- ?app_assoc.
  - right. destruct k as [|d k].
    + destruct x as [|d x]; [exists [], b; reflexivity|].
      injection Heq as -> _. exfalso. apply Hc. now left.
    + injection Heq as _ ->. now exists k, b1.
Qed.

Lemma contains_nil (x : text) : x ≠ [] → Py.contains x [] = false.
Proof. destruct x; [contradiction | reflexivity]. Qed.

Lemma contains_join_inv (x : text) (ls : list text) :
  x ≠ [] → 10 ∉ x → Py.contains x (Py.join nl ls) = true →
  Exists (fun l => Py.contains x l = true) ls.
Proof.
  intros Hne Hx. induction ls as [|l ls IH]; cbn [Py.join].
  - now rewrite contains_nil.
  - destruct ls as [|l' ls]; [intros H; now left|].
    change (l ++ nl ++ Py.join nl (l' :: ls))
      with (l ++ 10 :: Py.join nl (l' :: ls)).
    intros H. apply contains_separated in H as [H|H]; [now left| |exact Hx].
    right. now apply IH.
Qed.

(** ** The Declaration Repairer on a text with one marker line *)

Lemma misplaced_clean (lines : list text) (i : nat) (line : text) :
  clean_line line → FixImports.misplaced lines i line = false.
Proof. intros Hl. unfold FixImports.misplaced. now rewrite Hl. Qed.

Lemma scan_clean (lines l1 : list text) :
  Forall clean_line l1 →
  ∀ i rest new_lines hit,
    FixImports.scan lines i (l1 ++ rest) new_lines hit
    = FixImports.scan lines (i + length l1) rest (new_lines ++ l1) hit.
Proof.
  intros Hall. induction Hall as [|l l1 Hl _ IH]; intros i rest new_lines hit.
  - cbn. now rewrite Nat.add_0_r, app_nil_r.
  - cbn [app FixImports.scan length]. rewrite misplaced_clean by exact Hl.
    rewrite IH. f_equal; [lia|]. now rewrite <- app_assoc.
Qed.

Lemma scan_all_clean (lines l1 : list text) (i : nat) new_lines hit :
  Forall clean_line l1 →
  FixImports.scan lines i l1 new_lines hit = (new_lines ++ l1, hit).
Proof.
  intros Hall. rewrite <- (app_nil_r l1) at 1.
  now rewrite scan_clean.
Qed.

(** At most one element of a list satisfies [p]. *)
Lemma filter_at_most_one {A} (p : A → bool) (l : list A) :
  (length (filter (fun x => p x = true) l) ≤ 1)%nat →
  Forall (fun x => p x = false) l
  ∨ ∃ l1 x l2, l = l1 ++ x :: l2 ∧ p x = true
      ∧ Forall (fun x => p x = false) l1 ∧ Forall (fun x => p x = false) l2.
Proof.
  induction l as [|x l IH]; [left; constructor|].
  rewrite filter_cons. destruct (p x) eqn:Hx.
  - rewrite decide_True by reflexivity. cbn [length]. intros Hlen.
    assert (Hall : Forall (fun x => p x = false) l).
    { apply Forall_forall. intros y Hy.
      destruct (p y) eqn:Hpy; [|reflexivity]. exfalso.
      assert (Hin : y ∈ filter (fun x => p x = true) l)
        by (apply list_elem_of_filter; auto).
      destruct (filter (fun x => p x = true) l); [now apply elem_of_nil in Hin|].
      cbn in Hlen. lia. }
    right. exists [], x, l. repeat split; auto.
  - rewrite decide_False by congruence. intros Hlen.
    destruct (IH Hlen) as [Hall|(l1 & y & l2 & -> & Hy & H1 & H2)].
    + left. now constructor.
    + right. exists (x :: l1), y, l2. repeat split; auto.
Qed.

Lemma last_index_bound {A} (p : nat → A → bool) (l : list A) :
  ∀ i j, Py.last_index_from p i l None = Some j → (j < i + length l)%nat.
Proof.
  assert (Hgen : ∀ i idx j,
            Py.last_index_from p i l idx = Some j →
            (j < i + length l)%nat ∨ idx = Some j).
  { induction l as [|x l IH]; intros i idx j; cbn; [now right|].
    intros H. apply IH in H as [H|H]; [left; lia|].
    destruct (p i x); [injection H as <-; left; lia | now right]. }
  intros i j H. apply Hgen in H as [H|H]; [exact H | discriminate].
Qed.

Lemma marker_no_newline : 10 ∉ FixImports.marker.
Proof.
  intros H. vm_compute in H.
  repeat (apply elem_of_cons in H as [H|H]; [discriminate H|]).
  now apply elem_of_nil in H.
Qed.

Lemma fix_lines_unfold (content : text) (new_lines : list text) hit :
  FixImports.scan (Py.split 10 content) 0 (Py.split 10 content) [] None
  = (new_lines, hit) →
  FixImports.fix_lines content
  = Py.join nl
      match hit with
      | Some ((_ :: _) as line) =>
          match Py.last_index_from (FixImports.ends_import new_lines) 0
                  new_lines None with
          | Some last_import_idx =>
              Py.list_insert (last_import_idx + 1) line new_lines
          | None => new_lines
          end
      | _ => new_lines
      end.
Proof. intros H. unfold FixImports.fix_lines. now rewrite H. Qed.

(** Once the marker line sits behind the last import line, the
    Declaration Repairer leaves the text as it is. *)
Lemma declaration_repairer_settled (new_lines : list text) (h : text) (j : nat) :
  Forall clean_line new_lines → Forall no_newline new_lines →
  Py.contains FixImports.marker h = true → no_newline h →
  Py.last_index_from (FixImports.ends_import new_lines) 0 new_lines None
  = Some j →
  declaration_repairer (Py.join nl (Py.list_insert (j + 1) h new_lines))
  = Py.join nl (Py.list_insert (j + 1) h new_lines).
Proof.
  intros Hclean Hnl Hh Hhnl Hj.
  pose proof (last_index_bound _ _ _ _ Hj) as Hbound. cbn in Hbound.
  set (out := Py.list_insert (j + 1) h new_lines).
  assert (Hout : out = take (j + 1) new_lines ++ h :: drop (j + 1) new_lines)
    by reflexivity.
  assert (Hin : Py.contains FixImports.marker (Py.join nl out) = true).
  { apply (contains_join _ _ h); [|exact Hh].
    rewrite Hout. apply elem_of_app. right. now left. }
  assert (Hsplit : Py.split 10 (Py.join nl out) = out).
  { apply split_join.
    - rewrite Hout. destruct (take (j + 1) new_lines); discriminate.
    - rewrite Hout. apply Forall_app. split; [now apply Forall_take|].
      constructor; [exact Hhnl | now apply Forall_drop]. }
  unfold declaration_repairer. rewrite Hin. cbn [negb].
  assert (Hscan :
    FixImports.scan out 0 out [] None
    = if FixImports.misplaced out (j + 1) h
      then (new_lines, Some h) else (out, None)).
  { rewrite Hout at 2. rewrite scan_clean by now apply Forall_take.
    rewrite length_take, Nat.min_l by lia. cbn [FixImports.scan app plus].
    destruct (FixImports.misplaced out (j + 1) h).
    - rewrite scan_all_clean by now apply Forall_drop.
      now rewrite take_drop.
    - rewrite scan_all_clean by now apply Forall_drop.
      now rewrite Hout, <- app_assoc. }
  rewrite <- Hsplit in Hscan at 1 2.
  destruct (FixImports.misplaced out (j + 1) h);
    rewrite (fix_lines_unfold _ _ _ Hscan); [|reflexivity].
  destruct h as [|c h]; [discriminate Hh|]. now rewrite Hj.
Qed.

(** The Declaration Repairer run on its own output changes nothing when
    the text has at most one line with the HIT_SLOP import. *)
Lemma declaration_repairer_single (content : text) :
  (length (marker_lines content) ≤ 1)%nat →
  declaration_repairer (declaration_repairer content)
  = declaration_repairer content.
Proof.
  intros Hone.
  destruct (Py.contains FixImports.marker content) eqn:Hc.
  2:{ unfold declaration_repairer. rewrite Hc. cbn [negb]. now rewrite Hc. }
  assert (Hrep : declaration_repairer content = FixImports.fix_lines content)
    by (unfold declaration_repairer; now rewrite Hc).
  assert (Hsame : FixImports.fix_lines content = content →
                  declaration_repairer (declaration_repairer content)
                  = declaration_repairer content).
  { intros Heq. now rewrite Hrep, Heq, Hrep, Heq. }
  pose proof (split_no_newline content) as Hnl.
  pose proof (join_split content) as Hjoin.
  apply filter_at_most_one in Hone
    as [Hall|(l1 & h & l2 & Hlines & Hh & Hl1 & Hl2)].
  - apply Hsame.
    rewrite (fix_lines_unfold content (Py.split 10 content) None);
      [exact Hjoin|].
    now rewrite scan_all_clean.
  - rewrite Hlines in Hnl.
    apply Forall_app in Hnl as [Hnl1 Hnl2].
    apply Forall_cons in Hnl2 as [Hhnl Hnl2].
    assert (Hscan :
      FixImports.scan (Py.split 10 content) 0 (Py.split 10 content) [] None
      = if FixImports.misplaced (Py.split 10 content) (length l1) h
        then (l1 ++ l2, Some h) else (Py.split 10 content, None)).
    { rewrite Hlines at 2. rewrite scan_clean by exact Hl1.
      cbn [FixImports.scan app plus].
      destruct (FixImports.misplaced (Py.split 10 content) (length l1) h);
        rewrite scan_all_clean by exact Hl2; [reflexivity|].
      now rewrite Hlines, <- app_assoc. }
    destruct (FixImports.misplaced (Py.split 10 content) (length l1) h).
    2:{ apply Hsame. now rewrite (fix_lines_unfold _ _ _ Hscan). }
    rewrite Hrep, (fix_lines_unfold _ _ _ Hscan).
    destruct h as [|c h]; [discriminate Hh|].
    destruct (Py.last_index_from (FixImports.ends_import (l1 ++ l2)) 0
                (l1 ++ l2) None) as [j|] eqn:Hj.
    + apply declaration_repairer_settled; try assumption.
      * now apply Forall_app.
      * now apply Forall_app.
    + assert (Hout : Py.contains FixImports.marker (Py.join nl (l1 ++ l2))
                     = false).
      { destruct (Py.contains FixImports.marker (Py.join nl (l1 ++ l2)))
          eqn:Hm; [|reflexivity].
        apply contains_join_inv in Hm;
          [|discriminate|exact marker_no_newline].
        apply Exists_exists in Hm as (l & Hl & Hm).
        assert (Hcl : Forall clean_line (l1 ++ l2)) by now apply Forall_app.
        rewrite Forall_forall in Hcl. apply Hcl in Hl.
        unfold clean_line in Hl. congruence. }
      unfold declaration_repairer. now rewrite Hout.
Qed.

(** ** Counting the occurrences of the marker constant *)

Section Counting.

Variable x : text.
Hypothesis x_nonempty : x ≠ [].

Lemma startswith_nil : Py.startswith x [] = false.
Proof. destruct x; [contradiction | reflexivity]. Qed.

Lemma startswith_separated (a b : text) (c : N) :
  c ∉ x → Py.startswith x (a ++ c :: b) = Py.startswith x a.
Proof.
  clear x_nonempty. revert a.
  induction x as [|e x' IH]; intros a Hc; [reflexivity|].
  destruct a as [|d a]; cbn.
  - destruct (N.eqb_spec e c) as [->|_]; [|reflexivity].
    exfalso. apply Hc. now left.
  - rewrite IH; [reflexivity|]. intros Hin. apply Hc. now right.
Qed.

Lemma count_nil : count_occurrences x [] = 0%nat.
Proof. cbn [count_occurrences]. now rewrite startswith_nil. Qed.

Lemma count_cons_separator (c : N) (s : text) :
  c ∉ x → count_occurrences x (c :: s) = count_occurrences x s.
Proof.
  intros Hc. cbn [count_occurrences].
  change (c :: s) with ([] ++ c :: s).
  now rewrite startswith_separated, startswith_nil.
Qed.

Lemma count_separated (a b : text) (c : N) :
  c ∉ x →
  count_occurrences x (a ++ c :: b)
  = (count_occurrences x a + count_occurrences x b)%nat.
Proof.
  intros Hc. induction a as [|d a IH].
  - cbn [app]. now rewrite count_cons_separator, count_nil.
  - cbn [app count_occurrences]. rewrite IH.
    change (d :: a ++ c :: b) with ((d :: a) ++ c :: b).
    rewrite startswith_separated by exact Hc. lia.
Qed.

Lemma count_separators_app (sep b : text) :
  separators x sep → count_occurrences x (sep ++ b) = count_occurrences x b.
Proof.
  intros Hs. induction Hs as [|c sep Hc _ IH]; [reflexivity|].
  cbn [app]. now rewrite count_cons_separator.
Qed.

Lemma count_separators (sep : text) :
  separators x sep → count_occurrences x sep = 0%nat.
Proof.
  intros Hs. rewrite <- (app_nil_r sep), count_separators_app by exact Hs.
  apply count_nil.
Qed.

Lemma count_app_separators (a sep : text) :
  separators x sep → count_occurrences x (a ++ sep) = count_occurrences x a.
Proof.
  intros Hs. destruct Hs as [|c sep Hc Hs]; [now rewrite app_nil_r|].
  rewrite count_separated by exact Hc.
  rewrite (count_separators sep) by exact Hs. lia.
Qed.

Lemma count_head (s : text) :
  Py.startswith x s = true → (1 ≤ count_occurrences x s)%nat.
Proof. intros H. destruct s; cbn [count_occurrences]; rewrite H; lia. Qed.

Lemma count_occurrence (a b : text) :
  (1 ≤ count_occurrences x (a ++ x ++ b))%nat.
Proof.
  induction a as [|d a IH]; cbn [app].
  - apply count_head, startswith_spec. now exists b.
  - cbn [count_occurrences]. lia.
Qed.

(** A text in which [x] starts at most once has one way to be split
    around [x]. *)
Lemma count_unique (s a b a' b' : text) :
  (count_occurrences x s ≤ 1)%nat →
  s = a ++ x ++ b → s = a' ++ x ++ b' → a = a'.
Proof.
  revert s a'. induction a as [|d a IH]; intros s a' Hs Ha Has.
  - destruct a' as [|d' a']; [reflexivity|]. exfalso.
    assert (H : Py.startswith x s = true)
      by (apply startswith_spec; now exists b).
    rewrite Has in Hs, H. cbn [app count_occurrences] in Hs, H.
    rewrite H in Hs. pose proof (count_occurrence a' b'). lia.
  - destruct a' as [|d' a'].
    + exfalso.
      assert (H : Py.startswith x s = true)
        by (apply startswith_spec; now exists b').
      rewrite Ha in Hs, H. cbn [app count_occurrences] in Hs, H.
      rewrite H in Hs. pose proof (count_occurrence a b). lia.
    + rewrite Ha in Has, Hs. cbn [app] in Has. injection Has as -> Has.
      f_equal. apply (IH (a ++ x ++ b) a'); [|reflexivity|exact Has].
      cbn [app count_occurrences] in Hs. lia.
Qed.

Lemma count_contains (s : text) :
  Py.contains x s = true → (1 ≤ count_occurrences x s)%nat.
Proof.
  intros H. apply contains_spec in H as (a & b & ->).
  apply count_occurrence.
Qed.

End Counting.

Lemma split_last (p : N → bool) (a a' b b' : text) (c c' : N) :
  Forall (fun x => p x = true) b → Forall (fun x => p x = true) b' →
  p c = false → p c' = false →
  a ++ c :: b = a' ++ c' :: b' →
  a = a' ∧ c = c' ∧ b = b'.
Proof.
  intros Hb Hb' Hc Hc' Heq.
  apply (f_equal (@rev N)) in Heq.
  rewrite !rev_app_distr in Heq. cbn [rev] in Heq.
  rewrite <- !app_assoc in Heq. cbn [app] in Heq.
  apply (split_first p) in Heq as (Hr & -> & Hr');
    [|now apply Forall_rev|now apply Forall_rev|assumption..].
  apply (f_equal (@rev N)) in Hr, Hr'. rewrite !rev_involutive in Hr, Hr'.
  now subst.
Qed.

(** The scan of [re.sub] up to the first match. *)
Lemma sub_first_match uni_alnum (r : Re.regex) (repl : Re.match_obj → text)
    (s : text) :
  (∀ s' m, Re.match_at uni_alnum r s' = Some m → Re.group0 m ≠ []) →
  Re.sub uni_alnum r repl s = s
  ∨ ∃ before m,
      s = before ++ Re.group0 m ++ Re.rest m
      ∧ is_match uni_alnum r m
      ∧ Re.sub uni_alnum r repl s
        = before ++ repl m ++ Re.sub uni_alnum r repl (Re.rest m).
Proof.
  intros Hne. induction s as [|c s IH].
  - destruct (Re.match_at uni_alnum r []) as [m|] eqn:Hm.
    + right. exists [], m. pose proof (match_at_sound _ _ _ _ Hm) as [Hs Him].
      split; [exact Hs|]. split; [exact Him|].
      apply sub_match; [exact Hm | now apply (Hne [])].
    + left. now apply sub_nil.
  - destruct (Re.match_at uni_alnum r (c :: s)) as [m|] eqn:Hm.
    + right. exists [], m. pose proof (match_at_sound _ _ _ _ Hm) as [Hs Him].
      split; [exact Hs|]. split; [exact Him|].
      apply sub_match; [exact Hm | now apply (Hne (c :: s))].
    + rewrite sub_cons_none by exact Hm.
      destruct IH as [->|(before & m & Hs & Him & Hout)]; [now left|].
      right. exists (c :: before), m.
      split; [now rewrite Hs at 1|]. split; [exact Him|]. now rewrite Hout.
Qed.

(** ** The Import Repairer on a text with one HIT_SLOP *)

Lemma not_in_hit_slop (c : N) :
  existsb (N.eqb c) hit_slop = false → c ∉ hit_slop.
Proof.
  intros H Hin. apply not_true_iff_false in H. apply H.
  apply existsb_exists. exists c. split; [now apply list_elem_of_In|].
  apply N.eqb_refl.
Qed.

Lemma literal_separators (s : text) :
  forallb (fun c => negb (existsb (N.eqb c) hit_slop)) s = true →
  separators hit_slop s.
Proof.
  intros H. apply Forall_forall. intros c Hc.
  rewrite forallb_forall in H. apply list_elem_of_In, H in Hc.
  apply not_in_hit_slop. now apply negb_true_iff.
Qed.

Lemma space_not_in_hit_slop (c : N) : Py.isspace c = true → c ∉ hit_slop.
Proof.
  intros Hc Hin. vm_compute in Hin.
  repeat (apply elem_of_cons in Hin as [->|Hin]; [discriminate Hc|]).
  now apply elem_of_nil in Hin.
Qed.

Lemma spaces_separators (s : text) : spaces s → separators hit_slop s.
Proof.
  intros Hs. eapply Forall_impl; [exact Hs|]. apply space_not_in_hit_slop.
Qed.

Lemma quote_not_in_hit_slop (q : N) : is_quote q → q ∉ hit_slop.
Proof.
  intros Hq. apply not_in_hit_slop.
  unfold is_quote, quotes in Hq. cbn in Hq.
  apply elem_of_cons in Hq as [->|Hq]; [reflexivity|].
  apply list_elem_of_singleton in Hq as ->. reflexivity.
Qed.

Lemma separators_app (x a b : text) :
  separators x (a ++ b) ↔ separators x a ∧ separators x b.
Proof. apply Forall_app. Qed.

(** The occurrences of HIT_SLOP in a text made of a text [before], a run
    of separators, HIT_SLOP, separators, a quoted [path], separators, a
    text [inner], a separator and a text [tail]. *)
Lemma count_around_marker (before s1 s2 path s3 inner tail : text)
    (c0 q1 q2 c3 : N) :
  c0 ∉ hit_slop → q1 ∉ hit_slop → q2 ∉ hit_slop → c3 ∉ hit_slop →
  separators hit_slop s1 → separators hit_slop s2 → separators hit_slop s3 →
  count_occurrences hit_slop
    (before ++ c0 :: s1 ++ hit_slop ++ s2 ++ q1 :: path ++ q2 :: s3
     ++ inner ++ c3 :: tail)
  = (count_occurrences hit_slop before + 1 + count_occurrences hit_slop path
     + count_occurrences hit_slop inner + count_occurrences hit_slop tail)%nat.
Proof.
  intros Hc0 Hq1 Hq2 Hc3 Hs1 Hs2 Hs3.
  assert (Hne : hit_slop ≠ []) by discriminate.
  rewrite (count_separated _ Hne) by exact Hc0.
  rewrite (count_separators_app _ Hne) by exact Hs1.
  rewrite (app_assoc hit_slop s2).
  rewrite (count_separated _ Hne) by exact Hq1.
  rewrite (count_app_separators _ Hne) by exact Hs2.
  rewrite (count_separated _ Hne) by exact Hq2.
  rewrite (count_separators_app _ Hne) by exact Hs3.
  rewrite (count_separated _ Hne) by exact Hc3.
  change (count_occurrences hit_slop hit_slop) with 1%nat. lia.
Qed.

(** The same for the repaired text: [inner] comes first. *)
Lemma count_around_moved_marker (before s1 inner s2 s3 path tail : text)
    (c0 c1 q1 q2 c3 : N) :
  c0 ∉ hit_slop → c1 ∉ hit_slop → q1 ∉ hit_slop → q2 ∉ hit_slop →
  c3 ∉ hit_slop →
  separators hit_slop s1 → separators hit_slop s2 → separators hit_slop s3 →
  count_occurrences hit_slop
    (before ++ c0 :: s1 ++ inner ++ c1 :: s2 ++ hit_slop ++ s3 ++ q1 :: path
     ++ q2 :: c3 :: tail)
  = (count_occurrences hit_slop before + 1 + count_occurrences hit_slop path
     + count_occurrences hit_slop inner + count_occurrences hit_slop tail)%nat.
Proof.
  intros Hc0 Hc1 Hq1 Hq2 Hc3 Hs1 Hs2 Hs3.
  assert (Hne : hit_slop ≠ []) by discriminate.
  rewrite (count_separated _ Hne) by exact Hc0.
  rewrite (count_separators_app _ Hne) by exact Hs1.
  rewrite (count_separated _ Hne) by exact Hc1.
  rewrite (count_separators_app _ Hne) by exact Hs2.
  rewrite (app_assoc hit_slop s3).
  rewrite (count_separated _ Hne) by exact Hq1.
  rewrite (count_app_separators _ Hne) by exact Hs3.
  rewrite (count_separated _ Hne) by exact Hq2.
  rewrite (count_cons_separator _ Hne) by exact Hc3.
  change (count_occurrences hit_slop hit_slop) with 1%nat. lia.
Qed.

(** A corrupted import, spelled out around its HIT_SLOP. *)
Lemma corrupted_import_parts (start path rest_of_import t : text) :
  corrupted_import start path rest_of_import t →
  ∃ v s1 s2 s3 q1 q2 inner,
    spaces v
    ∧ start = u "import" ++ v ++ u "{"
    ∧ rest_of_import = inner ++ u ";"
    ∧ separators hit_slop s1 ∧ separators hit_slop s2
    ∧ separators hit_slop s3 ∧ is_quote q1 ∧ is_quote q2
    ∧ t = start ++ s1 ++ hit_slop ++ s2 ++ q1 :: path ++ q2 :: s3
          ++ rest_of_import
    ∧ ∃ w0 w1 w2,
        spaces w0 ∧ spaces w1 ∧ spaces w2
        ∧ s1 = w0 ++ nl ++ u "import" ++ w1 ++ u "{" ++ w2.
Proof.
  intros (w0 & line & w6 & (v & Hv & Hv' & ->)
          & (w1 & w2 & w3 & w4 & w5 & q1 & q2 & Hw1 & Hw1' & Hw2 & Hw3 & Hw4
             & Hw4' & Hw5 & Hw5' & Hq1 & Hq2 & Hpath & Hpath' & ->)
          & (x1 & members & x2 & x3 & q3 & module & q4 & Hx1 & Hx1' & Hmem
             & Hmem' & Hx2 & Hx2' & Hx3 & Hx3' & Hq3 & Hq4 & Hmod & Hmod'
             & ->)
          & Hw0 & Hw6 & ->).
  exists v, (w0 ++ nl ++ u "import" ++ w1 ++ u "{" ++ w2),
    (w3 ++ u "}" ++ w4 ++ u "from" ++ w5), (u ";" ++ w6 ++ nl), q1, q2,
    (x1 ++ members ++ nl ++ u "}" ++ x2 ++ u "from" ++ x3 ++ [q3] ++ module
     ++ [q4]).
  split; [exact Hv|]. split; [reflexivity|].
  split; [now text_norm|].
  split; [|split; [|split; [|split; [exact Hq1|split; [exact Hq2|split]]]]].
  - rewrite !separators_app.
    repeat split; try (now apply spaces_separators);
      apply literal_separators; reflexivity.
  - rewrite !separators_app.
    repeat split; try (now apply spaces_separators);
      apply literal_separators; reflexivity.
  - rewrite !separators_app.
    repeat split; try (now apply spaces_separators);
      apply literal_separators; reflexivity.
  - unfold hit_slop. text_norm. reflexivity.
  - exists w0, w1, w2. repeat split; assumption.
Qed.

Lemma import_occurs_contains (s : text) :
  import_occurs s → Py.contains hit_slop s = true.
Proof.
  intros (pre & s' & -> & start & path & rest & t & tail & -> & Hshape).
  apply corrupted_import_parts in Hshape
    as (v & s1 & s2 & s3 & q1 & q2 & inner & _ & _ & _ & _ & _ & _ & _ & _
        & -> & _).
  apply contains_spec.
  exists (pre ++ start ++ s1),
    (s2 ++ q1 :: path ++ q2 :: s3 ++ rest ++ tail).
  text_norm. reflexivity.
Qed.

Section ImportSingle.

Variable uni_alnum : N → bool.

Lemma import_match_nonempty (s : text) (m : Re.match_obj) :
  Re.match_at uni_alnum FixAllImports.pattern s = Some m → Re.group0 m ≠ [].
Proof.
  intros Hm. apply match_at_sound in Hm as [_ Hm].
  apply import_match_shape in Hm as (start & path & rest & Hshape & _).
  now apply corrupted_import_nonempty in Hshape.
Qed.

(** The repaired text holds no corrupted import when HIT_SLOP occurs in it
    only once: the line before its HIT_SLOP import ends with ';'. *)
Lemma repaired_import_clean (before start path inner tail v : text) :
  spaces v → start = u "import" ++ v ++ u "{" →
  (count_occurrences hit_slop
     (before ++ repaired_import start path (inner ++ u ";") ++ tail) ≤ 1)%nat →
  ¬ import_occurs
      (before ++ repaired_import start path (inner ++ u ";") ++ tail).
Proof.
  intros Hv Hstart Hone (a & s' & HO & start2 & path2 & rest2 & t2 & b & ->
                         & Hshape2).
  apply corrupted_import_parts in Hshape2
    as (v2 & s1 & s2 & s3 & q1 & q2 & inner2 & Hv2 & -> & _ & _ & _ & _ & _
        & _ & -> & w0 & w1 & w2 & Hw0 & Hw1 & Hw2 & ->).
  assert (Hne : hit_slop ≠ []) by discriminate.
  assert (Hp :
    a ++ (u "import" ++ v2 ++ u "{") ++ w0 ++ nl ++ u "import" ++ w1 ++ u "{"
      ++ w2
    = before ++ start ++ nl ++ inner ++ u ";" ++ nl ++ u "import { ").
  { eapply (count_unique hit_slop _ _ _ _ _ Hone).
    - rewrite HO. text_norm. reflexivity.
    - unfold repaired_import, hit_slop.
      change (u "import { HIT_SLOP } from '")
        with (u "import { " ++ u "HIT_SLOP" ++ u " } from '").
      text_norm. reflexivity. }
  assert (Hp1 :
    a ++ (u "import" ++ v2 ++ u "{") ++ w0 ++ nl ++ u "import" ++ w1
    = before ++ start ++ nl ++ inner ++ u ";" ++ nl ++ u "import ").
  { apply (split_last Py.isspace _ _ w2 (u " ") 123 123);
      [exact Hw2 | repeat constructor | reflexivity | reflexivity |].
    etransitivity; [|etransitivity; [exact Hp|]]; text_norm; reflexivity. }
  assert (Hp2 :
    (a ++ (u "import" ++ v2) ++ 123 :: w0 ++ nl) ++ u "impor"
    = (before ++ start ++ nl ++ inner ++ u ";" ++ nl) ++ u "impor").
  { apply (split_last Py.isspace _ _ w1 (u " ") 116 116);
      [exact Hw1 | repeat constructor | reflexivity | reflexivity |].
    etransitivity; [|etransitivity; [exact Hp1|]]; text_norm; reflexivity. }
  apply app_inv_tail in Hp2.
  assert (Hp3 :
    (a ++ u "import" ++ v2) ++ 123 :: (w0 ++ nl)
    = (before ++ start ++ nl ++ inner) ++ 59 :: nl).
  { etransitivity; [|etransitivity; [exact Hp2|]]; text_norm; reflexivity. }
  apply (split_last Py.isspace) in Hp3 as (_ & Hc & _);
    [discriminate Hc | | repeat constructor | reflexivity | reflexivity].
  apply Forall_app. split; [exact Hw0 | repeat constructor].
Qed.

(** The Import Repairer run on its own output changes nothing when
    HIT_SLOP occurs at most once in the text. *)
Lemma import_repairer_single (s : text) :
  (count_occurrences hit_slop s ≤ 1)%nat →
  import_repairer uni_alnum (import_repairer uni_alnum s)
  = import_repairer uni_alnum s.
Proof.
  intros Hone. unfold import_repairer at 2 3.
  destruct (sub_first_match uni_alnum FixAllImports.pattern
              FixAllImports.fix_import s import_match_nonempty)
    as [Hsame|(before & m & Hs & Him & Hout)].
  { rewrite Hsame. exact Hsame. }
  apply import_match_shape in Him
    as (start & path & rest & Hshape & Hg1 & Hg2 & Hg3).
  assert (Hrepl : FixAllImports.fix_import m = repaired_import start path rest).
  { unfold FixAllImports.fix_import, repaired_import, Re.group.
    now rewrite Hg1, Hg2, Hg3. }
  apply corrupted_import_parts in Hshape
    as (v & s1 & s2 & s3 & q1 & q2 & inner & Hv & Hstart & -> & Hs1 & Hs2
        & Hs3 & Hq1 & Hq2 & Ht & _).
  assert (Hne : hit_slop ≠ []) by discriminate.
  assert (Hcount :
    count_occurrences hit_slop s
    = (count_occurrences hit_slop before + 1
       + count_occurrences hit_slop path + count_occurrences hit_slop inner
       + count_occurrences hit_slop (Re.rest m))%nat).
  { rewrite <- (count_around_marker before
                  (u "mport" ++ v ++ u "{" ++ s1) s2 path s3 inner (Re.rest m)
                  105 q1 q2 59);
      try (apply not_in_hit_slop; reflexivity);
      try (now apply quote_not_in_hit_slop); try assumption.
    - f_equal. rewrite Hs, Ht, Hstart. text_norm. reflexivity.
    - rewrite !separators_app.
      repeat split; try (now apply spaces_separators); try assumption;
        apply literal_separators; reflexivity. }
  assert (Htail : import_repairer uni_alnum (Re.rest m) = Re.rest m).
  { apply import_repairer_unchanged. intros Hocc.
    apply import_occurs_contains, count_contains in Hocc. lia. }
  fold (import_repairer uni_alnum (Re.rest m)) in Hout.
  rewrite Hout, Hrepl, Htail.
  apply import_repairer_unchanged.
  apply (repaired_import_clean _ _ _ _ _ v Hv Hstart).
  assert (Hcount' :
    count_occurrences hit_slop
      (before ++ repaired_import start path (inner ++ u ";") ++ Re.rest m)
    = (count_occurrences hit_slop before + 1
       + count_occurrences hit_slop path + count_occurrences hit_slop inner
       + count_occurrences hit_slop (Re.rest m))%nat).
  { rewrite <- (count_around_moved_marker before
                  (u "mport" ++ v ++ u "{" ++ nl) inner (nl ++ u "import { ")
                  (u " } from ") path (Re.rest m) 105 59 39 39 59);
      try (apply not_in_hit_slop; reflexivity).
    - f_equal. unfold repaired_import, hit_slop. rewrite Hstart.
      change (u "import { HIT_SLOP } from '")
        with (u "import { " ++ u "HIT_SLOP" ++ u " } from " ++ [39]).
      text_norm. reflexivity.
    - rewrite !separators_app.
      repeat split; try (now apply spaces_separators);
        apply literal_separators; reflexivity.
    - apply literal_separators. reflexivity.
    - apply literal_separators. reflexivity. }
  lia.
Qed.

End ImportSingle.

(** ** Running a pass twice: what holds (C1) *)

(** A pass that touches one file and leaves in it a text its text
    function maps to itself changes nothing when it is run again. *)
Lemma same_on_files {A} (pass : Os.io A) (f : text → text)
    (file_path : Os.path) (w : Os.world) (content : text) :
  (∀ w' c, Os.files w' !! file_path = Some c →
           content_after pass file_path w' = Some (f c)) →
  only_touches pass file_path →
  Os.files w !! file_path = Some content →
  f (f content) = f content →
  twice pass w = once pass w.
Proof.
  intros Hpass Hframe Hread Hidem. apply map_eq. intros q.
  unfold twice, once.
  destruct (decide (q = file_path)) as [->|Hq].
  - pose proof (Hpass w content Hread) as H1. unfold content_after in H1.
    pose proof (Hpass _ _ H1) as H2. unfold content_after in H2.
    now rewrite H2, H1, Hidem.
  - now rewrite Hframe.
Qed.



(** ** The match of the import pattern is determined by the text *)

Lemma split_first_lit (p : N → bool) (a a' lit b b' : text) :
  Forall (fun x => p x = true) a → Forall (fun x => p x = true) a' →
  match lit with c :: _ => negb (p c) | [] => false end = true →
  a ++ lit ++ b = a' ++ lit ++ b' →
  a = a' ∧ b = b'.
Proof.
  intros Ha Ha' Hlit Heq. destruct lit as [|c lit]; [discriminate Hlit|].
  apply negb_true_iff in Hlit as Hc.
  apply (split_first p) in Heq as (-> & _ & Heq); [|assumption..].
  split; [reflexivity|]. now apply app_inv_head in Heq.
Qed.

Lemma quote_not_space (q : N) : is_quote q → Py.isspace q = false.
Proof.
  unfold is_quote, quotes. cbn. intros Hq.
  apply elem_of_cons in Hq as [->|Hq]; [reflexivity|].
  apply list_elem_of_singleton in Hq as ->. reflexivity.
Qed.

Lemma free_of_quotes (s : text) :
  free_of quotes s ↔ Forall (fun c => not_quote_char c = true) s.
Proof. symmetry. apply (all_in_free_of (fun _ => false)). Qed.

Lemma quote_is_quote (q : N) : is_quote q → not_quote_char q = false.
Proof.
  unfold is_quote, quotes, not_quote_char. cbn. intros Hq.
  apply elem_of_cons in Hq as [->|Hq]; [reflexivity|].
  apply list_elem_of_singleton in Hq as ->. reflexivity.
Qed.

(** Two corrupted imports that start the same text agree on the opening,
    the module path and their extent; their closing parts differ at most
    in the line break of the blank run before the members at which they
    are taken to start. *)
Lemma corrupted_import_unique
    (start path rest t tail start' path' rest' t' tail' : text) :
  corrupted_import start path rest t →
  corrupted_import start' path' rest' t' →
  t ++ tail = t' ++ tail' →
  start = start' ∧ path = path' ∧ t = t' ∧ tail = tail'
  ∧ ∃ ws ws', spaces ws ∧ spaces ws' ∧ ws ++ rest' = ws' ++ rest.
Proof.
  intros (w0 & line & w6 & (v & Hv & _ & ->)
          & (w1 & w2 & w3 & w4 & w5 & q1 & q2 & Hw1 & _ & Hw2 & Hw3 & Hw4
             & _ & Hw5 & _ & Hq1 & Hq2 & _ & Hpath & ->)
          & (x1 & members & x2 & x3 & q3 & module & q4 & Hx1 & _ & _
             & Hmem & Hx2 & _ & Hx3 & _ & Hq3 & Hq4 & _ & Hmod & ->)
          & Hw0 & Hw6 & ->).
  intros (w0' & line' & w6' & (v' & Hv' & _ & ->)
          & (w1' & w2' & w3' & w4' & w5' & q1' & q2' & Hw1' & _ & Hw2' & Hw3'
             & Hw4' & _ & Hw5' & _ & Hq1' & Hq2' & _ & Hpath' & ->)
          & (x1' & members' & x2' & x3' & q3' & module' & q4' & Hx1' & _ & _
             & Hmem' & Hx2' & _ & Hx3' & _ & Hq3' & Hq4' & _ & Hmod' & ->)
          & Hw0' & Hw6' & ->).
  intros Heq.
  assert (H :
    u "import" ++ v ++ u "{" ++ (w0 ++ nl) ++ u "import" ++ w1 ++ u "{" ++ w2
      ++ u "HIT_SLOP" ++ w3 ++ u "}" ++ w4 ++ u "from" ++ w5 ++ [q1] ++ path
      ++ [q2] ++ u ";" ++ (w6 ++ nl ++ x1 ++ members ++ nl) ++ u "}" ++ x2
      ++ u "from" ++ x3 ++ [q3] ++ module ++ [q4] ++ u ";" ++ tail
    = u "import" ++ v' ++ u "{" ++ (w0' ++ nl) ++ u "import" ++ w1' ++ u "{"
      ++ w2' ++ u "HIT_SLOP" ++ w3' ++ u "}" ++ w4' ++ u "from" ++ w5'
      ++ [q1'] ++ path' ++ [q2'] ++ u ";"
      ++ (w6' ++ nl ++ x1' ++ members' ++ nl) ++ u "}" ++ x2' ++ u "from"
      ++ x3' ++ [q3'] ++ module' ++ [q4'] ++ u ";" ++ tail').
  { etransitivity; [|etransitivity; [exact Heq|]]; text_norm; reflexivity. }
  clear Heq.
  apply free_of_quotes in Hpath, Hpath', Hmod, Hmod'.
  apply free_of_brace in Hmem, Hmem'.
  pose proof (spaces_not_brace _ Hw6) as Hb6.
  pose proof (spaces_not_brace _ Hw6') as Hb6'.
  pose proof (spaces_not_brace _ Hx1) as Hbx.
  pose proof (spaces_not_brace _ Hx1') as Hbx'.
  assert (Hnl : spaces nl) by (repeat constructor).
  assert (Hbnl : Forall (fun c => not_brace c = true) nl)
    by (repeat constructor).
  apply app_inv_head in H.
  apply (split_first_lit Py.isspace) in H as (<- & H);
    [|assumption..|reflexivity].
  apply (split_first_lit Py.isspace) in H as (H0 & H);
    [|now apply Forall_app..|reflexivity].
  apply (split_first_lit Py.isspace) in H as (<- & H);
    [|assumption..|reflexivity].
  apply (split_first_lit Py.isspace) in H as (<- & H);
    [|assumption..|reflexivity].
  apply (split_first_lit Py.isspace) in H as (<- & H);
    [|assumption..|reflexivity].
  apply (split_first_lit Py.isspace) in H as (<- & H);
    [|assumption..|reflexivity].
  apply (split_first Py.isspace) in H as (<- & <- & H);
    [|assumption..|now apply quote_not_space|now apply quote_not_space].
  apply (split_first not_quote_char) in H as (<- & <- & H);
    [|assumption..|now apply quote_is_quote|now apply quote_is_quote].
  apply app_inv_head in H.
  apply (split_first_lit not_brace) in H as (Hb & H);
    [|rewrite !Forall_app; auto..|reflexivity].
  apply (split_first_lit Py.isspace) in H as (<- & H);
    [|assumption..|reflexivity].
  apply (split_first Py.isspace) in H as (<- & <- & H);
    [|assumption..|now apply quote_not_space|now apply quote_not_space].
  apply (split_first not_quote_char) in H as (<- & <- & H);
    [|assumption..|now apply quote_is_quote|now apply quote_is_quote].
  apply app_inv_head in H. subst tail'.
  assert (Hrest :
    (w6' ++ nl)
      ++ (x1' ++ members' ++ nl ++ u "}" ++ x2 ++ u "from" ++ x3 ++ [q3]
          ++ module ++ [q4] ++ u ";")
    = (w6 ++ nl)
        ++ (x1 ++ members ++ nl ++ u "}" ++ x2 ++ u "from" ++ x3 ++ [q3]
            ++ module ++ [q4] ++ u ";")).
  { transitivity
      ((w6 ++ nl ++ x1 ++ members ++ nl)
         ++ u "}" ++ x2 ++ u "from" ++ x3 ++ [q3] ++ module ++ [q4] ++ u ";");
      [rewrite Hb|]; text_norm; reflexivity. }
  split; [reflexivity|]. split; [reflexivity|]. split; [|split].
  - assert (K0 : ∀ X, w0 ++ nl ++ X = w0' ++ nl ++ X).
    { intros X. now rewrite (app_assoc w0), H0, <- app_assoc. }
    assert (K6 :
      w6 ++ nl ++ x1 ++ members ++ nl ++ u "}" ++ x2 ++ u "from" ++ x3
        ++ q3 :: module ++ q4 :: u ";"
      = w6' ++ nl ++ x1' ++ members' ++ nl ++ u "}" ++ x2 ++ u "from" ++ x3
        ++ q3 :: module ++ q4 :: u ";").
    { etransitivity; [|etransitivity; [symmetry; exact Hrest|]];
        text_norm; reflexivity. }
    text_norm. now rewrite K0, K6.
  - reflexivity.
  - exists (w6' ++ nl), (w6 ++ nl).
    split; [now apply Forall_app|]. split; [now apply Forall_app|].
    exact Hrest.
Qed.

(** ** The repair of a corrupted import (C6) *)

Lemma corrupted_import_close (start path rest t : text) :
  corrupted_import start path rest t → import_close rest.
Proof. now intros (w0 & line & w6 & _ & _ & Hclose & _). Qed.

(** The Import Repairer on a text that starts with a corrupted import:
    the opening, the module path and the extent of what it replaces are
    those of that import. *)
Lemma import_repairer_head_exact uni_alnum (start path rest t tail : text) :
  corrupted_import start path rest t →
  ∃ rest' ws ws',
    import_close rest' ∧ spaces ws ∧ spaces ws' ∧ ws ++ rest' = ws' ++ rest
    ∧ import_repairer uni_alnum (t ++ tail)
      = repaired_import start path rest' ++ import_repairer uni_alnum tail.
Proof.
  intros Hshape.
  destruct (import_repairer_head uni_alnum (t ++ tail))
    as (start' & path' & rest' & t' & tail' & Heq & Hshape' & Hout).
  { now exists start, path, rest, t, tail. }
  destruct (corrupted_import_unique _ _ _ _ _ _ _ _ _ _ Hshape Hshape' Heq)
    as (<- & <- & <- & <- & ws & ws' & Hws & Hws' & Hrest).
  exists rest', ws, ws'.
  split; [now apply corrupted_import_close in Hshape'|]. auto.
Qed.

(** What the matcher finds at the head of a text is a corrupted import. *)
Lemma corrupted_import_computed uni_alnum (s : text) :
  match Re.match_at uni_alnum FixAllImports.pattern s with
  | Some m =>
      corrupted_import (Re.group m 1) (Re.group m 2) (Re.group m 3)
        (Re.group0 m)
  | None => True
  end.
Proof.
  destruct (Re.match_at uni_alnum FixAllImports.pattern s) as [m|] eqn:Hm;
    [|exact I].
  apply match_at_sound in Hm as [_ Hm].
  apply import_match_shape in Hm as (start & path & rest & Hshape & H1 & H2 & H3).
  unfold Re.group. now rewrite H1, H2, H3.
Qed.



(** ** The import path the Injector computes *)

Lemma parent_app (p : Os.path) (name : text) : Os.parent (p ++ [name]) = p.
Proof. apply removelast_last. Qed.

Lemma commonprefix_app (p a b : Os.path) :
  Os.commonprefix (p ++ a) (p ++ b) = p ++ Os.commonprefix a b.
Proof.
  induction p as [|x p IH]; [reflexivity|].
  cbn [app Os.commonprefix]. rewrite bool_decide_true by reflexivity.
  now rewrite IH.
Qed.

Lemma commonprefix_heads (a b : Os.path) :
  head a ≠ head b → Os.commonprefix a b = [].
Proof.
  destruct a as [|x a], b as [|y b]; try reflexivity.
  cbn. intros H. rewrite bool_decide_false; congruence.
Qed.

Lemma replace_ts_up (s : text) :
  Py.replace_from 0 (u ".ts") [] (u ".." ++ u "/" ++ s)
  = u ".." ++ u "/" ++ Py.replace_from 0 (u ".ts") [] s.
Proof. reflexivity. Qed.

Lemma replace_backslash_up (s : text) :
  Py.replace_from 0 (u "\") (u "/") (u ".." ++ u "/" ++ s)
  = u ".." ++ u "/" ++ Py.replace_from 0 (u "\") (u "/") s.
Proof. reflexivity. Qed.

Lemma ups_to_ui (n : nat) :
  Py.replace (u "\") (u "/")
    (Py.replace (u ".ts") []
       (Py.join (u "/") (replicate n (u "..") ++ [u "constants"; u "ui.ts"])))
  = Py.join (u "/") (replicate n (u "..") ++ [u "constants"; u "ui"]).
Proof.
  induction n as [|n IH]; [vm_compute; reflexivity|].
  cbn [replicate app].
  rewrite !join_cons by (destruct n; discriminate).
  unfold Py.replace in *.
  now rewrite replace_ts_up, replace_backslash_up, IH.
Qed.

(** X1.  For a file in the directory [dirs] below the source root (not
    below [constants] itself), the Injector imports HIT_SLOP from
    [./constants/ui] when the file lies in the root, and otherwise from
    [constants/ui] reached through one [..] per directory of [dirs]. *)
Theorem get_relative_import_below_src (dirs : list text) (name : text) :
  head dirs ≠ Some (u "constants") →
  AddHitslop.get_relative_import (SRC_DIR ++ dirs ++ [name])
  = match dirs with
    | [] => u "./constants/ui"
    | _ =>
        Py.join (u "/")
          (replicate (length dirs) (u "..") ++ [u "constants"; u "ui"])
    end.
Proof.
  intros Hd. unfold AddHitslop.get_relative_import.
  rewrite (app_assoc SRC_DIR dirs [name]), parent_app.
  unfold Os.relpath. rewrite commonprefix_app, commonprefix_heads by exact Hd.
  rewrite app_nil_r, length_app, drop_app_length.
  replace (length SRC_DIR + length dirs - length SRC_DIR)%nat
    with (length dirs) by lia.
  destruct dirs as [|d dirs]; [vm_compute; reflexivity|].
  set (n := length (d :: dirs)).
  assert (Hrel : replicate n (u "..") ++ [u "constants"; u "ui.ts"] ≠ [])
    by (subst n; discriminate).
  destruct (replicate n (u "..") ++ [u "constants"; u "ui.ts"]) eqn:E;
    [congruence|]. rewrite <- E, ups_to_ui.
  subst n. cbn [length replicate app].
  rewrite join_cons by (destruct dirs; discriminate).
  reflexivity.
Qed.

Lemma get_relative_import_below_src_witness :
  AddHitslop.get_relative_import
    (SRC_DIR ++ [u "screens"; u "main"] ++ [u "Home.tsx"])
  = u "../../constants/ui".
Proof.
  rewrite get_relative_import_below_src by discriminate. reflexivity.
Defined.

(** ** What the tag rewriting does to one tag *)

Lemma star_lazy_first {R} (p : N → bool) (a s : text) (k : text → option R) r :
  Forall (fun c => p c = true) a →
  (∀ a1 c a2, a = a1 ++ c :: a2 → k (c :: a2 ++ s) = None) →
  k s = Some r →
  Re.star_lazy p (a ++ s) k = Some r.
Proof.
  intros Ha Hk Hs. induction a as [|c a IH].
  - destruct s; cbn; now rewrite Hs.
  - cbn [app Re.star_lazy]. rewrite (Hk [] c a eq_refl).
    apply Forall_cons in Ha as [-> Ha]. apply IH; [exact Ha|].
    intros a1 c' a2 ->. now apply (Hk (c :: a1) c' a2).
Qed.

Lemma take_prefix (s a b : text) :
  s = a ++ b → take (length s - length b) s = a.
Proof. intros ->. apply take_app_suffix. Qed.

Lemma tag_match_at uni_alnum (attrs closing rest : text) :
  no_gt attrs →
  (closing = u ">" ∧ last attrs ≠ Some 47) ∨ closing = u "/>" →
  Re.match_at uni_alnum AddHitslop.pattern
    (u "<IconButton" ++ attrs ++ closing ++ rest)
  = Some (Re.MatchObj (u "<IconButton" ++ attrs ++ closing)
            (Re.set_group 2 closing
               (Re.set_group 1 (u "<IconButton" ++ attrs) Re.no_captures))
            rest).
Proof.
  intros Hattrs Hclosing.
  remember (u "<IconButton" ++ attrs ++ closing ++ rest) as s eqn:Hs.
  unfold Re.match_at, AddHitslop.pattern. cbn [Re.seq Re.exec].
  replace (Re.lit (u "<IconButton") s) with (Some (attrs ++ closing ++ rest))
    by (subst s; symmetry; apply lit_app).
  apply star_lazy_first.
  - apply (all_in_none_of uni_alnum 62). exact Hattrs.
  - intros a1 c a2 ->.
    apply Forall_app in Hattrs as [_ Hattrs].
    apply Forall_cons in Hattrs as [Hc Ha2].
    assert (Hgt : Re.in_class uni_alnum (Re.Char 62) c = false)
      by (cbn; now apply N.eqb_neq).
    rewrite Hgt.
    destruct (Re.in_class uni_alnum (Re.Char 47) c) eqn:Hslash; [|reflexivity].
    cbn in Hslash. apply N.eqb_eq in Hslash as ->.
    destruct a2 as [|c' a2].
    + destruct Hclosing as [[-> Hlast]| ->]; [|reflexivity].
      exfalso. apply Hlast. now rewrite last_snoc.
    + apply Forall_cons in Ha2 as [Hc' _]. cbn [app].
      assert (Hgt' : Re.in_class uni_alnum (Re.Char 62) c' = false)
        by (cbn; now apply N.eqb_neq).
      now rewrite Hgt'.
  - destruct Hclosing as [[-> _]| ->].
    + change (u ">" ++ rest) with (62 :: rest).
      change (Re.in_class uni_alnum (Re.Char 47) 62) with false.
      change (Re.in_class uni_alnum (Re.Char 62) 62) with true.
      cbn match. do 2 f_equal.
      * apply take_prefix. rewrite Hs. now rewrite <- !app_assoc.
      * f_equal; [|f_equal].
        -- cbn [length]. now replace (S (length rest) - length rest)%nat with 1%nat by lia.
        -- apply take_prefix. rewrite Hs. now rewrite <- !app_assoc.
    + change (u "/>" ++ rest) with (47 :: 62 :: rest).
      change (Re.in_class uni_alnum (Re.Char 47) 47) with true.
      change (Re.in_class uni_alnum (Re.Char 62) 62) with true.
      cbn match. do 2 f_equal.
      * apply take_prefix. rewrite Hs. now rewrite <- !app_assoc.
      * f_equal; [|f_equal].
        -- cbn [length].
           now replace (S (S (length rest)) - length rest)%nat with 2%nat by lia.
        -- apply take_prefix. rewrite Hs. now rewrite <- !app_assoc.
Qed.

Lemma tag_head_shape uni_alnum (s : text) :
  matches_prefix uni_alnum AddHitslop.pattern s →
  Py.startswith (u "<IconButton") s = true ∧ ¬ no_gt s.
Proof.
  intros (s1 & s2 & caps & -> & Hm).
  pose proof (tag_match_inv uni_alnum (Re.MatchObj s1 caps s2) Hm)
    as (attrs & closing & Hg & _ & Hclosing & _).
  cbn [Re.group0] in Hg. subst s1. split.
  - apply startswith_spec. exists (attrs ++ closing ++ s2).
    now rewrite <- !app_assoc.
  - intros Hno. unfold no_gt in Hno. rewrite !Forall_app in Hno.
    destruct Hno as [[_ [_ Hc]] _].
    destruct Hclosing as [-> | ->].
    + apply Forall_cons in Hc as [Hc _]. now apply Hc.
    + apply Forall_cons in Hc as [_ Hc].
      apply Forall_cons in Hc as [Hc _]. now apply Hc.
Qed.

(** X2.  The tag rewriting, tag by tag: the text from '<IconButton' up to
    the first '>' receives the marker attribute on a line of its own
    before its closing '>' or '/>', unless 'hitSlop' already occurs in it;
    a character that starts no such text is copied. *)
Theorem rewrite_tags_tag uni_alnum (attrs closing rest : text) :
  no_gt attrs →
  (closing = u ">" ∧ last attrs ≠ Some 47) ∨ closing = u "/>" →
  rewrite_tags uni_alnum (u "<IconButton" ++ attrs ++ closing ++ rest)
  = u "<IconButton" ++ attrs
    ++ (if Py.contains (u "hitSlop") (u "<IconButton" ++ attrs) then []
        else nl ++ u "                hitSlop={HIT_SLOP}")
    ++ closing ++ rewrite_tags uni_alnum rest
  ∧ (∀ c s, Py.startswith (u "<IconButton") (c :: s) = false ∨ no_gt (c :: s) →
            rewrite_tags uni_alnum (c :: s) = c :: rewrite_tags uni_alnum s)
  ∧ rewrite_tags uni_alnum [] = [].
Proof.
  intros Hattrs Hclosing. split; [|split].
  - unfold rewrite_tags.
    rewrite (sub_match _ _ _ _ _ (tag_match_at uni_alnum _ _ rest Hattrs Hclosing))
      by discriminate.
    cbn [Re.rest]. unfold AddHitslop.add_hitslop.
    cbn [Re.group Re.groups Re.group0 Re.set_group Nat.eqb default].
    unfold id.
    destruct (Py.contains (u "hitSlop") (u "<IconButton" ++ attrs));
      now rewrite <- ?app_assoc.
  - intros c s Hcs. unfold rewrite_tags. apply sub_cons_none.
    apply match_at_none. intros Hp. apply tag_head_shape in Hp as [Hs Hgt].
    destruct Hcs as [Hcs|Hcs]; [congruence | contradiction].
  - unfold rewrite_tags. apply sub_nil. apply match_at_none.
    intros Hp. now apply tag_head_shape in Hp as [Hs _].
Qed.

Lemma rewrite_tags_tag_witness :
  rewrite_tags ascii_only (u "<IconButton" ++ u " icon='menu' " ++ u "/>" ++ [])
  = u "<IconButton icon='menu' " ++ nl
    ++ u "                hitSlop={HIT_SLOP}/>".
Proof.
  refine (proj1 (rewrite_tags_tag ascii_only (u " icon='menu' ") (u "/>") []
                   _ _)).
  - apply Forall_forall. intros c Hc. vm_compute in Hc.
    repeat (apply elem_of_cons in Hc as [->|Hc]; [discriminate|]).
    now apply elem_of_nil in Hc.
  - now right.
Defined.

(** ** The Injector only inserts *)

Lemma join_insert_sublist (sep x : text) (l1 l2 : list text) :
  Py.join sep (l1 ++ l2) `sublist_of` Py.join sep (l1 ++ x :: l2).
Proof.
  induction l1 as [|a l1 IH].
  - cbn [app]. destruct l2 as [|b l2]; [apply sublist_nil_l|].
    rewrite (join_cons sep x) by discriminate.
    now apply sublist_inserts_l, sublist_inserts_l.
  - cbn [app]. rewrite (join_cons sep a (l1 ++ x :: l2))
      by (destruct l1; discriminate).
    destruct (l1 ++ l2) as [|b l] eqn:E.
    + cbn [Py.join]. now apply sublist_inserts_r.
    + rewrite join_cons by discriminate.
      apply sublist_app; [reflexivity|]. apply sublist_app; [reflexivity|].
      exact IH.
Qed.

Lemma with_import_sublist file_path content :
  content `sublist_of` with_import file_path content.
Proof.
  unfold with_import. destruct (last_import content) as [idx|]; [|reflexivity].
  unfold Py.list_insert.
  rewrite <- (join_split content) at 1.
  rewrite <- (take_drop (idx + 1) (Py.split 10 content)) at 1.
  apply join_insert_sublist.
Qed.

Lemma sub_sublist uni_alnum (r : Re.regex) (repl : Re.match_obj → text) :
  (∀ m, is_match uni_alnum r m →
        Re.group0 m ≠ [] ∧ Re.group0 m `sublist_of` repl m) →
  ∀ s, s `sublist_of` Re.sub uni_alnum r repl s.
Proof.
  intros Hrepl s.
  remember (length s) as n eqn:Hn. revert s Hn.
  induction n as [n IH] using lt_wf_ind; intros s ->.
  destruct (Re.match_at uni_alnum r s) as [m|] eqn:Hm.
  - pose proof (match_at_sound _ _ _ _ Hm) as [Hs Him].
    destruct (Hrepl m Him) as [Hne Hsub].
    rewrite (sub_match _ _ _ _ _ Hm Hne).
    rewrite Hs at 1. apply sublist_app; [exact Hsub|].
    apply (IH (length (Re.rest m))); [|reflexivity].
    rewrite Hs, length_app. destruct (Re.group0 m); [contradiction | cbn; lia].
  - destruct s as [|c s]; [apply sublist_nil_l|].
    rewrite sub_cons_none by exact Hm.
    apply sublist_skip. now apply (IH (length s) (Nat.lt_succ_diag_r _)).
Qed.

Lemma add_hitslop_sublist uni_alnum (m : Re.match_obj) :
  is_match uni_alnum AddHitslop.pattern m →
  Re.group0 m ≠ [] ∧ Re.group0 m `sublist_of` AddHitslop.add_hitslop m.
Proof.
  intros Hm. split; [now apply (tag_match_nonempty uni_alnum)|].
  apply tag_match_inv in Hm as (attrs & closing & Hg & _ & _ & H1 & H2).
  unfold AddHitslop.add_hitslop. rewrite H1, H2.
  destruct (Py.contains _ _); [reflexivity|].
  rewrite Hg, app_assoc.
  apply sublist_app; [reflexivity|].
  now apply sublist_inserts_l, sublist_inserts_l.
Qed.

Lemma rewrite_tags_sublist uni_alnum (s : text) :
  s `sublist_of` rewrite_tags uni_alnum s.
Proof. apply sub_sublist, add_hitslop_sublist. Qed.

Lemma injector_sublist uni_alnum file_path content :
  content `sublist_of` injector uni_alnum file_path content.
Proof.
  unfold injector. destruct (_ || _); [reflexivity|].
  etransitivity; [apply with_import_sublist | apply rewrite_tags_sublist].
Qed.



(** ** What a pass returns, writes and prints *)

Lemma injected_differs uni_alnum file_path content idx :
  Py.contains (u "HIT_SLOP") content = false →
  last_import content = Some idx →
  rewrite_tags uni_alnum (with_import file_path content) ≠ content.
Proof.
  intros Hclean Hidx Heq.
  assert (Py.contains (u "HIT_SLOP") content = true); [|congruence].
  rewrite <- Heq at 1.
  destruct (rewrite_tags_cases uni_alnum (with_import file_path content))
    as [->|H]; [|exact H].
  now apply (with_import_marked _ _ idx).
Qed.

Lemma process_file_run uni_alnum (file_path : Os.path) (w : Os.world)
    (content : text) :
  Os.files w !! file_path = Some content →
  AddHitslop.process_file uni_alnum file_path w
  = if negb (eligible content) then (Some false, w)
    else if Py.contains (u "HIT_SLOP") content then
      match Os.relative_to file_path (Os.parent SRC_DIR) with
      | Some rel =>
          (Some false, Os.World (Os.files w) (Os.stdout w ++ [skip_line rel]))
      | None => (None, w)
      end
    else
      let new_content := injector uni_alnum file_path content in
      if bool_decide (new_content ≠ content) then
        let w' := Os.World (<[file_path := new_content]> (Os.files w))
                    (Os.stdout w) in
        match Os.relative_to file_path (Os.parent SRC_DIR) with
        | Some rel =>
            (Some true,
             Os.World (Os.files w')
               (Os.stdout w ++ [check_mark ++ u " Modified: " ++ Os.str_rel rel]))
        | None => (None, w')
        end
      else (Some false, w).
Proof.
  intros Hread.
  unfold AddHitslop.process_file. io_unfold. rewrite Hread, negb_eligible.
  destruct (negb (eligible content)) eqn:He; cbn [orb]; [reflexivity|].
  destruct (Py.contains (u "HIT_SLOP") content) eqn:Hc.
  { destruct (Os.relative_to _ _); reflexivity. }
  assert (Hinj : injector uni_alnum file_path content
                 = rewrite_tags uni_alnum (with_import file_path content)).
  { unfold injector. now rewrite He, Hc. }
  cbv zeta. rewrite Hinj.
  pose proof (injected_differs uni_alnum file_path content) as Hdiff.
  unfold rewrite_tags, with_import, last_import, import_statement in *.
  destruct (Py.last_index_from _ _ _ _) as [idx|].
  - specialize (Hdiff idx Hc eq_refl).
    rewrite (bool_decide_eq_true_2 _ Hdiff).
    set (c1 := Py.join _ _) in *.
    set (c2 := Re.sub _ _ _ c1) in *.
    assert (Hw : (if bool_decide (c2 ≠ c1) then (c2, true) else (c1, true))
                 = (c2, true)).
    { destruct (decide (c2 = c1)) as [->|Hne].
      - now rewrite bool_decide_ne_refl.
      - now rewrite bool_decide_eq_true_2. }
    rewrite Hw.
    destruct (Os.relative_to _ _); reflexivity.
  - clear Hdiff. set (c2 := Re.sub _ _ _ content).
    destruct (bool_decide (c2 ≠ content)); [|reflexivity].
    destruct (Os.relative_to _ _); reflexivity.
Qed.

(** X4.  For a file below the project root, the Injector returns [True],
    writes the file and prints the 'Modified' line exactly when the content
    it computed differs from the content it read.  Otherwise it returns
    [False] and leaves the files as they are, printing the skip line if
    the file is eligible and already holds 'HIT_SLOP'. *)
Theorem process_file_reports_change uni_alnum (file_path : Os.path)
    (w : Os.world) (content : text) (rel : list text) :
  Os.files w !! file_path = Some content →
  Os.relative_to file_path (Os.parent SRC_DIR) = Some rel →
  let new_content := injector uni_alnum file_path content in
  AddHitslop.process_file uni_alnum file_path w
  = if bool_decide (new_content ≠ content) then
      (Some true,
       Os.World (<[file_path := new_content]> (Os.files w))
         (Os.stdout w ++ [check_mark ++ u " Modified: " ++ Os.str_rel rel]))
    else
      (Some false,
       if eligible content && Py.contains (u "HIT_SLOP") content
       then Os.World (Os.files w) (Os.stdout w ++ [skip_line rel])
       else w).
Proof.
  intros Hread Hrel new_content.
  rewrite (process_file_run _ _ _ _ Hread), Hrel. subst new_content.
  destruct (eligible content) eqn:He; cbn [negb orb andb].
  - destruct (Py.contains (u "HIT_SLOP") content) eqn:Hc.
    + assert (Hinj : injector uni_alnum file_path content = content)
        by (unfold injector; now rewrite He, Hc).
      now rewrite Hinj, bool_decide_ne_refl.
    + cbv zeta. destruct (bool_decide _); reflexivity.
  - assert (Hinj : injector uni_alnum file_path content = content)
      by (unfold injector; now rewrite He).
    now rewrite Hinj, bool_decide_ne_refl.
Qed.

Lemma process_file_reports_change_witness :
  AddHitslop.process_file ascii_only screen_path
    (one_file screen_path paper_screen)
  = (Some true,
     Os.World
       {[ screen_path := injector ascii_only screen_path paper_screen ]}
       [check_mark ++ u " Modified: src/screens/Home.tsx"]).
Proof.
  rewrite (process_file_reports_change ascii_only screen_path
             (one_file screen_path paper_screen) paper_screen
             [u "src"; u "screens"; u "Home.tsx"]
             (one_file_lookup _ _) eq_refl).
  cbv zeta. rewrite bool_decide_eq_true_2 by (vm_compute; discriminate).
  unfold one_file. cbn [Os.files Os.stdout app]. now rewrite insert_singleton.
Defined.

Lemma write_if_changed_run (file_path : Os.path) (label : text) (w : Os.world)
    (content new_content : text) :
  (if bool_decide (new_content ≠ content)
   then Os.write_file file_path new_content ;;;
        let* rel := Os.lift (Os.relative_to file_path (Os.parent SRC_DIR)) in
        Os.print (check_mark ++ label ++ Os.str_rel rel) ;;; Os.ret true
   else Os.ret false) w
  = if bool_decide (new_content ≠ content) then
      let w' := Os.World (<[file_path := new_content]> (Os.files w))
                  (Os.stdout w) in
      match Os.relative_to file_path (Os.parent SRC_DIR) with
      | Some rel =>
          (Some true,
           Os.World (Os.files w')
             (Os.stdout w ++ [check_mark ++ label ++ Os.str_rel rel]))
      | None => (None, w')
      end
    else (Some false, w).
Proof.
  destruct (bool_decide _); [|reflexivity].
  io_unfold. destruct (Os.relative_to _ _); reflexivity.
Qed.

Lemma import_fix_file_run uni_alnum (file_path : Os.path) (w : Os.world)
    (content : text) :
  Os.files w !! file_path = Some content →
  FixAllImports.fix_file uni_alnum file_path w
  = let new_content := import_repairer uni_alnum content in
    if bool_decide (new_content ≠ content) then
      let w' := Os.World (<[file_path := new_content]> (Os.files w))
                  (Os.stdout w) in
      match Os.relative_to file_path (Os.parent SRC_DIR) with
      | Some rel =>
          (Some true,
           Os.World (Os.files w')
             (Os.stdout w ++ [check_mark ++ u " Fixed: " ++ Os.str_rel rel]))
      | None => (None, w')
      end
    else (Some false, w).
Proof.
  intros Hread. unfold FixAllImports.fix_file, import_repairer.
  unfold Os.bind at 1, Os.read_file. rewrite Hread.
  apply write_if_changed_run.
Qed.

Lemma callback_fix_file_run uni_alnum (file_path : Os.path) (w : Os.world)
    (content : text) :
  Os.files w !! file_path = Some content →
  FixArrowFunctions.fix_file uni_alnum file_path w
  = let new_content := callback_repairer uni_alnum content in
    if bool_decide (new_content ≠ content) then
      let w' := Os.World (<[file_path := new_content]> (Os.files w))
                  (Os.stdout w) in
      match Os.relative_to file_path (Os.parent SRC_DIR) with
      | Some rel =>
          (Some true,
           Os.World (Os.files w')
             (Os.stdout w ++ [check_mark ++ u " Fixed: " ++ Os.str_rel rel]))
      | None => (None, w')
      end
    else (Some false, w).
Proof.
  intros Hread. unfold FixArrowFunctions.fix_file, callback_repairer.
  unfold Os.bind at 1, Os.read_file. rewrite Hread.
  apply write_if_changed_run.
Qed.

Lemma declaration_fix_file_run (file_path : Os.path) (w : Os.world)
    (content : text) :
  Os.files w !! file_path = Some content →
  FixImports.fix_file file_path w
  = let new_content := declaration_repairer content in
    if bool_decide (new_content ≠ content) then
      let w' := Os.World (<[file_path := new_content]> (Os.files w))
                  (Os.stdout w) in
      match Os.relative_to file_path (Os.parent SRC_DIR) with
      | Some rel =>
          (Some true,
           Os.World (Os.files w')
             (Os.stdout w ++ [check_mark ++ u " Fixed: " ++ Os.str_rel rel]))
      | None => (None, w')
      end
    else (Some false, w).
Proof.
  intros Hread. unfold FixImports.fix_file, declaration_repairer.
  unfold Os.bind at 1, Os.read_file. rewrite Hread.
  destruct (negb (Py.contains FixImports.marker content)).
  - cbv zeta. now rewrite bool_decide_ne_refl.
  - apply write_if_changed_run.
Qed.

(** ** A file outside the project root *)

(** X5.  The status line names the file relative to the project root, and
    is computed after the file has been written.  For a file that is not
    below the project root, each pass that has something to change
    therefore raises ([ValueError] of [relative_to]) with the file already
    rewritten and nothing printed. *)
Theorem report_fails_after_write uni_alnum (file_path : Os.path)
    (w : Os.world) (content : text) :
  Os.files w !! file_path = Some content →
  Os.relative_to file_path (Os.parent SRC_DIR) = None →
  let failed new_content :=
    (@None bool,
     Os.World (<[file_path := new_content]> (Os.files w)) (Os.stdout w)) in
  (injector uni_alnum file_path content ≠ content →
   AddHitslop.process_file uni_alnum file_path w
   = failed (injector uni_alnum file_path content))
  ∧ (import_repairer uni_alnum content ≠ content →
     FixAllImports.fix_file uni_alnum file_path w
     = failed (import_repairer uni_alnum content))
  ∧ (callback_repairer uni_alnum content ≠ content →
     FixArrowFunctions.fix_file uni_alnum file_path w
     = failed (callback_repairer uni_alnum content))
  ∧ (declaration_repairer content ≠ content →
     FixImports.fix_file file_path w
     = failed (declaration_repairer content)).
Proof.
  intros Hread Hrel failed. repeat split; intros Hne.
  - rewrite (process_file_run _ _ _ _ Hread), Hrel.
    destruct (negb (eligible content)) eqn:He.
    { contradiction Hne. unfold injector. now rewrite He. }
    destruct (Py.contains (u "HIT_SLOP") content) eqn:Hc.
    { contradiction Hne. unfold injector. now rewrite He, Hc. }
    cbv zeta. now rewrite bool_decide_eq_true_2 by exact Hne.
  - rewrite (import_fix_file_run _ _ _ _ Hread), Hrel. cbv zeta.
    now rewrite bool_decide_eq_true_2.
  - rewrite (callback_fix_file_run _ _ _ _ Hread), Hrel. cbv zeta.
    now rewrite bool_decide_eq_true_2.
  - rewrite (declaration_fix_file_run _ _ _ Hread), Hrel. cbv zeta.
    now rewrite bool_decide_eq_true_2.
Qed.

Lemma report_fails_after_write_witness :
  let file_path := [u "tmp"; u "Home.tsx"] in
  AddHitslop.process_file ascii_only file_path (one_file file_path paper_screen)
  = (None,
     Os.World
       (<[file_path := injector ascii_only file_path paper_screen]>
          {[ file_path := paper_screen ]}) []).
Proof.
  intros file_path.
  refine (proj1 (report_fails_after_write ascii_only file_path
                   (one_file file_path paper_screen) paper_screen
                   (one_file_lookup _ _) eq_refl) _).
  vm_compute. discriminate.
Defined.

(** ** The files a script visits *)

Lemma rglob_files (root : Os.path) (suffix : text) (w w' : Os.world) :
  Os.files w' = Os.files w → Os.rglob root suffix w' = Os.rglob root suffix w.
Proof. unfold Os.rglob. now intros ->. Qed.

Lemma rglob_NoDup (root : Os.path) (suffix : text) (w : Os.world) :
  NoDup (Os.rglob root suffix w).
Proof. apply NoDup_filter, NoDup_fst_map_to_list. Qed.

Lemma elem_of_rglob (root : Os.path) (suffix : text) (w : Os.world)
    (p : Os.path) :
  p ∈ Os.rglob root suffix w →
  Os.is_prefix root p = true ∧ is_Some (Os.files w !! p).
Proof.
  unfold Os.rglob. intros Hp. apply list_elem_of_filter in Hp as [(Hpre & _) Hp].
  split; [now apply Is_true_true|].
  apply list_elem_of_fmap in Hp as ([q c] & -> & Hin).
  apply elem_of_map_to_list in Hin. cbn. now exists c.
Qed.

Lemma is_prefix_app (base p : Os.path) :
  Os.is_prefix base p = true ↔ ∃ rel, p = base ++ rel.
Proof.
  revert p. induction base as [|a base IH]; intros p; cbn.
  - split; [intros _; now exists p | reflexivity].
  - destruct p as [|b p]; [split; [discriminate | intros [? [=]]]|].
    rewrite andb_true_iff, bool_decide_eq_true, IH. split.
    + intros [-> [rel ->]]. now exists rel.
    + intros [rel [= -> ->]]. split; [reflexivity | now exists rel].
Qed.

Lemma relative_to_below (base : Os.path) (rel : list text) :
  Os.relative_to (base ++ rel) base = Some rel.
Proof.
  unfold Os.relative_to.
  replace (Os.is_prefix base (base ++ rel)) with true
    by (symmetry; apply is_prefix_app; now exists rel).
  now rewrite drop_app_length.
Qed.

Lemma relative_to_src (p : Os.path) :
  Os.is_prefix SRC_DIR p = true →
  ∃ rel, p = SRC_DIR ++ rel
         ∧ Os.relative_to p (Os.parent SRC_DIR) = Some (u "src" :: rel).
Proof.
  intros Hp. apply is_prefix_app in Hp as [rel ->]. exists rel.
  split; [reflexivity|].
  change (SRC_DIR ++ rel) with (Os.parent SRC_DIR ++ u "src" :: rel).
  apply relative_to_below.
Qed.

(** ** The loop over the files *)

Lemma filter_ext_elem {A} (P Q : A → Prop) `{∀ x, Decision (P x)}
    `{∀ x, Decision (Q x)} (l : list A) :
  (∀ x, x ∈ l → P x ↔ Q x) → filter P l = filter Q l.
Proof.
  induction l as [|x l IH]; intros HPQ; [reflexivity|].
  rewrite !filter_cons.
  rewrite IH by (intros y Hy; apply HPQ; now right).
  pose proof (HPQ x (list_elem_of_here _ _)) as Hx.
  destruct (decide (P x)), (decide (Q x)); tauto.
Qed.

Lemma flat_map_ext_elem {A B} (f g : A → list B) (l : list A) :
  (∀ x, x ∈ l → f x = g x) → flat_map f l = flat_map g l.
Proof.
  induction l as [|x l IH]; intros Hfg; [reflexivity|].
  cbn. rewrite (Hfg x) by now left.
  now rewrite IH by (intros y Hy; apply Hfg; now right).
Qed.

Section PassLoop.

Variable pass : Os.path → Os.io bool.
Variable f : Os.path → text → text.
Variable report : Os.world → Os.path → list text.

Hypothesis report_ext : ∀ w w' p,
  Os.files w' !! p = Os.files w !! p → report w' p = report w p.

Hypothesis pass_run : ∀ p w content,
  Os.files w !! p = Some content → Os.is_prefix SRC_DIR p = true →
  pass p w
  = (Some (changes (f p) w p),
     Os.World (<[p := f p content]> (Os.files w)) (Os.stdout w ++ report w p)).

Lemma count_fixed_run (l : list Os.path) :
  NoDup l →
  ∀ w n,
    (∀ p, p ∈ l → is_Some (Os.files w !! p) ∧ Os.is_prefix SRC_DIR p = true) →
    ∃ w',
      count_fixed pass l n w
      = (Some (n + length (filter (fun p => changes (f p) w p = true) l))%nat, w')
      ∧ (∀ q, Os.files w' !! q
              = if decide (q ∈ l) then f q <$> Os.files w !! q
                else Os.files w !! q)
      ∧ Os.stdout w' = Os.stdout w ++ flat_map (report w) l.
Proof.
  induction l as [|p l IH]; intros Hnd w n Hl.
  - exists w. cbn. rewrite Nat.add_0_r, app_nil_r. repeat split.
  - apply NoDup_cons in Hnd as [Hp Hnd].
    destruct (Hl p (list_elem_of_here _ _)) as [[content Hc] Hpre].
    cbn [count_fixed]. unfold Os.bind at 1.
    rewrite (pass_run p w content Hc Hpre).
    set (w1 := Os.World _ _).
    assert (Hsame : ∀ q, q ∈ l → Os.files w1 !! q = Os.files w !! q).
    { intros q Hq. subst w1. cbn [Os.files]. apply lookup_insert_ne.
      intros ->. contradiction. }
    destruct (IH Hnd w1 (if changes (f p) w p then S n else n))
      as (w' & Hrun & Hfiles & Hout).
    { intros q Hq. rewrite (Hsame q Hq). apply Hl. now right. }
    exists w'. split; [|split].
    + rewrite Hrun. do 2 f_equal.
      rewrite filter_cons.
      rewrite (filter_ext_elem (fun q => changes (f q) w1 q = true)
                 (fun q => changes (f q) w q = true)).
      2: { intros q Hq. unfold changes. now rewrite (Hsame q Hq). }
      destruct (changes (f p) w p) eqn:E.
      * rewrite decide_True by reflexivity. cbn [length]. lia.
      * rewrite decide_False by discriminate. reflexivity.
    + intros q. rewrite Hfiles.
      destruct (decide (q = p)) as [->|Hqp].
      * rewrite decide_False by exact Hp.
        rewrite decide_True by now left.
        subst w1. cbn [Os.files]. rewrite lookup_insert_eq, Hc. reflexivity.
      * destruct (decide (q ∈ l)) as [Hq|Hq].
        -- rewrite decide_True by now right. now rewrite (Hsame q Hq).
        -- rewrite decide_False by (intros Hin; apply elem_of_cons in Hin as [?|?];
                                      contradiction).
           subst w1. cbn [Os.files]. now apply lookup_insert_ne.
    + rewrite Hout. subst w1. cbn [Os.stdout flat_map].
      rewrite <- app_assoc. do 2 f_equal.
      apply flat_map_ext_elem. intros q Hq. apply report_ext.
      now apply (Hsame q Hq).
Qed.

End PassLoop.

Lemma changes_lookup (f : text → text) (w : Os.world) (p : Os.path)
    (content : text) :
  Os.files w !! p = Some content →
  changes f w p = bool_decide (f content ≠ content).
Proof.
  intros Hc. unfold changes. rewrite Hc. cbn.
  apply bool_decide_ext. split; intros Hne Heq; apply Hne; congruence.
Qed.

Lemma changes_ext (f : text → text) (w w' : Os.world) (p : Os.path) :
  Os.files w' !! p = Os.files w !! p → changes f w' p = changes f w p.
Proof. unfold changes. now intros ->. Qed.

Lemma status_line_below (label : text) (rel : list text) :
  status_line label (SRC_DIR ++ rel)
  = check_mark ++ label ++ Os.str_rel (u "src" :: rel).
Proof. reflexivity. Qed.

(** The outcome of a repairer's [fix_file] on a file below the source
    root, in one expression for both cases. *)
Lemma fix_file_outcome (f : text → text) (p : Os.path) (w : Os.world)
    (content : text) :
  Os.files w !! p = Some content → Os.is_prefix SRC_DIR p = true →
  (let new_content := f content in
   if bool_decide (new_content ≠ content) then
     let w' := Os.World (<[p := new_content]> (Os.files w)) (Os.stdout w) in
     match Os.relative_to p (Os.parent SRC_DIR) with
     | Some rel =>
         (Some true,
          Os.World (Os.files w')
            (Os.stdout w ++ [check_mark ++ u " Fixed: " ++ Os.str_rel rel]))
     | None => (None, w')
     end
   else (Some false, w))
  = (Some (changes f w p),
     Os.World (<[p := f content]> (Os.files w))
       (Os.stdout w ++ fixed_report f w p)).
Proof.
  intros Hc Hpre. destruct (relative_to_src p Hpre) as (rel & -> & Hrel).
  unfold fixed_report. rewrite Hrel, (changes_lookup f _ _ _ Hc). cbv zeta.
  destruct (decide (f content = content)) as [Heq|Hne].
  - rewrite Heq, bool_decide_ne_refl, app_nil_r, insert_id by exact Hc.
    now destruct w.
  - now rewrite bool_decide_eq_true_2 by exact Hne.
Qed.

Section RepairScript.

Variable fix_file : Os.path → Os.io bool.
Variable f : text → text.
Variable banner : text.

Hypothesis fix_file_run : ∀ p w content,
  Os.files w !! p = Some content → Os.is_prefix SRC_DIR p = true →
  fix_file p w
  = (Some (changes f w p),
     Os.World (<[p := f content]> (Os.files w))
       (Os.stdout w ++ fixed_report f w p)).

Lemma repair_script_run (w : Os.world) :
  ∃ w',
    (Os.print banner ;;;
     let* tsx_files := (fun w => (Some (Os.rglob SRC_DIR (u ".tsx") w), w)) in
     let* modified := count_fixed fix_file tsx_files 0 in
     Os.print (nl ++ u "Fixed: " ++ u (pretty modified) ++ u " files")) w
    = (Some tt, w')
    ∧ (∀ q, Os.files w' !! q
            = if decide (q ∈ tsx_files w) then f <$> Os.files w !! q
              else Os.files w !! q)
    ∧ Os.stdout w'
      = Os.stdout w
        ++ banner :: flat_map (fixed_report f w) (tsx_files w)
        ++ [nl ++ u "Fixed: "
            ++ u (pretty (length (filter (fun p => changes f w p = true)
                                    (tsx_files w))))
            ++ u " files"].
Proof.
  set (w0 := Os.World (Os.files w) (Os.stdout w ++ [banner])).
  destruct (count_fixed_run fix_file (fun _ => f) (fixed_report f)) with
    (l := tsx_files w) (w := w0) (n := 0%nat) as (w1 & Hrun & Hfiles & Hout).
  - intros v v' p Hp. unfold fixed_report. now rewrite (changes_ext f v v' p Hp).
  - exact fix_file_run.
  - apply rglob_NoDup.
  - intros p Hp. apply elem_of_rglob in Hp as [Hpre Hsome]. now split.
  - exists (Os.World (Os.files w1)
              (Os.stdout w1
               ++ [nl ++ u "Fixed: "
                   ++ u (pretty (length (filter (fun p => changes f w p = true)
                                           (tsx_files w))))
                   ++ u " files"])).
    split; [|split].
    + io_unfold. fold w0.
      change (Os.rglob SRC_DIR (u ".tsx") w0) with (tsx_files w).
      rewrite Hrun. reflexivity.
    + exact Hfiles.
    + cbn [Os.stdout]. rewrite Hout. subst w0. cbn [Os.stdout].
      now rewrite <- !app_assoc.
Qed.

End RepairScript.

(** ** The repair scripts as a whole *)



(** ** The Injector script as a whole *)

Lemma process_file_outcome uni_alnum (p : Os.path) (w : Os.world)
    (content : text) :
  Os.files w !! p = Some content → Os.is_prefix SRC_DIR p = true →
  AddHitslop.process_file uni_alnum p w
  = (Some (changes (injector uni_alnum p) w p),
     Os.World (<[p := injector uni_alnum p content]> (Os.files w))
       (Os.stdout w ++ modified_report uni_alnum w p)).
Proof.
  intros Hc Hpre. destruct (relative_to_src p Hpre) as (rel & -> & Hrel).
  set (p := SRC_DIR ++ rel) in *.
  rewrite (process_file_run _ _ _ _ Hc), Hrel.
  unfold modified_report. rewrite (changes_lookup _ _ _ _ Hc), Hc.
  assert (Hsame : ∀ out, injector uni_alnum p content = content →
            (Some false, w)
            = (Some false,
               Os.World (<[p := injector uni_alnum p content]> (Os.files w))
                 (Os.stdout w ++ out)) → True) by auto.
  clear Hsame.
  assert (Hid : Os.World (<[p := content]> (Os.files w)) (Os.stdout w ++ [])
                = w).
  { rewrite app_nil_r, insert_id by exact Hc. now destruct w. }
  destruct (eligible content) eqn:He; cbn [negb andb].
  - destruct (Py.contains (u "HIT_SLOP") content) eqn:Hm.
    + assert (Hinj : injector uni_alnum p content = content)
        by (unfold injector; now rewrite He, Hm).
      rewrite Hinj, bool_decide_ne_refl, insert_id by exact Hc. reflexivity.
    + cbv zeta. destruct (decide (injector uni_alnum p content = content))
        as [Heq|Hne].
      * now rewrite Heq, bool_decide_ne_refl, Hid.
      * now rewrite bool_decide_eq_true_2 by exact Hne.
  - assert (Hinj : injector uni_alnum p content = content)
      by (unfold injector; now rewrite He).
    now rewrite Hinj, bool_decide_ne_refl, Hid.
Qed.

Lemma main_loop_run uni_alnum (l : list Os.path) :
  (∀ p, p ∈ l → Os.is_prefix SRC_DIR p = true) →
  ∀ processed modified w,
    AddHitslop.main_loop uni_alnum l processed modified w
    = match count_fixed (AddHitslop.process_file uni_alnum)
              (filter (fun p => not_skipped p = true) l) modified w with
      | (Some m, w') =>
          (Some ((processed
                  + length (filter (fun p => not_skipped p = true) l))%nat, m),
           w')
      | (None, w') => (None, w')
      end.
Proof.
  induction l as [|p l IH]; intros Hl processed modified w.
  - cbn. now rewrite Nat.add_0_r.
  - destruct (relative_to_src p (Hl p (list_elem_of_here _ _)))
      as (rel & -> & Hrel).
    assert (Hl' : ∀ q, q ∈ l → Os.is_prefix SRC_DIR q = true)
      by (intros q Hq; apply Hl; now right).
    cbn [AddHitslop.main_loop]. unfold Os.bind at 1, Os.lift. rewrite Hrel.
    unfold Os.ret at 1.
    assert (Hns : not_skipped (SRC_DIR ++ rel)
                  = bool_decide (Os.str_rel (u "src" :: rel)
                                 ∉ AddHitslop.SKIP_FILES)) by reflexivity.
    destruct (decide (Os.str_rel (u "src" :: rel) ∈ AddHitslop.SKIP_FILES))
      as [Hskip|Hskip].
    + rewrite (bool_decide_eq_true_2 _ Hskip).
      rewrite filter_cons_False.
      2: { rewrite Hns, bool_decide_eq_true. intros Hn. now apply Hn. }
      apply IH, Hl'.
    + rewrite (bool_decide_eq_false_2 _ Hskip).
      rewrite filter_cons_True by (now rewrite Hns, bool_decide_eq_true).
      cbn [count_fixed length]. unfold Os.bind.
      destruct (AddHitslop.process_file uni_alnum (SRC_DIR ++ rel) w)
        as [[b|] w1]; [|reflexivity].
      rewrite (IH Hl').
      destruct (count_fixed _ _ _ w1) as [[m|] w2]; [|reflexivity].
      do 3 f_equal. lia.
Qed.

Lemma injector_script_run uni_alnum (w : Os.world) :
  ∃ w',
    AddHitslop.main uni_alnum w = (Some tt, w')
    ∧ (∀ q, Os.files w' !! q
            = if decide (q ∈ injected_files w)
              then injector uni_alnum q <$> Os.files w !! q
              else Os.files w !! q)
    ∧ Os.stdout w'
      = Os.stdout w
        ++ (u "Adding hitSlop to IconButton components..." ++ nl)
           :: flat_map (modified_report uni_alnum w) (injected_files w)
        ++ [nl ++ u "Processed: " ++ u (pretty (length (injected_files w)))
            ++ u " files";
            u "Modified: "
            ++ u (pretty
                    (length
                       (filter
                          (fun p => changes (injector uni_alnum p) w p = true)
                          (injected_files w))))
            ++ u " files"].
Proof.
  set (banner := u "Adding hitSlop to IconButton components..." ++ nl).
  set (w0 := Os.World (Os.files w) (Os.stdout w ++ [banner])).
  destruct (count_fixed_run (AddHitslop.process_file uni_alnum)
              (injector uni_alnum) (modified_report uni_alnum)) with
    (l := injected_files w) (w := w0) (n := 0%nat)
    as (w1 & Hrun & Hfiles & Hout).
  - intros v v' p Hp. unfold modified_report.
    now rewrite (changes_ext _ v v' p Hp), Hp.
  - intros p v content. apply process_file_outcome.
  - apply NoDup_filter, rglob_NoDup.
  - intros p Hp. apply list_elem_of_filter in Hp as [_ Hp].
    apply elem_of_rglob in Hp as [Hpre Hsome]. now split.
  - set (n := length (injected_files w)) in *.
    set (m := length (filter _ (injected_files w))) in *.
    exists (Os.World (Os.files w1)
              (Os.stdout w1
               ++ [nl ++ u "Processed: " ++ u (pretty n) ++ u " files";
                   u "Modified: " ++ u (pretty m) ++ u " files"])).
    split; [|split].
    + unfold AddHitslop.main. fold banner.
      unfold Os.bind at 1, Os.print at 1. fold w0.
      unfold Os.bind at 1.
      change (Os.rglob SRC_DIR (u ".tsx") w0) with (tsx_files w).
      unfold Os.bind at 1. rewrite main_loop_run.
      2: { intros p Hp. now apply elem_of_rglob in Hp as [Hpre _]. }
      fold (injected_files w). rewrite Hrun. fold n.
      io_unfold. now rewrite <- app_assoc.
    + exact Hfiles.
    + cbn [Os.stdout]. rewrite Hout. subst w0. cbn [Os.stdout].
      now rewrite <- !app_assoc.
Qed.



(** ** Files the Injector never marked *)

Lemma callback_occurs_contains uni_alnum (s : text) :
  callback_occurs uni_alnum s → Py.contains hit_slop s = true.
Proof.
  intros (pre & s' & -> & name & region & t & tail & -> & Hshape).
  destruct Hshape as (w1 & w2 & w3 & _ & _ & _ & _ & _ & _ & _ & _ & ->).
  apply contains_spec.
  exists (pre ++ name ++ u "={()" ++ w1 ++ u "=" ++ w2 ++ nl ++ w3
          ++ u "hitSlop={"),
    (u "}>" ++ region ++ u "}" ++ tail).
  unfold hit_slop. text_norm. reflexivity.
Qed.

Lemma marker_contains (s : text) :
  Py.contains FixImports.marker s = true → Py.contains hit_slop s = true.
Proof.
  rewrite !contains_spec. intros (a & b & ->).
  exists (a ++ u "import { "), (u " }" ++ b).
  unfold hit_slop, FixImports.marker. text_norm. reflexivity.
Qed.

Lemma repairers_unmarked uni_alnum (s : text) :
  Py.contains hit_slop s = false →
  import_repairer uni_alnum s = s
  ∧ callback_repairer uni_alnum s = s
  ∧ declaration_repairer s = s.
Proof.
  intros Hno. repeat split.
  - apply import_repairer_unchanged. intros H.
    apply import_occurs_contains in H. congruence.
  - apply callback_repairer_unchanged. intros H.
    apply callback_occurs_contains in H. congruence.
  - unfold declaration_repairer.
    destruct (Py.contains FixImports.marker s) eqn:Hm; [|reflexivity].
    apply marker_contains in Hm. congruence.
Qed.

(** X10.  A file whose content does not contain 'HIT_SLOP' is left alone
    by the three repairers: each returns [False], writes nothing and
    prints nothing. *)
Theorem repairers_ignore_unmarked uni_alnum (file_path : Os.path)
    (w : Os.world) (content : text) :
  Os.files w !! file_path = Some content →
  Py.contains (u "HIT_SLOP") content = false →
  FixAllImports.fix_file uni_alnum file_path w = (Some false, w)
  ∧ FixArrowFunctions.fix_file uni_alnum file_path w = (Some false, w)
  ∧ FixImports.fix_file file_path w = (Some false, w).
Proof.
  intros Hread Hno.
  destruct (repairers_unmarked uni_alnum content Hno) as (Hi & Hc & Hd).
  repeat split.
  - rewrite (import_fix_file_run _ _ _ _ Hread). cbv zeta.
    now rewrite Hi, bool_decide_ne_refl.
  - rewrite (callback_fix_file_run _ _ _ _ Hread). cbv zeta.
    now rewrite Hc, bool_decide_ne_refl.
  - rewrite (declaration_fix_file_run _ _ _ Hread). cbv zeta.
    now rewrite Hd, bool_decide_ne_refl.
Qed.

Lemma repairers_ignore_unmarked_witness :
  let w := one_file screen_path paper_screen in
  FixAllImports.fix_file ascii_only screen_path w = (Some false, w)
  ∧ FixArrowFunctions.fix_file ascii_only screen_path w = (Some false, w)
  ∧ FixImports.fix_file screen_path w = (Some false, w).
Proof.
  intros w.
  apply (repairers_ignore_unmarked ascii_only screen_path w paper_screen);
    [apply one_file_lookup | reflexivity].
Defined.

(** ** The Import Repairer keeps every HIT_SLOP *)

Lemma import_repairer_count uni_alnum (s : text) :
  count_occurrences hit_slop (import_repairer uni_alnum s)
  = count_occurrences hit_slop s.
Proof.
  remember (length s) as n eqn:Hn. revert s Hn.
  induction n as [n IH] using lt_wf_ind; intros s ->.
  unfold import_repairer at 1.
  destruct (sub_first_match uni_alnum FixAllImports.pattern
              FixAllImports.fix_import s (import_match_nonempty uni_alnum))
    as [Hsame|(before & m & Hs & Him & Hout)].
  { now rewrite Hsame. }
  assert (Hlen : (length (Re.rest m) < length s)%nat).
  { rewrite Hs, !length_app.
    apply import_match_shape in Him as (start & path & rest & Hshape & _).
    apply corrupted_import_nonempty in Hshape.
    destruct (Re.group0 m); [contradiction | cbn; lia]. }
  apply import_match_shape in Him
    as (start & path & rest & Hshape & Hg1 & Hg2 & Hg3).
  assert (Hrepl : FixAllImports.fix_import m = repaired_import start path rest).
  { unfold FixAllImports.fix_import, repaired_import, Re.group.
    now rewrite Hg1, Hg2, Hg3. }
  apply corrupted_import_parts in Hshape
    as (v & s1 & s2 & s3 & q1 & q2 & inner & Hv & Hstart & -> & Hs1 & Hs2
        & Hs3 & Hq1 & Hq2 & Ht & _).
  fold (import_repairer uni_alnum (Re.rest m)) in Hout.
  rewrite Hout, Hrepl.
  assert (Hcount :
    count_occurrences hit_slop s
    = (count_occurrences hit_slop before + 1
       + count_occurrences hit_slop path + count_occurrences hit_slop inner
       + count_occurrences hit_slop (Re.rest m))%nat).
  { rewrite <- (count_around_marker before
                  (u "mport" ++ v ++ u "{" ++ s1) s2 path s3 inner (Re.rest m)
                  105 q1 q2 59);
      try (apply not_in_hit_slop; reflexivity);
      try (now apply quote_not_in_hit_slop); try assumption.
    - f_equal. rewrite Hs, Ht, Hstart. text_norm. reflexivity.
    - rewrite !separators_app.
      repeat split; try (now apply spaces_separators); try assumption;
        apply literal_separators; reflexivity. }
  assert (Hcount' :
    count_occurrences hit_slop
      (before ++ repaired_import start path (inner ++ u ";")
       ++ import_repairer uni_alnum (Re.rest m))
    = (count_occurrences hit_slop before + 1
       + count_occurrences hit_slop path + count_occurrences hit_slop inner
       + count_occurrences hit_slop (import_repairer uni_alnum (Re.rest m)))%nat).
  { rewrite <- (count_around_moved_marker before
                  (u "mport" ++ v ++ u "{" ++ nl) inner (nl ++ u "import { ")
                  (u " } from ") path (import_repairer uni_alnum (Re.rest m))
                  105 59 39 39 59);
      try (apply not_in_hit_slop; reflexivity).
    - f_equal. unfold repaired_import, hit_slop. rewrite Hstart.
      change (u "import { HIT_SLOP } from '")
        with (u "import { " ++ u "HIT_SLOP" ++ u " } from " ++ [39]).
      text_norm. reflexivity.
    - rewrite !separators_app.
      repeat split; try (now apply spaces_separators);
        apply literal_separators; reflexivity.
    - apply literal_separators. reflexivity.
    - apply literal_separators. reflexivity. }
  rewrite Hcount', Hcount, (IH _ Hlen (Re.rest m) eq_refl). reflexivity.
Qed.

(** X11.  The Import Repairer moves the HIT_SLOP import without losing or
    duplicating it: 'HIT_SLOP' occurs as often in the content it leaves in
    a file as in the content it read. *)
Theorem import_repairer_keeps_marker uni_alnum (file_path : Os.path)
    (w : Os.world) (content : text) :
  Os.files w !! file_path = Some content →
  ∃ new_content,
    content_after (FixAllImports.fix_file uni_alnum file_path) file_path w
    = Some new_content
    ∧ count_occurrences (u "HIT_SLOP") new_content
      = count_occurrences (u "HIT_SLOP") content.
Proof.
  intros Hread. exists (import_repairer uni_alnum content).
  split; [now apply import_fix_file_content|].
  apply import_repairer_count.
Qed.

Lemma import_repairer_keeps_marker_witness :
  ∃ new_content,
    content_after (FixAllImports.fix_file ascii_only screen_path) screen_path
      (one_file screen_path split_import)
    = Some new_content
    ∧ count_occurrences (u "HIT_SLOP") new_content
      = count_occurrences (u "HIT_SLOP") split_import.
Proof.
  apply (import_repairer_keeps_marker ascii_only screen_path
           (one_file screen_path split_import) split_import).
  apply one_file_lookup.
Defined.

(** ** The Declaration Repairer touches marker lines only *)

Lemma misplaced_inv (lines : list text) (i : nat) (line : text) :
  FixImports.misplaced lines i line = true →
  Py.contains FixImports.marker line = true ∧ (i < length lines - 1)%nat.
Proof.
  unfold FixImports.misplaced. rewrite !andb_true_iff.
  intros [[Hm Hi] _]. split; [exact Hm | now apply Nat.ltb_lt in Hi].
Qed.

Lemma scan_spec (lines : list text) (todo : list text) :
  ∀ i acc hit acc' hit',
    FixImports.scan lines i todo acc hit = (acc', hit') →
    ∃ kept removed,
      acc' = acc ++ kept
      ∧ kept ++ removed ≡ₚ todo
      ∧ filter (fun l => Py.contains FixImports.marker l = false) kept
        = filter (fun l => Py.contains FixImports.marker l = false) todo
      ∧ Forall (fun l => Py.contains FixImports.marker l = true) removed
      ∧ (hit' = hit ∨ ∃ h, hit' = Some h ∧ h ∈ removed)
      ∧ ((i + length todo)%nat = length lines → todo ≠ [] → kept ≠ []).
Proof.
  induction todo as [|line todo IH]; intros i acc hit acc' hit' Hscan.
  - cbn in Hscan. injection Hscan as <- <-. exists [], [].
    rewrite app_nil_r. repeat split; auto.
  - cbn [FixImports.scan] in Hscan.
    destruct (FixImports.misplaced lines i line) eqn:Hmis.
    + apply misplaced_inv in Hmis as [Hm Hi].
      apply IH in Hscan
        as (kept & removed & -> & Hperm & Hfilter & Hrem & Hhit & Hlast).
      exists kept, (line :: removed). split; [reflexivity|].
      split; [now rewrite <- Permutation_middle, Hperm|].
      split. { rewrite filter_cons_False by congruence. exact Hfilter. }
      split. { now constructor. }
      split.
      * right. destruct Hhit as [->|(h & -> & Hh)].
        -- exists line. split; [reflexivity | now left].
        -- exists h. split; [reflexivity | now right].
      * intros Hlen _. apply Hlast; [cbn in Hlen; lia|].
        intros ->. cbn in Hlen. lia.
    + apply IH in Hscan
        as (kept & removed & -> & Hperm & Hfilter & Hrem & Hhit & Hlast).
      exists (line :: kept), removed.
      split; [now rewrite <- app_assoc|].
      split; [cbn; now rewrite Hperm|].
      split.
      { destruct (Py.contains FixImports.marker line) eqn:Hm.
        - rewrite !filter_cons_False by congruence. exact Hfilter.
        - rewrite !filter_cons_True by exact Hm. now rewrite Hfilter. }
      repeat split; [exact Hrem | exact Hhit | discriminate].
Qed.

Lemma declaration_repairer_lines (content : text) :
  filter (fun l => Py.contains FixImports.marker l = false)
    (Py.split 10 (declaration_repairer content))
  = filter (fun l => Py.contains FixImports.marker l = false)
      (Py.split 10 content)
  ∧ Py.split 10 (declaration_repairer content) ⊆+ Py.split 10 content.
Proof.
  unfold declaration_repairer.
  destruct (Py.contains FixImports.marker content); [|now split].
  cbn [negb].
  destruct (FixImports.scan (Py.split 10 content) 0 (Py.split 10 content) []
              None) as [new_lines hit] eqn:Hscan.
  rewrite (fix_lines_unfold _ _ _ Hscan).
  apply scan_spec in Hscan
    as (kept & removed & -> & Hperm & Hfilter & Hrem & Hhit & Hlast).
  cbn [app] in *.
  specialize (Hlast eq_refl (split_nonempty content)).
  pose proof (split_no_newline content) as Hnl.
  rewrite <- Hperm in Hnl. apply Forall_app in Hnl as [Hnlk Hnlr].
  set (final := match hit with Some ((_ :: _) as line) => _ | _ => kept end).
  assert (Hfinal : final = kept
                   ∨ ∃ j h, h ∈ removed
                            ∧ final = take j kept ++ h :: drop j kept).
  { subst final. destruct hit as [[|c h]|]; [now left| |now left].
    destruct (Py.last_index_from _ _ _ _) as [j|]; [|now left].
    right. exists (j + 1)%nat, (c :: h). split; [|reflexivity].
    destruct Hhit as [[=]|(h' & [= <-] & Hin)]. exact Hin. }
  clearbody final.
  destruct Hfinal as [->|(j & h & Hh & ->)].
  - rewrite split_join by assumption. split; [exact Hfilter|].
    rewrite <- Hperm. now apply submseteq_inserts_r.
  - rewrite Forall_forall in Hrem, Hnlr.
    rewrite split_join.
    + split.
      * rewrite filter_app, filter_cons_False
          by (rewrite (Hrem h Hh); discriminate).
        now rewrite <- filter_app, take_drop.
      * rewrite <- Permutation_middle, take_drop.
        apply elem_of_Permutation in Hh as [removed' Hrem'].
        rewrite <- Hperm, Hrem', <- Permutation_middle.
        apply submseteq_skip. now apply submseteq_inserts_r.
    + destruct (take j kept); discriminate.
    + apply Forall_app. split; [now apply Forall_take|].
      constructor; [now apply Hnlr | now apply Forall_drop].
Qed.

(** X12.  The Declaration Repairer touches marker lines only: the lines
    that do not hold 'import { HIT_SLOP }' are the same, in the same
    order, before and after; and every line of the result is a line of
    the input, no more often than there. *)
Theorem declaration_repairer_keeps_other_lines (file_path : Os.path)
    (w : Os.world) (content : text) :
  Os.files w !! file_path = Some content →
  ∃ new_content,
    content_after (FixImports.fix_file file_path) file_path w
    = Some new_content
    ∧ filter (fun l => Py.contains FixImports.marker l = false)
        (Py.split 10 new_content)
      = filter (fun l => Py.contains FixImports.marker l = false)
          (Py.split 10 content)
    ∧ Py.split 10 new_content ⊆+ Py.split 10 content.
Proof.
  intros Hread. exists (declaration_repairer content).
  split; [now apply declaration_fix_file_content|].
  apply declaration_repairer_lines.
Qed.

Lemma declaration_repairer_keeps_other_lines_witness :
  ∃ new_content,
    content_after (FixImports.fix_file screen_path) screen_path
      (one_file screen_path twice_misplaced)
    = Some new_content
    ∧ filter (fun l => Py.contains FixImports.marker l = false)
        (Py.split 10 new_content)
      = filter (fun l => Py.contains FixImports.marker l = false)
          (Py.split 10 twice_misplaced)
    ∧ Py.split 10 new_content ⊆+ Py.split 10 twice_misplaced.
Proof.
  apply (declaration_repairer_keeps_other_lines screen_path
           (one_file screen_path twice_misplaced) twice_misplaced).
  apply one_file_lookup.
Defined.

(** ** The Callback Repairer after the Injector *)

Lemma rewrite_tags_at_tag uni_alnum (attrs closing rest : text) :
  no_gt attrs →
  (closing = u ">" ∧ last attrs ≠ Some 47) ∨ closing = u "/>" →
  rewrite_tags uni_alnum (u "<IconButton" ++ attrs ++ closing ++ rest)
  = u "<IconButton" ++ attrs
    ++ (if Py.contains (u "hitSlop") (u "<IconButton" ++ attrs) then []
        else nl ++ u "                hitSlop={HIT_SLOP}")
    ++ closing ++ rewrite_tags uni_alnum rest.
Proof.
  intros Hattrs Hclosing. unfold rewrite_tags.
  rewrite (sub_match _ _ _ _ _ (tag_match_at uni_alnum _ _ rest Hattrs Hclosing))
    by discriminate.
  cbn [Re.rest]. unfold AddHitslop.add_hitslop.
  cbn [Re.group Re.groups Re.group0 Re.set_group Nat.eqb default].
  unfold id.
  destruct (Py.contains (u "hitSlop") (u "<IconButton" ++ attrs));
    now rewrite <- ?app_assoc.
Qed.

Lemma rewrite_tags_copy uni_alnum (c : N) (s : text) :
  Py.startswith (u "<IconButton") (c :: s) = false →
  rewrite_tags uni_alnum (c :: s) = c :: rewrite_tags uni_alnum s.
Proof.
  intros Hcs. unfold rewrite_tags. apply sub_cons_none.
  apply match_at_none. intros Hp. apply tag_head_shape in Hp as [Hs _].
  congruence.
Qed.

Lemma rewrite_tags_copy_prefix uni_alnum (a b : text) (c : N) :
  Py.contains (u "<IconButton") a = false → c ∉ u "<IconButton" →
  rewrite_tags uni_alnum (a ++ c :: b) = a ++ c :: rewrite_tags uni_alnum b.
Proof.
  intros Ha Hc. induction a as [|x a IH].
  - cbn [app]. apply rewrite_tags_copy.
    change (c :: b) with ([] ++ c :: b).
    rewrite (startswith_separated _ [] b c Hc). reflexivity.
  - cbn [Py.contains] in Ha. apply orb_false_iff in Ha as [Hx Ha].
    cbn [app]. rewrite rewrite_tags_copy.
    + now rewrite IH.
    + change (x :: a ++ c :: b) with ((x :: a) ++ c :: b).
      now rewrite (startswith_separated _ _ b c Hc).
Qed.

Lemma callback_repairer_copy_prefix uni_alnum (p s : text) :
  (∀ p1 p2, p = p1 ++ p2 → p2 ≠ [] → ¬ callback_at_head uni_alnum (p2 ++ s)) →
  callback_repairer uni_alnum (p ++ s) = p ++ callback_repairer uni_alnum s.
Proof.
  induction p as [|c p IH]; intros Hp; [reflexivity|].
  cbn [app]. rewrite callback_repairer_copy.
  - rewrite IH; [reflexivity|].
    intros p1 p2 -> Hne. now apply (Hp (c :: p1) p2).
  - now apply (Hp [] (c :: p)).
Qed.

Lemma word_no_gt uni_alnum (s : text) :
  word_chars uni_alnum s → Forall (fun x => negb (x =? 62) = true) s.
Proof.
  intros Hs. eapply Forall_impl; [exact Hs|].
  intros x Hx. apply negb_true_iff, N.eqb_neq.
  intros ->. discriminate Hx.
Qed.

Lemma spaces_no_gt (s : text) :
  spaces s → Forall (fun x => negb (x =? 62) = true) s.
Proof.
  intros Hs. eapply Forall_impl; [exact Hs|].
  intros x Hx. apply negb_true_iff, N.eqb_neq.
  intros ->. discriminate Hx.
Qed.

Lemma no_callback_before uni_alnum (p name tail : text) (c : N) :
  no_gt p → last p = Some c → Re.isword uni_alnum c = false →
  word_chars uni_alnum name →
  ¬ callback_at_head uni_alnum
      (p ++ name ++ u "={() =" ++ nl ++ u "                hitSlop={HIT_SLOP}>"
       ++ tail).
Proof.
  intros Hp Hlast Hc Hname (name' & region & t & tail' & Heq & Hshape).
  destruct Hshape as (w1 & w2 & w3 & _ & Hname' & Hw1 & Hw2 & Hw3 & _ & _ & _
                      & ->).
  assert (Hgt : Forall (fun x => negb (x =? 62) = true) p).
  { eapply Forall_impl; [exact Hp|]. intros x Hx.
    now apply negb_true_iff, N.eqb_neq. }
  assert (H1 :
    (p ++ name ++ u "={() =" ++ nl ++ u "                "
     ++ u "hitSlop={HIT_SLOP}")
    = name' ++ u "={()" ++ w1 ++ u "=" ++ w2 ++ nl ++ w3
      ++ u "hitSlop={HIT_SLOP}").
  { apply (split_first (fun x => negb (x =? 62)) _ _ tail
             (region ++ u "}" ++ tail') 62 62).
    - rewrite !Forall_app. repeat split;
        [exact Hgt | now apply (word_no_gt uni_alnum)
         | apply literal_forall; reflexivity ..].
    - rewrite !Forall_app. repeat split;
        try (now apply (word_no_gt uni_alnum)); try (now apply spaces_no_gt);
        apply literal_forall; reflexivity.
    - reflexivity.
    - reflexivity.
    - etransitivity; [|etransitivity; [exact Heq|]]; text_norm; reflexivity. }
  rewrite !(app_assoc _ _ (u "hitSlop={HIT_SLOP}")) in H1.
  apply app_inv_tail in H1.
  assert (H2 : p ++ name ++ u "={() " = name' ++ u "={()" ++ w1).
  { apply (split_last Py.isspace _ _ (nl ++ u "                ")
             (w2 ++ nl ++ w3) 61 61).
    - apply literal_forall. reflexivity.
    - rewrite !Forall_app. repeat split; try assumption.
      apply literal_forall. reflexivity.
    - reflexivity.
    - reflexivity.
    - etransitivity; [|etransitivity; [exact H1|]]; text_norm; reflexivity. }
  assert (H3 : p ++ name ++ u "={(" = name' ++ u "={(").
  { apply (split_last Py.isspace _ _ (u " ") w1 41 41).
    - apply literal_forall. reflexivity.
    - exact Hw1.
    - reflexivity.
    - reflexivity.
    - etransitivity; [|etransitivity; [exact H2|]]; text_norm; reflexivity. }
  rewrite app_assoc in H3. apply app_inv_tail in H3. subst name'.
  apply Forall_app in Hname' as [Hpw _].
  destruct p as [|x p] using rev_ind; [discriminate|].
  rewrite last_snoc in Hlast. injection Hlast as ->.
  apply Forall_app in Hpw as [_ Hcw]. apply Forall_cons in Hcw as [Hcw _].
  congruence.
Qed.

Lemma last_app_nonempty {A} (l1 l2 : list A) :
  l2 ≠ [] → last (l1 ++ l2) = last l2.
Proof.
  intros Hne. destruct l2 as [|x l2] using rev_ind; [contradiction|].
  now rewrite app_assoc, !last_snoc.
Qed.

Lemma injected_callback uni_alnum (attrs name body rest : text) :
  no_gt attrs → word_chars uni_alnum name →
  Py.contains (u "hitSlop") (u "<IconButton" ++ attrs ++ name ++ u "={() =")
  = false →
  Py.contains (u "<IconButton") body = false →
  rewrite_tags uni_alnum
    (u "<IconButton" ++ attrs ++ name ++ u "={() =>" ++ body ++ u "}" ++ rest)
  = u "<IconButton" ++ attrs ++ name ++ u "={() =" ++ nl
    ++ u "                hitSlop={HIT_SLOP}>" ++ body ++ u "}"
    ++ rewrite_tags uni_alnum rest.
Proof.
  intros Hattrs Hname Hslop Hbody.
  pose proof (rewrite_tags_at_tag uni_alnum (attrs ++ name ++ u "={() =")
                (u ">") (body ++ u "}" ++ rest)) as Htag.
  rewrite <- !app_assoc in Htag. rewrite Hslop in Htag.
  etransitivity; [etransitivity; [|apply Htag]|].
  - text_norm. reflexivity.
  - unfold no_gt. rewrite !Forall_app. repeat split; [exact Hattrs| |].
    + eapply Forall_impl; [apply (word_no_gt uni_alnum), Hname|].
      intros x Hx. now apply negb_true_iff, N.eqb_neq in Hx.
    + repeat constructor; discriminate.
  - left. split; [reflexivity|].
    rewrite !app_assoc.
    change (u "={() =") with (u "={() " ++ [61]).
    rewrite !app_assoc, last_snoc. discriminate.
  - change (u "}" ++ rest) with (125 :: rest).
    rewrite (rewrite_tags_copy_prefix uni_alnum body rest 125 Hbody).
    + text_norm. reflexivity.
    + intros Hin. vm_compute in Hin.
      repeat (apply elem_of_cons in Hin as [Hin|Hin]; [discriminate|]).
      now apply elem_of_nil in Hin.
Qed.

(** X13.  The two scripts together, on a tag with an arrow callback: the
    Injector, taking the '>' of '=>' for the end of the tag, cuts the
    callback [name={() => body}] in two; the Callback Repairer puts it
    together again and leaves the marker attribute on the line below. *)
Theorem callback_repairer_mends_injected_tag uni_alnum
    (attrs name body rest : text) (c : N) :
  no_gt attrs → last attrs = Some c → Re.isword uni_alnum c = false →
  name ≠ [] → word_chars uni_alnum name →
  Py.contains (u "hitSlop") (u "<IconButton" ++ attrs ++ name ++ u "={() =")
  = false →
  body ≠ [] → free_of (u "}") body →
  Py.contains (u "<IconButton") body = false →
  let tag :=
    u "<IconButton" ++ attrs ++ name ++ u "={() =>" ++ body ++ u "}" in
  rewrite_tags uni_alnum (tag ++ rest)
  = u "<IconButton" ++ attrs ++ name ++ u "={() =" ++ nl
    ++ u "                hitSlop={HIT_SLOP}>" ++ body ++ u "}"
    ++ rewrite_tags uni_alnum rest
  ∧ callback_repairer uni_alnum (rewrite_tags uni_alnum (tag ++ rest))
    = u "<IconButton" ++ attrs ++ name ++ u "={() => " ++ Py.strip body
      ++ u "}" ++ nl ++ u "                hitSlop={HIT_SLOP}"
      ++ callback_repairer uni_alnum (rewrite_tags uni_alnum rest).
Proof.
  intros Hattrs Hlast Hc Hne Hname Hslop Hbne Hbody Hnotag tag.
  assert (Hinj : rewrite_tags uni_alnum (tag ++ rest)
    = u "<IconButton" ++ attrs ++ name ++ u "={() =" ++ nl
      ++ u "                hitSlop={HIT_SLOP}>" ++ body ++ u "}"
      ++ rewrite_tags uni_alnum rest).
  { rewrite <- (injected_callback uni_alnum attrs name body rest)
      by assumption.
    subst tag. text_norm. reflexivity. }
  split; [exact Hinj|]. rewrite Hinj.
  set (R := rewrite_tags uni_alnum rest).
  set (t := name ++ u "={() =" ++ nl ++ u "                hitSlop={HIT_SLOP}>"
            ++ body ++ u "}").
  assert (Ht : truncated_callback uni_alnum name body t).
  { exists (u " "), [], (u "                ").
    repeat split; try assumption; try (repeat constructor; fail);
      discriminate. }
  transitivity (callback_repairer uni_alnum
                  ((u "<IconButton" ++ attrs) ++ t ++ R)).
  { subst t. text_norm. reflexivity. }
  rewrite callback_repairer_copy_prefix.
  - rewrite (callback_repairer_head uni_alnum name body t R Ht).
    unfold restored_callback. text_norm. reflexivity.
  - intros p1 p2 Hp Hp2.
    replace (p2 ++ t ++ R)
      with (p2 ++ name ++ u "={() =" ++ nl
            ++ u "                hitSlop={HIT_SLOP}>" ++ body ++ u "}" ++ R)
      by (subst t; text_norm; reflexivity).
    apply (no_callback_before uni_alnum p2 name _ c); [| |exact Hc|exact Hname].
    + assert (Hall : no_gt (u "<IconButton" ++ attrs)).
      { apply Forall_app. split; [repeat constructor; discriminate|exact Hattrs]. }
      rewrite Hp in Hall. now apply Forall_app in Hall as [_ Hall].
    + rewrite <- (last_app_nonempty p1 p2 Hp2), <- Hp.
      rewrite last_app_nonempty; [exact Hlast|].
      intros ->. discriminate.
Qed.

Lemma callback_repairer_mends_injected_tag_witness :
  callback_repairer ascii_only
    (rewrite_tags ascii_only
       (u "<IconButton icon='menu' onPress={() => go()} />"))
  = u "<IconButton icon='menu' onPress={() => go()}" ++ nl
    ++ u "                hitSlop={HIT_SLOP} />".
Proof.
  refine (proj2 (callback_repairer_mends_injected_tag ascii_only
                   (u " icon='menu' ") (u "onPress") (u " go()") (u " />") 32
                   _ eq_refl eq_refl _ _ eq_refl _ _ eq_refl)).
  - apply Forall_forall. intros x Hx. vm_compute in Hx.
    repeat (apply elem_of_cons in Hx as [->|Hx]; [discriminate|]).
    now apply elem_of_nil in Hx.
  - discriminate.
  - apply literal_forall. reflexivity.
  - discriminate.
  - apply Forall_forall. intros x Hx Hin. vm_compute in Hx, Hin.
    repeat (apply elem_of_cons in Hx as [->|Hx];
            [apply elem_of_cons in Hin as [Hin|Hin];
             [discriminate | now apply elem_of_nil in Hin]|]).
    now apply elem_of_nil in Hx.
Defined.

(** ** One misplaced import *)

Lemma scan_single (l1 l2 : list text) (prev h : text) :
  Forall clean_line l1 → clean_line prev → Forall clean_line l2 →
  Py.contains FixImports.marker h = true → l2 ≠ [] →
  Py.startswith (u "import") (Py.strip prev) = true ∨ Py.strip prev = u "{" →
  FixImports.scan (l1 ++ prev :: h :: l2) 0 (l1 ++ prev :: h :: l2) [] None
  = (l1 ++ prev :: l2, Some h).
Proof.
  intros Hl1 Hprev Hl2 Hh Hne Himp.
  set (lines := l1 ++ prev :: h :: l2).
  unfold lines at 2.
  rewrite (scan_clean lines l1 Hl1). cbn [app Nat.add FixImports.scan].
  rewrite (misplaced_clean lines _ prev Hprev).
  cbn [FixImports.scan].
  assert (Hmis : FixImports.misplaced lines (S (length l1)) h = true).
  { unfold FixImports.misplaced. rewrite Hh. cbn [andb].
    replace (S (length l1) - 1)%nat with (length l1) by lia.
    assert (Hnth : Py.nth_line lines (length l1) = prev).
    { unfold Py.nth_line, lines. now rewrite list_lookup_middle. }
    rewrite Hnth.
    assert (Hlen : (S (length l1) <? length lines - 1)%nat = true).
    { apply Nat.ltb_lt. unfold lines. rewrite length_app. cbn [length].
      destruct l2; [contradiction | cbn [length]; lia]. }
    rewrite Hlen. cbn [andb Nat.ltb Nat.leb].
    destruct Himp as [-> | ->]; [reflexivity|].
    rewrite bool_decide_eq_true_2 by reflexivity. apply orb_true_r. }
  rewrite Hmis.
  rewrite (scan_all_clean lines l2 _ _ _ Hl2).
  now rewrite <- app_assoc.
Qed.

Lemma lines_no_newline (ls : list text) :
  forallb (fun l => forallb (fun c => negb (c =? 10)) l) ls = true →
  Forall no_newline ls.
Proof.
  intros H. apply Forall_forall. intros l Hl.
  apply list_elem_of_In in Hl.
  rewrite forallb_forall in H. specialize (H l Hl).
  apply Forall_forall. intros c Hc. apply list_elem_of_In in Hc.
  rewrite forallb_forall in H. specialize (H c Hc).
  now apply negb_true_iff, N.eqb_neq in H.
Qed.

(** X14.  One misplaced HIT_SLOP import (a marker line that follows a line
    starting with 'import' or a bare '{', and is not the last line), in a
    file with no other marker line: the Declaration Repairer takes the
    line out and puts it back behind the last line that starts with
    'import ' or is a '}' line directly after an 'import' line; if there is
    no such line, the marker line is gone. *)
Theorem declaration_repairer_moves_single (l1 l2 : list text) (prev h : text) :
  Forall no_newline (l1 ++ prev :: h :: l2) →
  Forall clean_line l1 → clean_line prev → Forall clean_line l2 →
  Py.contains FixImports.marker h = true → l2 ≠ [] →
  Py.startswith (u "import") (Py.strip prev) = true ∨ Py.strip prev = u "{" →
  let kept := l1 ++ prev :: l2 in
  declaration_repairer (Py.join nl (l1 ++ prev :: h :: l2))
  = Py.join nl
      match Py.last_index_from (FixImports.ends_import kept) 0 kept None with
      | Some j => take (j + 1) kept ++ h :: drop (j + 1) kept
      | None => kept
      end.
Proof.
  intros Hnl Hl1 Hprev Hl2 Hh Hne Himp kept.
  set (lines := l1 ++ prev :: h :: l2) in *.
  assert (Hlines : lines ≠ []) by (subst lines; now destruct l1).
  assert (Hin : h ∈ lines).
  { subst lines. apply elem_of_app. right. right. now left. }
  unfold declaration_repairer.
  rewrite (contains_join _ _ h lines Hin Hh). cbn [negb].
  assert (Hscan : FixImports.scan (Py.split 10 (Py.join nl lines)) 0
                    (Py.split 10 (Py.join nl lines)) [] None
                  = (kept, Some h)).
  { rewrite (split_join lines Hlines Hnl). now apply scan_single. }
  rewrite (fix_lines_unfold _ _ _ Hscan).
  destruct h as [|c h]; [discriminate Hh|].
  reflexivity.
Qed.

Lemma declaration_repairer_moves_single_witness :
  declaration_repairer
    (Py.join nl
       ([u "import React from 'react';"]
        ++ u "import {" :: u "import { HIT_SLOP } from '../constants/ui';"
        :: [u "  View,"; u "} from 'react-native';";
            u "import { Text } from 'react-native';"; u "export default View;"]))
  = Py.join nl
      [u "import React from 'react';"; u "import {"; u "  View,";
       u "} from 'react-native';"; u "import { Text } from 'react-native';";
       u "import { HIT_SLOP } from '../constants/ui';";
       u "export default View;"].
Proof.
  rewrite declaration_repairer_moves_single.
  - reflexivity.
  - apply lines_no_newline. reflexivity.
  - repeat constructor.
  - reflexivity.
  - repeat constructor.
  - reflexivity.
  - discriminate.
  - now left.
Defined.

(** ** The tag rewriting on its own output *)

Lemma first_gt (x : text) :
  no_gt x ∨ ∃ a b, x = a ++ 62 :: b ∧ no_gt a.
Proof.
  induction x as [|c x IH]; [left; constructor|].
  destruct (decide (c = 62)) as [->|Hc].
  - right. exists [], x. split; [reflexivity | constructor].
  - destruct IH as [Hx|(a & b & -> & Ha)].
    + left. now constructor.
    + right. exists (c :: a), b. split; [reflexivity | now constructor].
Qed.

Lemma tag_match_exists uni_alnum (s : text) :
  Py.startswith (u "<IconButton") s = true → ¬ no_gt s →
  is_Some (Re.match_at uni_alnum AddHitslop.pattern s).
Proof.
  intros Hs Hgt. apply startswith_spec in Hs as [x ->].
  destruct (first_gt x) as [Hx|(attrs & rest & -> & Hattrs)].
  { contradiction Hgt. apply Forall_app. split; [|exact Hx].
    repeat constructor; discriminate. }
  destruct (decide (last attrs = Some 47)) as [Hlast|Hlast].
  - destruct attrs as [|c a] using rev_ind; [discriminate|].
    rewrite last_snoc in Hlast. injection Hlast as ->.
    apply Forall_app in Hattrs as [Ha _].
    pose proof (tag_match_at uni_alnum a (u "/>") rest Ha (or_intror eq_refl))
      as Hm.
    replace (u "<IconButton" ++ (a ++ [47]) ++ 62 :: rest)
      with (u "<IconButton" ++ a ++ u "/>" ++ rest)
      by (now rewrite <- !app_assoc).
    now rewrite Hm.
  - pose proof (tag_match_at uni_alnum attrs (u ">") rest Hattrs
                  (or_introl (conj eq_refl Hlast))) as Hm.
    change (62 :: rest) with (u ">" ++ rest). now rewrite Hm.
Qed.

Lemma tag_match_exact uni_alnum (s : text) (m : Re.match_obj) :
  Re.match_at uni_alnum AddHitslop.pattern s = Some m →
  ∃ attrs closing,
    no_gt attrs
    ∧ ((closing = u ">" ∧ last attrs ≠ Some 47) ∨ closing = u "/>")
    ∧ s = u "<IconButton" ++ attrs ++ closing ++ Re.rest m.
Proof.
  intros Hm. pose proof (match_at_sound _ _ _ _ Hm) as [Hs Him].
  apply tag_match_inv in Him as (attrs & closing & Hg & Hattrs & Hc & Hg1 & _).
  exists attrs, closing. split; [exact Hattrs|].
  split; [|rewrite Hs, Hg; now rewrite <- !app_assoc].
  destruct Hc as [->| ->]; [left|now right]. split; [reflexivity|].
  intros Hlast.
  destruct attrs as [|c a] using rev_ind; [discriminate|].
  rewrite last_snoc in Hlast. injection Hlast as ->.
  apply Forall_app in Hattrs as [Ha _].
  pose proof (tag_match_at uni_alnum a (u "/>") (Re.rest m) Ha
                (or_intror eq_refl)) as Hm'.
  assert (Heq : u "<IconButton" ++ a ++ u "/>" ++ Re.rest m = s).
  { rewrite Hs, Hg. now rewrite <- !app_assoc. }
  rewrite Heq, Hm in Hm'.
  assert (Hlen : length (Re.group m 1) = length (u "<IconButton" ++ a)).
  { apply (f_equal (fun o => match o with
                             | Some m => length (Re.group m 1)
                             | None => 0%nat
                             end)) in Hm'.
    exact Hm'. }
  rewrite Hg1, !length_app in Hlen. cbn [length] in Hlen. lia.
Qed.

Lemma rewrite_tags_no_gt uni_alnum (s : text) :
  no_gt s → rewrite_tags uni_alnum s = s.
Proof.
  intros Hs. unfold rewrite_tags. apply sub_no_occurrence.
  intros (pre & s' & -> & Hp). apply tag_head_shape in Hp as [_ Hgt].
  apply Hgt. now apply Forall_app in Hs as [_ Hs].
Qed.

Lemma startswith_take (p s : text) :
  Py.startswith p (take (length p) s) = Py.startswith p s.
Proof.
  revert s. induction p as [|a p IH]; intros s; [reflexivity|].
  destruct s as [|b s]; [reflexivity|]. cbn. now rewrite IH.
Qed.

Lemma rewrite_tags_take uni_alnum (s : text) :
  take 11 (rewrite_tags uni_alnum s) = take 11 s.
Proof.
  remember (length s) as n eqn:Hn. revert s Hn.
  induction n as [n IH] using lt_wf_ind; intros s ->.
  destruct (Re.match_at uni_alnum AddHitslop.pattern s) as [m|] eqn:Hm.
  - apply tag_match_exact in Hm as (attrs & closing & Hattrs & Hc & ->).
    rewrite (rewrite_tags_at_tag _ _ _ _ Hattrs Hc).
    change 11%nat with (length (u "<IconButton")).
    now rewrite !take_app_length.
  - destruct s as [|c s]; [now rewrite rewrite_tags_no_gt by constructor|].
    unfold rewrite_tags. rewrite sub_cons_none by exact Hm.
    fold (rewrite_tags uni_alnum s). cbn [take]. f_equal.
    pose proof (IH (length s) (Nat.lt_succ_diag_r _) s eq_refl) as Hs.
    apply (f_equal (take 10)) in Hs. now rewrite !take_take in Hs.
Qed.

Lemma no_tag_after_rewriting uni_alnum (c : N) (s : text) :
  Re.match_at uni_alnum AddHitslop.pattern (c :: s) = None →
  Re.match_at uni_alnum AddHitslop.pattern (c :: rewrite_tags uni_alnum s)
  = None.
Proof.
  intros Hnone. apply match_at_none. intros Hp.
  apply tag_head_shape in Hp as [Hs Hgt].
  destruct (tag_match_exists uni_alnum (c :: s)) as [m Hm]; [| |congruence].
  - rewrite <- startswith_take in Hs |- *.
    change (length (u "<IconButton")) with 11%nat in *.
    cbn [take] in *.
    pose proof (rewrite_tags_take uni_alnum s) as Ht.
    apply (f_equal (take 10)) in Ht. rewrite !take_take in Ht.
    cbn [Nat.min] in Ht. now rewrite <- Ht.
  - intros Hno. apply Hgt. apply Forall_cons in Hno as [Hc Hno].
    constructor; [exact Hc|]. now rewrite rewrite_tags_no_gt.
Qed.

(** X15.  The tag rewriting run on its own output changes nothing: a tag
    that has received the marker attribute holds 'hitSlop' and is kept, so
    no tag ever gets the attribute twice. *)
Theorem rewrite_tags_idempotent uni_alnum (s : text) :
  rewrite_tags uni_alnum (rewrite_tags uni_alnum s) = rewrite_tags uni_alnum s.
Proof.
  remember (length s) as n eqn:Hn. revert s Hn.
  induction n as [n IH] using lt_wf_ind; intros s ->.
  destruct (Re.match_at uni_alnum AddHitslop.pattern s) as [m|] eqn:Hm.
  - apply tag_match_exact in Hm as (attrs & closing & Hattrs & Hc & ->).
    assert (Hrest : rewrite_tags uni_alnum (rewrite_tags uni_alnum (Re.rest m))
                    = rewrite_tags uni_alnum (Re.rest m)).
    { apply (IH (length (Re.rest m))); [|reflexivity].
      rewrite !length_app. destruct Hc as [[-> _]| ->]; cbn; lia. }
    rewrite (rewrite_tags_at_tag _ _ _ _ Hattrs Hc).
    destruct (Py.contains (u "hitSlop") (u "<IconButton" ++ attrs)) eqn:Hslop.
    + cbn [app]. rewrite (rewrite_tags_at_tag _ _ _ _ Hattrs Hc), Hslop.
      cbn [app]. now rewrite Hrest.
    + set (ins := nl ++ u "                hitSlop={HIT_SLOP}").
      rewrite (app_assoc attrs ins).
      rewrite (rewrite_tags_at_tag uni_alnum (attrs ++ ins)).
      * rewrite (app_assoc (u "<IconButton") attrs ins).
        assert (Hins : Py.contains (u "hitSlop") ins = true) by reflexivity.
        rewrite (contains_app_r _ (u "<IconButton" ++ attrs) ins Hins).
        cbn [app]. now rewrite Hrest.
      * apply Forall_app. split; [exact Hattrs|].
        subst ins. repeat constructor; discriminate.
      * destruct Hc as [[-> _]| ->]; [left|now right].
        split; [reflexivity|]. subst ins.
        change (nl ++ u "                hitSlop={HIT_SLOP}")
          with ((nl ++ u "                hitSlop={HIT_SLOP") ++ [125]).
        rewrite app_assoc, last_snoc. discriminate.
  - destruct s as [|c s]; [now rewrite !rewrite_tags_no_gt by constructor|].
    assert (Hcopy : rewrite_tags uni_alnum (c :: s)
                    = c :: rewrite_tags uni_alnum s).
    { unfold rewrite_tags. now apply sub_cons_none. }
    rewrite Hcopy.
    assert (Hcopy' : rewrite_tags uni_alnum (c :: rewrite_tags uni_alnum s)
                     = c :: rewrite_tags uni_alnum (rewrite_tags uni_alnum s)).
    { unfold rewrite_tags at 1 3. apply sub_cons_none.
      now apply no_tag_after_rewriting. }
    rewrite Hcopy'. f_equal.
    now apply (IH (length s) (Nat.lt_succ_diag_r _)).
Qed.
